(** * mogura-novel: validators, section parser and change history

    A shallow embedding of [tools/md.py], [tools/story.py], [tools/novel.py],
    [tools/toppage.py] and the history part of [tools/publish.py], with the
    properties of the specification proved (or refuted) on it.

    Conventions of the embedding.
    - A Python [str] is the list of its Unicode code points, each a [Z].
      A file is the list of its bytes, each a [Z] in [0, 256).
    - A Python [dict] whose iteration order is observable is an association
      list in insertion order; the history store, whose order is not
      observable by [update_history_entry], is a [gmap].
    - A call that may raise returns an [outcome]: [Return v] or [Raise e].
    - What belongs to the interpreter and not to the repository (the Unicode
      digit tables, the limit on integer string conversion, the iteration
      order of a [set], the path separator) is a field of [runtime]. *)

From Stdlib Require Import ZArith List Lia Bool Ascii String.
From Stdlib Require Import Sorting.Sorted Sorting.Permutation.
From stdpp Require Import base option list gmap.
Import ListNotations.

Local Open Scope Z_scope.

(** ** Python strings *)

(** A [str]: code points in order. *)
Definition str : Type := list Z.
(** A [bytes] value: octets in order. *)
Definition bytes : Type := list Z.

Definition str_eqb (a b : str) : bool := bool_decide (a = b).

(** The octets of a Rocq string literal. *)
Definition octets (s : string) : bytes :=
  map (fun a => Z.of_N (N_of_ascii a)) (list_ascii_of_string s).

Definition is_cont (b : Z) : bool := (128 <=? b) && (b <=? 191).

(** [bytes.decode("utf-8")] in strict mode: [None] is [UnicodeDecodeError].
    Overlong forms, surrogates and values above U+10FFFF are refused, as
    CPython does. A continuation byte [b] carries the six bits [b - 128]. *)
Fixpoint utf8_decode (bs : bytes) : option str :=
  match bs with
  | [] => Some []
  | b0 :: r0 =>
    if (0 <=? b0) && (b0 <? 128) then cons b0 <$> utf8_decode r0
    else if (194 <=? b0) && (b0 <=? 223) then
      match r0 with
      | b1 :: r1 =>
        if is_cont b1
        then cons ((b0 - 192) * 64 + (b1 - 128)) <$> utf8_decode r1
        else None
      | _ => None
      end
    else if (224 <=? b0) && (b0 <=? 239) then
      match r0 with
      | b1 :: b2 :: r2 =>
        if is_cont b1 && is_cont b2
           && (if b0 =? 224 then 160 <=? b1 else true)
           && (if b0 =? 237 then b1 <=? 159 else true)
        then cons ((b0 - 224) * 4096 + (b1 - 128) * 64 + (b2 - 128))
               <$> utf8_decode r2
        else None
      | _ => None
      end
    else if (240 <=? b0) && (b0 <=? 244) then
      match r0 with
      | b1 :: b2 :: b3 :: r3 =>
        if is_cont b1 && is_cont b2 && is_cont b3
           && (if b0 =? 240 then 144 <=? b1 else true)
           && (if b0 =? 244 then b1 <=? 143 else true)
        then cons ((b0 - 240) * 262144 + (b1 - 128) * 4096
                   + (b2 - 128) * 64 + (b3 - 128))
               <$> utf8_decode r3
        else None
      | _ => None
      end
    else None
  end.

(** A code point that [str.encode("utf-8")] accepts: a Unicode scalar
    value (no surrogate). *)
Definition is_scalar (c : Z) : bool :=
  (0 <=? c) && (c <=? 1114111) && negb ((55296 <=? c) && (c <=? 57343)).

Definition utf8_encode_char (c : Z) : bytes :=
  if c <? 128 then [c]
  else if c <? 2048 then [192 + c / 64; 128 + c mod 64]
  else if c <? 65536 then
    [224 + c / 4096; 128 + (c / 64) mod 64; 128 + c mod 64]
  else
    [240 + c / 262144; 128 + (c / 4096) mod 64; 128 + (c / 64) mod 64;
     128 + c mod 64].

(** [str.encode("utf-8")]: [None] is [UnicodeEncodeError]. *)
Fixpoint utf8_encode (s : str) : option bytes :=
  match s with
  | [] => Some []
  | c :: s' =>
    if is_scalar c then app (utf8_encode_char c) <$> utf8_encode s' else None
  end.

(** A string literal of the source: the code points of its UTF-8 text. *)
Definition py (s : string) : str := default [] (utf8_decode (octets s)).

(** [str.isspace] for one character: the characters [str.strip()] removes. *)
Definition isspace (c : Z) : bool :=
  ((9 <=? c) && (c <=? 13)) || ((28 <=? c) && (c <=? 32))
  || (c =? 133) || (c =? 160) || (c =? 5760)
  || ((8192 <=? c) && (c <=? 8202))
  || (c =? 8232) || (c =? 8233) || (c =? 8239) || (c =? 8287) || (c =? 12288).

(** [s.lstrip()] *)
Fixpoint lstrip (s : str) : str :=
  match s with
  | c :: s' => if isspace c then lstrip s' else s
  | [] => []
  end.

(** [s.rstrip()] *)
Definition rstrip (s : str) : str := rev (lstrip (rev s)).

(** [s.strip()] *)
Definition strip (s : str) : str := rstrip (lstrip s).

Fixpoint lstrip_char (x : Z) (s : str) : str :=
  match s with
  | c :: s' => if c =? x then lstrip_char x s' else s
  | [] => []
  end.

(** [s.rstrip(x)] for a one-character [x]. *)
Definition rstrip_char (x : Z) (s : str) : str := rev (lstrip_char x (rev s)).

(** [s.startswith(p)] *)
Fixpoint startswith (s p : str) : bool :=
  match p, s with
  | [], _ => true
  | x :: p', c :: s' => (c =? x) && startswith s' p'
  | _ :: _, [] => false
  end.

(** [s.endswith(p)] *)
Definition endswith (s p : str) : bool := startswith (rev s) (rev p).

(** [p in s] for strings. *)
Fixpoint contains (s p : str) : bool :=
  startswith s p || match s with [] => false | _ :: s' => contains s' p end.

(** [c in s] for one character [c]. *)
Definition has_char (c : Z) (s : str) : bool := existsb (Z.eqb c) s.

(** [sep.join(parts)] *)
Fixpoint join (sep : str) (parts : list str) : str :=
  match parts with
  | [] => []
  | [p] => p
  | p :: ps => p ++ sep ++ join sep ps
  end.

(** The line boundaries of [str.splitlines] other than CR. *)
Definition is_linebreak (c : Z) : bool :=
  (c =? 10) || (c =? 11) || (c =? 12) || (c =? 28) || (c =? 29) || (c =? 30)
  || (c =? 133) || (c =? 8232) || (c =? 8233).

Fixpoint splitlines_from (cur s : str) : list str :=
  match s with
  | [] => match cur with [] => [] | _ => [cur] end
  | c :: s' =>
    if c =? 13 then
      match s' with
      | 10 :: s'' => cur :: splitlines_from [] s''
      | _ => cur :: splitlines_from [] s'
      end
    else if is_linebreak c then cur :: splitlines_from [] s'
    else splitlines_from (cur ++ [c]) s'
  end.

(** [s.splitlines()] *)
Definition splitlines (s : str) : list str := splitlines_from [] s.

(** [s.split(x, 1)] for a one-character [x] that occurs in [s]: the text
    before the first [x] and the text after it. *)
Fixpoint split_once (x : Z) (s : str) : str * str :=
  match s with
  | [] => ([], [])
  | c :: s' =>
    if c =? x then ([], s')
    else let '(a, b) := split_once x s' in (c :: a, b)
  end.

(** [a < b] on strings: lexicographic on code points. *)
Fixpoint str_ltb (a b : str) : bool :=
  match a, b with
  | [], [] => false
  | [], _ :: _ => true
  | _ :: _, [] => false
  | x :: a', y :: b' => (x <? y) || ((x =? y) && str_ltb a' b')
  end.

(** [s.replace(x, y)] for one-character [x] and [y]. *)
Definition replace_char (x y : Z) (s : str) : str :=
  map (fun c => if c =? x then y else c) s.

(** Universal-newline translation of a text-mode [open]: CR LF and a lone
    CR both read as LF. [after_cr] tells that the previous character was a
    CR, so that an LF that follows it is dropped. *)
Fixpoint translate_newlines_from (after_cr : bool) (s : str) : str :=
  match s with
  | [] => []
  | c :: s' =>
    if c =? 13 then 10 :: translate_newlines_from true s'
    else if (c =? 10) && after_cr then translate_newlines_from false s'
    else c :: translate_newlines_from false s'
  end.

Definition translate_newlines (s : str) : str := translate_newlines_from false s.

Fixpoint readlines_from (cur s : str) : list str :=
  match s with
  | [] => match cur with [] => [] | _ => [cur] end
  | c :: s' =>
    if c =? 10 then (cur ++ [10]) :: readlines_from [] s'
    else readlines_from (cur ++ [c]) s'
  end.

(** The lines a [for raw_line in f] loop sees in a text already translated:
    each keeps its LF, the last one has none when the text does not end in
    LF. *)
Definition readlines (text : str) : list str := readlines_from [] text.

(** ** Decimal integers *)

Definition digit_char (d : Z) : Z := 48 + d.

Fixpoint decimal_digits (fuel : nat) (n : Z) (acc : str) : str :=
  match fuel with
  | O => acc
  | S fuel' =>
    if n <? 10 then digit_char n :: acc
    else decimal_digits fuel' (n / 10) (digit_char (n mod 10) :: acc)
  end.

(** [str(n)] for an [int], without the conversion limit. *)
Definition repr_int (n : Z) : str :=
  let m := Z.abs n in
  let ds := decimal_digits (S (Z.to_nat (Z.log2 m))) m [] in
  if n <? 0 then 45 :: ds else ds.


(** ** Exceptions and results *)

(** The exceptions the modelled code can raise. *)
Inductive exn : Type :=
  | JsonKeyDuplicateError (msg : str)
  | UnicodeDecodeError
  | UnicodeEncodeError
  | ValueError
  | KeyError
  | OSError.

(** The outcome of a call: a value, or an exception that propagates. *)
Inductive outcome (A : Type) : Type :=
  | Return (a : A)
  | Raise (e : exn).
Arguments Return {A} a.
Arguments Raise {A} e.

(** Sequencing: an exception skips the rest. *)
#[global] Instance outcome_bind : MBind outcome := fun A B k r =>
  match r with
  | Return a => k a
  | Raise e => Raise e
  end.

(** A loop that appends one computed item per element. *)
Fixpoint for_each {A B} (f : A -> outcome B) (l : list A) : outcome (list B) :=
  match l with
  | [] => Return []
  | x :: l' => y ← f x; ys ← for_each f l'; Return (y :: ys)
  end.

(** ** The interpreter *)

(** What the interpreter fixes and the repository does not. *)
Record runtime : Type := {
  (** [c.isdigit()] for one character (Numeric_Type Digit or Decimal). *)
  isdigit_char : Z -> bool;
  (** The value of a decimal digit character (category Nd), which is what
      [int] accepts. *)
  decimal_value : Z -> option Z;
  (** [sys.get_int_max_str_digits()]; [0] disables the limit. *)
  int_max_str_digits : nat;
  (** The order in which a [set] of strings is iterated, given its elements
      (it depends on the hash seed of the process). *)
  set_iter : list str -> list str;
  (** The separator [str(path)] puts between components. *)
  path_sep : Z
}.

(** [s.isdigit()]: false on the empty string. *)
Definition isdigit (rt : runtime) (s : str) : bool :=
  match s with
  | [] => false
  | _ => forallb (isdigit_char rt) s
  end.

Fixpoint int_digits (rt : runtime) (s : str) (acc : Z) : option Z :=
  match s with
  | [] => Some acc
  | c :: s' =>
    match decimal_value rt c with
    | Some d => int_digits rt s' (10 * acc + d)
    | None => None
    end
  end.

Definition over_limit (rt : runtime) (ndigits : nat) : bool :=
  match int_max_str_digits rt with
  | O => false
  | S _ => (int_max_str_digits rt <? ndigits)%nat
  end.

(** [int(s)] for a string made of an optional sign and digit characters
    (the only strings the modelled code passes): [ValueError] when a
    character is a digit that is not a decimal digit, or when there are
    more digits than the conversion limit. *)
Definition py_int (rt : runtime) (s : str) : outcome Z :=
  let '(neg, ds) :=
    match s with
    | c :: s' => if c =? 45 then (true, s') else if c =? 43 then (false, s') else (false, s)
    | [] => (false, [])
    end in
  if over_limit rt (length ds) then Raise ValueError
  else
    match ds, int_digits rt ds 0 with
    | _ :: _, Some n => Return (if neg then - n else n)
    | _, _ => Raise ValueError
    end.

(** [str(n)] for an [int], as an f-string field formats it. *)
Definition py_str_int (rt : runtime) (n : Z) : outcome str :=
  if over_limit rt (length (repr_int (Z.abs n))) then Raise ValueError
  else Return (repr_int n).

(** ** Dictionaries in insertion order *)

Definition dict (V : Type) : Type := list (str * V).

(** [d.get(k)] *)
Fixpoint dict_get {V} (k : str) (d : dict V) : option V :=
  match d with
  | [] => None
  | (k', v) :: d' => if str_eqb k k' then Some v else dict_get k d'
  end.

(** [k in d] *)
Definition dict_mem {V} (k : str) (d : dict V) : bool :=
  match dict_get k d with Some _ => true | None => false end.

(** [d[k] = v]: an existing key keeps its position, a new key goes last. *)
Fixpoint dict_set {V} (d : dict V) (k : str) (v : V) : dict V :=
  match d with
  | [] => [(k, v)]
  | (k', v') :: d' =>
    if str_eqb k k' then (k', v) :: d' else (k', v') :: dict_set d' k v
  end.

(** [d.keys()] *)
Definition dict_keys {V} (d : dict V) : list str := map fst d.

(** [d.get(k, dflt)] *)
Definition dict_get_default {V} (k : str) (dflt : V) (d : dict V) : V :=
  default dflt (dict_get k d).

(** [dict(items)] *)
Definition dict_of_items {V} (items : list (str * V)) : dict V :=
  fold_left (fun d kv => dict_set d (fst kv) (snd kv)) items [].

(** ** Sorting and counting *)

Section Sorting.
Context {A : Type} (ltb : A -> A -> bool).

(** One step of a stable insertion: [x], which comes from the left of
    everything in [l], goes before the first element that is not
    smaller than it. *)
Fixpoint insert_stable (x : A) (l : list A) : list A :=
  match l with
  | [] => [x]
  | y :: l' => if ltb y x then y :: insert_stable x l' else x :: y :: l'
  end.

(** [sorted(l)] under the comparison [ltb] ([<]): the stable sort. *)
Fixpoint sorted (l : list A) : list A :=
  match l with
  | [] => []
  | x :: l' => insert_stable x (sorted l')
  end.
End Sorting.

(** [sorted(l, key=f)] with keys compared by [ltb]. *)
Definition sorted_by_key {A K} (ltb : K -> K -> bool) (f : A -> K)
    (l : list A) : list A :=
  sorted (fun a b => ltb (f a) (f b)) l.

Fixpoint counter_add (c : list (Z * nat)) (x : Z) : list (Z * nat) :=
  match c with
  | [] => [(x, 1%nat)]
  | (y, n) :: c' => if x =? y then (y, S n) :: c' else (y, n) :: counter_add c' x
  end.

(** [Counter(xs).items()]: each distinct value with its count, in order of
    first occurrence. *)
Definition Counter (xs : list Z) : list (Z * nat) := fold_left counter_add xs [].

(** ** Paths and the file tree *)

(** A relative [Path]: its components. [[]] is [Path(".")]. *)
Definition Path : Type := list str.

(** A snapshot of the tree under the working directory. *)
#[warnings="-register-all"]
Inductive node : Type :=
  | File (mtime : Z) (data : bytes)
  | Dir (entries : list (str * node)).

Fixpoint entry (name : str) (entries : list (str * node)) : option node :=
  match entries with
  | [] => None
  | (n, x) :: es => if str_eqb name n then Some x else entry name es
  end.

Fixpoint resolve (root : node) (p : Path) : option node :=
  match p with
  | [] => Some root
  | c :: p' =>
    match root with
    | Dir es => match entry c es with Some n => resolve n p' | None => None end
    | File _ _ => None
    end
  end.

(** [p.is_file()] *)
Definition is_file (fs : node) (p : Path) : bool :=
  match resolve fs p with Some (File _ _) => true | _ => false end.

(** [p.is_dir()] *)
Definition is_dir (fs : node) (p : Path) : bool :=
  match resolve fs p with Some (Dir _) => true | _ => false end.

(** [p.iterdir()], in the order of the directory; [OSError] when [p] is not
    a directory. *)
Definition iterdir (fs : node) (p : Path) : outcome (list Path) :=
  match resolve fs p with
  | Some (Dir es) => Return (map (fun e => p ++ [fst e]) es)
  | _ => Raise OSError
  end.

(** [os.path.getmtime(p)]: [None] is [OSError]. Modification times are
    only compared, negated and maximised, so they are integers here (for
    instance nanoseconds). *)
Definition getmtime (fs : node) (p : Path) : option Z :=
  match resolve fs p with
  | Some (File t _) => Some t
  | _ => None
  end.

(** The bytes of the file at [p]; [OSError] when there is none. A file of
    the tree can always be read: permissions and failures of the device
    are not part of the file tree, so a statement about a file that is
    read assumes [read_bytes] returns. *)
Definition read_bytes (fs : node) (p : Path) : outcome bytes :=
  match resolve fs p with
  | Some (File _ d) => Return d
  | _ => Raise OSError
  end.

(** [p.read_text(encoding="utf-8")], which is also the text a
    [open(p, "r", encoding="utf-8")] yields: decoded strictly, newlines
    translated. The file is decoded as a whole, as CPython does for a file
    that fits its read buffer. *)
Definition read_text (fs : node) (p : Path) : outcome str :=
  d ← read_bytes fs p;
  match utf8_decode d with
  | Some s => Return (translate_newlines s)
  | None => Raise UnicodeDecodeError
  end.

(** [p.parent] *)
Definition parent (p : Path) : Path := List.removelast p.

(** [p.name] *)
Definition name (p : Path) : str := List.last p [].

(** [p / c] *)
Definition child_path (p : Path) (c : str) : Path := p ++ [c].

(** [str(p)] *)
Definition path_str (rt : runtime) (p : Path) : str :=
  match p with
  | [] => [46]
  | _ => join [path_sep rt] p
  end.

Fixpoint rfind_from (x : Z) (s : str) (i : nat) (found : option nat) : option nat :=
  match s with
  | [] => found
  | c :: s' => rfind_from x s' (S i) (if c =? x then Some i else found)
  end.

(** [p.suffix]: the last component from its last dot on, when that dot is
    neither its first nor its last character. *)
Definition suffix (p : Path) : str :=
  let n := name p in
  match rfind_from 46 n 0 None with
  | Some i =>
    if ((0 <? i) && (i <? length n - 1))%nat then drop i n else []
  | None => []
  end.

(** [a < b] on paths: component by component. *)
Fixpoint path_ltb (a b : Path) : bool :=
  match a, b with
  | [], [] => false
  | [], _ :: _ => true
  | _ :: _, [] => false
  | x :: a', y :: b' => str_ltb x y || (str_eqb x y && path_ltb a' b')
  end.

(** ** SHA-256 ([hashlib.sha256], FIPS 180-4) *)

Definition w32 (x : Z) : Z := x mod 4294967296.

Definition rotr (k x : Z) : Z :=
  Z.lor (Z.shiftr x k) (w32 (Z.shiftl x (32 - k))).

Definition choose (x y z : Z) : Z :=
  Z.lxor (Z.land x y) (Z.land (Z.lxor x 4294967295) z).

Definition majority (x y z : Z) : Z :=
  Z.lxor (Z.lxor (Z.land x y) (Z.land x z)) (Z.land y z).

Definition big_sigma0 (x : Z) : Z := Z.lxor (Z.lxor (rotr 2 x) (rotr 13 x)) (rotr 22 x).
Definition big_sigma1 (x : Z) : Z := Z.lxor (Z.lxor (rotr 6 x) (rotr 11 x)) (rotr 25 x).
Definition small_sigma0 (x : Z) : Z := Z.lxor (Z.lxor (rotr 7 x) (rotr 18 x)) (Z.shiftr x 3).
Definition small_sigma1 (x : Z) : Z := Z.lxor (Z.lxor (rotr 17 x) (rotr 19 x)) (Z.shiftr x 10).

Definition is_prime (n : Z) : bool :=
  (2 <=? n) && forallb (fun d => negb (n mod d =? 0)) (seqZ 2 (n - 2)).

(** The first sixty-four primes: those up to 311. *)
Definition first_primes : list Z := List.filter is_prime (seqZ 2 310).

(** The integer cube root of [n], found between [lo] and [hi]. *)
Fixpoint cube_root_between (fuel : nat) (lo hi n : Z) : Z :=
  match fuel with
  | O => lo
  | S fuel' =>
    if hi - lo <=? 1 then lo
    else
      let mid := (lo + hi) / 2 in
      if mid * mid * mid <=? n then cube_root_between fuel' mid hi n
      else cube_root_between fuel' lo mid n
  end.

Definition cube_root (n : Z) : Z := cube_root_between 128 0 (2 ^ 40) n.

(** The round constants: the first thirty-two bits of the fractional parts
    of the cube roots of the first sixty-four primes. *)
Definition round_constants : list Z :=
  Eval vm_compute in map (fun p => w32 (cube_root (p * 2 ^ 96))) first_primes.

(** The eight working words. *)
Definition digest_state : Type := Z * Z * Z * Z * Z * Z * Z * Z.

(** The initial hash value: the first thirty-two bits of the fractional
    parts of the square roots of the first eight primes. *)
Definition initial_state : digest_state :=
  Eval vm_compute in
    match map (fun p => w32 (Z.sqrt (p * 2 ^ 64))) (take 8 first_primes) with
    | [a; b; c; d; e; f; g; h] => (a, b, c, d, e, f, g, h)
    | _ => (0, 0, 0, 0, 0, 0, 0, 0)
    end.

(** One round, with constant [k] and schedule word [w]. *)
Definition sha_round (k w : Z) (st : digest_state) : digest_state :=
  let '(a, b, c, d, e, f, g, h) := st in
  let t1 := h + big_sigma1 e + choose e f g + k + w in
  let t2 := big_sigma0 a + majority a b c in
  (w32 (t1 + t2), a, b, c, w32 (d + t1), e, f, g).

(** The rounds over the remaining constants; [window] holds the next
    sixteen schedule words, the word of the current round first. *)
Fixpoint sha_rounds (ks : list Z) (window : list Z) (st : digest_state)
    : digest_state :=
  match ks, window with
  | k :: ks', w0 :: rest =>
    let next :=
      w32 (small_sigma1 (nth 13 rest 0) + nth 8 rest 0
           + small_sigma0 (nth 0 rest 0) + w0) in
    sha_rounds ks' (rest ++ [next]) (sha_round k w0 st)
  | _, _ => st
  end.

(** The big-endian words of a block. *)
Fixpoint block_words (block : bytes) : list Z :=
  match block with
  | b0 :: b1 :: b2 :: b3 :: rest =>
    (((b0 * 256 + b1) * 256 + b2) * 256 + b3) :: block_words rest
  | _ => []
  end.

Definition sha_compress (st : digest_state) (block : bytes) : digest_state :=
  let '(a, b, c, d, e, f, g, h) := st in
  let '(a', b', c', d', e', f', g', h') :=
    sha_rounds round_constants (block_words block) st in
  (w32 (a + a'), w32 (b + b'), w32 (c + c'), w32 (d + d'),
   w32 (e + e'), w32 (f + f'), w32 (g + g'), w32 (h + h')).

(** [n] as [k] big-endian bytes. *)
Fixpoint be_bytes (k : nat) (n : Z) (acc : bytes) : bytes :=
  match k with
  | O => acc
  | S k' => be_bytes k' (n / 256) (n mod 256 :: acc)
  end.

(** The message, the byte 0x80, zeros up to 56 modulo 64, and the length
    in bits on eight bytes. *)
Definition sha_pad (msg : bytes) : bytes :=
  let len := Z.of_nat (List.length msg) in
  msg ++ [128] ++ repeat 0 (Z.to_nat ((55 - len) mod 64))
      ++ be_bytes 8 (8 * len) [].

Fixpoint sha_blocks (fuel : nat) (bs : bytes) : list bytes :=
  match fuel, bs with
  | S fuel', _ :: _ => take 64 bs :: sha_blocks fuel' (drop 64 bs)
  | _, _ => []
  end.

(** [hashlib.sha256(msg)] *)
Definition sha256 (msg : bytes) : digest_state :=
  let padded := sha_pad msg in
  fold_left sha_compress (sha_blocks (List.length padded) padded) initial_state.

Definition hex_digit (d : Z) : Z := if d <? 10 then 48 + d else 87 + d.

Definition word_hex (w : Z) : str :=
  [hex_digit (w / 268435456 mod 16); hex_digit (w / 16777216 mod 16);
   hex_digit (w / 1048576 mod 16); hex_digit (w / 65536 mod 16);
   hex_digit (w / 4096 mod 16); hex_digit (w / 256 mod 16);
   hex_digit (w / 16 mod 16); hex_digit (w mod 16)].

(** [.hexdigest()] *)
Definition hexdigest (st : digest_state) : str :=
  let '(a, b, c, d, e, f, g, h) := st in
  word_hex a ++ word_hex b ++ word_hex c ++ word_hex d
  ++ word_hex e ++ word_hex f ++ word_hex g ++ word_hex h.

(** ** tools/md.py *)

(** The loop of [md_to_json] over the remaining lines, with its three
    locals [result], [current_key] and [buffer]; the final flush is the
    empty case. *)
Fixpoint md_scan (lines : list str) (result : dict str)
    (current_key : option str) (buffer : list str) : outcome (dict str) :=
  match lines with
  | [] =>
    match current_key with
    | Some ck => Return (dict_set result ck (join [10] buffer))
    | None => Return result
    end
  | raw_line :: rest =>
    let line := rstrip_char 10 raw_line in
    let stripped := lstrip line in
    if startswith stripped (py "# ") then
      let key := strip (drop 2 stripped) in
      let '(result, buffer) :=
        match current_key with
        | Some ck => (dict_set result ck (join [10] buffer), [])
        | None => (result, buffer)
        end in
      if dict_mem key result
      then Raise (JsonKeyDuplicateError (py "Duplicate key found: " ++ key))
      else md_scan rest result (Some key) buffer
    else
      match current_key with
      | Some _ => md_scan rest result current_key (buffer ++ [line])
      | None => md_scan rest result current_key buffer
      end
  end.

(** [md_to_json] on the text of the document. *)
Definition md_to_json_text (text : str) : outcome (dict str) :=
  md_scan (readlines text) [] None [].

(** [md_to_json(path)] *)
Definition md_to_json (fs : node) (path : Path) : outcome (dict str) :=
  text ← read_text fs path;
  md_to_json_text text.

(** ** tools/story.py *)

Module Story.

Record t : Type := {
  path : Path;
  title : str;
  number : Z;
  content : str;
  length : Z
}.

Definition _is_int_string (rt : runtime) (s : str) : bool :=
  match s with
  | [] => false
  | c :: s' =>
    if has_char c (py "+-") then isdigit rt s' else isdigit rt s
  end.

Definition _count_text_length (text : str) : Z :=
  Z.of_nat (List.length
    (List.filter (fun c => negb (has_char c [10; 13])) text)).

Definition allowed_keys : list str :=
  [py "title"; py "number"; py "content"].

(** The errors collected before the [number] block: the lines from
    [if not data] to the single-line check of [title]. *)
Definition header_errors (rt : runtime) (data : dict str) : list str :=
  let title := dict_get_default (py "title") [] data in
  let number_raw := dict_get_default (py "number") [] data in
  let content := dict_get_default (py "content") [] data in
  let errors := [] in
  let errors :=
    match data with
    | [] => errors ++ [py "No H1 headers found. Required headers: title, number, content"]
    | _ => errors
    end in
  let errors := errors ++
    map (fun key => py "Unexpected header: " ++ key)
      (List.filter (fun key => negb (bool_decide (key ∈ allowed_keys)))
         (dict_keys data)) in
  let errors := errors ++
    map (fun key => py "Missing required header: " ++ key)
      (List.filter (fun key => negb (dict_mem key data))
         (set_iter rt allowed_keys)) in
  let errors :=
    if dict_mem (py "title") data && bool_decide (strip title = [])
    then errors ++ [py "`title` must not be empty"] else errors in
  let errors :=
    if dict_mem (py "number") data && bool_decide (strip number_raw = [])
    then errors ++ [py "`number` must not be empty"] else errors in
  let errors :=
    if dict_mem (py "content") data && bool_decide (strip content = [])
    then errors ++ [py "`content` must not be empty"] else errors in
  let errors :=
    if dict_mem (py "title") data && (has_char 10 title || has_char 13 title)
    then errors ++ [py "`title` must be a single line"] else errors in
  errors.

(** The [number] block: [number_val] and the errors after it. *)
Definition parse_number (rt : runtime) (data : dict str) (errors : list str)
    : outcome (option Z * list str) :=
  let number_raw := dict_get_default (py "number") [] data in
  if dict_mem (py "number") data && negb (bool_decide (strip number_raw = []))
  then
    let number_str := strip number_raw in
    if _is_int_string rt number_str
    then n ← py_int rt number_str; Return (Some n, errors)
    else Return (None, errors ++ [py "`number` must be an integer"])
  else Return (None, errors).

(** The body of [load_if_valid] once the sections are parsed. When no
    error was collected [number_val] is an integer (lemma
    [story_valid_inv]), so the default is never used. *)
Definition validate (rt : runtime) (p : Path) (data : dict str)
    : outcome (list str + t) :=
  let title := dict_get_default (py "title") [] data in
  let content := dict_get_default (py "content") [] data in
  '(number_val, errors) ← parse_number rt data (header_errors rt data);
  match errors with
  | _ :: _ => Return (inl errors)
  | [] =>
    Return (inr {| path := p;
                   title := strip title;
                   number := default 0 number_val;
                   content := content;
                   length := _count_text_length content |})
  end.

Definition load_if_valid (rt : runtime) (fs : node) (p : Path)
    : outcome (list str + t) :=
  if negb (is_file fs p)
  then Return (inl [py "Story file not found: " ++ path_str rt p])
  else
    match md_to_json fs p with
    | Raise (JsonKeyDuplicateError msg) =>
      Return (inl [py "Duplicate header: " ++ msg])
    | Raise e => Raise e
    | Return data => validate rt p data
    end.

(** [hash]: the hexadecimal digest, or the exception of the formatting or
    of the encoding. *)
Definition hash (rt : runtime) (self : t) : outcome str :=
  number_text ← py_str_int rt (number self);
  let base := title self ++ [10] ++ number_text ++ [10] ++ content self in
  match utf8_encode base with
  | Some encoded => Return (hexdigest (sha256 encoded))
  | None => Raise UnicodeEncodeError
  end.

End Story.

(** ** tools/novel.py *)

Module Novel.

Record t : Type := {
  path : Path;
  title : str;
  tags : str;
  status : str;
  outline : str;
  external_links : option str;
  chapters : option (dict Z);
  has_external_links : bool;
  has_chapters : bool;
  stories : list Story.t;
  num_stories : Z;
  total_length : Z
}.

Definition VALID_STATUS : list str :=
  [py "連載中"; py "完結済"; py "更新停止"].

Definition _is_int_string (rt : runtime) (s : str) : bool :=
  match s with
  | [] => false
  | c :: s' =>
    if has_char c (py "+-") then isdigit rt s' else isdigit rt s
  end.

Fixpoint _find_chapter_for_number (number : Z) (bounds : list (str * Z))
    : option str :=
  match bounds with
  | [] => None
  | (title, boundary) :: bounds' =>
    if number <=? boundary then Some title
    else _find_chapter_for_number number bounds'
  end.

Definition allowed : list str :=
  [py "title"; py "tags"; py "status"; py "outline"; py "external links";
   py "chapters"].

Definition required : list str :=
  [py "title"; py "tags"; py "status"; py "outline"].

(** [[line.strip() for line in v.strip().splitlines() if line.strip()]] *)
Definition stripped_lines (v : str) : list str :=
  List.filter (fun l => negb (bool_decide (l = [])))
    (map strip (splitlines (strip v))).

(** The [for l in lines] loop of the [external links] block: the error it
    appends before its [break], if any. *)
Fixpoint links_scan (lines : list str) : list str :=
  match lines with
  | [] => []
  | l :: ls =>
    if negb (startswith l (py "- "))
    then [py "`external links` must be a Markdown list"]
    else
      let item := strip (drop 2 l) in
      let inner := item in
      if negb (startswith inner (py "[") && contains inner (py "](")
               && endswith inner (py ")"))
      then [py "Each `external links` item must contain a Markdown link like "
              ++ [34] ++ py "[text](url)" ++ [34] ++ py " inside quotes"]
      else links_scan ls
  end.

(** The [for l in lines] loop of the [chapters] block, with its locals
    [tmp], [titles_seen] and [nums_seen]: the error it appends before
    its [break] (if any) and the final [tmp]. *)
Fixpoint chapters_scan (rt : runtime) (lines : list str) (tmp : dict Z)
    (titles_seen : gset str) (nums_seen : gset Z)
    : outcome (list str * dict Z) :=
  match lines with
  | [] => Return ([], tmp)
  | l :: ls =>
    if negb (has_char 58 l)
    then Return ([py "`chapters` must be in '章タイトル: 章区切り番号' format"], [])
    else
      let '(k, v) := split_once 58 l in
      let k := strip k in
      let v := strip v in
      if bool_decide (k = []) || bool_decide (v = [])
      then Return ([py "`chapters` must be valid key: value pairs"], [])
      else if bool_decide (k ∈ titles_seen)
      then Return ([py "`chapters` titles must be unique"], [])
      else if negb (_is_int_string rt v)
      then Return ([py "`chapters` values must be integers"], [])
      else
        num ← py_int rt v;
        if bool_decide (num ∈ nums_seen)
        then Return ([py "`chapters` numbers must be unique"], [])
        else chapters_scan rt ls (dict_set tmp k num)
               ({[k]} ∪ titles_seen) ({[num]} ∪ nums_seen)
  end.

(** The locals of [load_if_valid] that outlive the validation of
    [index.md]. *)
Record index : Type := {
  errors : list str;
  title_val : str;
  tags_val : str;
  status_val : str;
  external_links_str : option str;
  ix_has_external_links : bool;
  chapters_dict : option (dict Z);
  ix_has_chapters : bool
}.

(** The errors of [index.md] collected before the [external links] block:
    from [if not data] to the [status] check. *)
Definition field_errors (rt : runtime) (data : dict str) : list str :=
  let errors := [] in
  let errors :=
    match data with
    | [] => errors ++ [py "No H1 headers found. Required headers: title, tags, status, outline"]
    | _ => errors
    end in
  let errors := errors ++
    map (fun key => py "Unexpected header: " ++ key)
      (List.filter (fun key => negb (bool_decide (key ∈ allowed)))
         (dict_keys data)) in
  let errors := errors ++
    map (fun key => py "Missing required header: " ++ key)
      (List.filter (fun key => negb (dict_mem key data)) (set_iter rt required)) in
  let errors := errors ++
    map (fun kv => py "`" ++ fst kv ++ py "` must not be empty")
      (List.filter (fun kv => bool_decide (strip (snd kv) = [])) data) in
  let title_val := dict_get_default (py "title") [] data in
  let errors :=
    if dict_mem (py "title") data
       && (has_char 10 title_val || has_char 13 title_val)
    then errors ++ [py "`title` must be a single line"] else errors in
  let tags_val := dict_get_default (py "tags") [] data in
  let errors :=
    if dict_mem (py "tags") data then
      let tag_lines := stripped_lines tags_val in
      if bool_decide (tag_lines = [])
         || existsb (fun l => negb (startswith l (py "- "))) tag_lines
      then errors ++ [py "`tags` must be a Markdown list with at least one item"]
      else errors
    else errors in
  let status_val := dict_get_default (py "status") [] data in
  let errors :=
    if dict_mem (py "status") data then
      let s := strip status_val in
      if negb (bool_decide (s ∈ VALID_STATUS))
      then errors ++ [py "`status` must be one of " ++ [34] ++ py "連載中" ++ [34]
                      ++ py ", " ++ [34] ++ py "完結済" ++ [34]
                      ++ py ", " ++ [34] ++ py "更新停止" ++ [34]]
      else errors
    else errors in
  errors.

(** The [external links] block: the errors after it,
    [external_links_str] and [has_external_links]. *)
Definition links_block (external_links_val : option str) (errors : list str)
    : list str * option str * bool :=
  match external_links_val with
  | Some v =>
    let lines := stripped_lines v in
    let errors :=
      match lines with
      | [] => errors ++ [py "`external links` must be a Markdown list with at least one item"]
      | _ => errors ++ links_scan lines
      end in
    match errors with
    | [] => (errors, Some v, true)
    | _ => (errors, None, false)
    end
  | None => (errors, None, false)
  end.

(** The [chapters] block: the errors after it, [chapters_dict] and
    [has_chapters]. *)
Definition chapters_block (rt : runtime) (chapters_val : option str)
    (errors : list str) : outcome (list str * option (dict Z) * bool) :=
  match chapters_val with
  | Some v =>
    let lines := stripped_lines v in
    match lines with
    | [] =>
      Return (errors ++ [py "`chapters` must not be empty if provided"],
              None, false)
    | _ =>
      '(errs, tmp) ← chapters_scan rt lines [] ∅ ∅;
      let errors := errors ++ errs in
      match tmp, errors with
      | _ :: _, [] =>
        Return (errors,
                Some (dict_of_items (sorted_by_key Z.ltb snd tmp)),
                true)
      | _, _ => Return (errors, None, false)
      end
    end
  | None => Return (errors, None, false)
  end.

(** The validation of [index.md]: from [if not data] to the end of the
    [chapters] block. *)
Definition check_index (rt : runtime) (data : dict str) : outcome index :=
  let errors := field_errors rt data in
  let title_val := dict_get_default (py "title") [] data in
  let tags_val := dict_get_default (py "tags") [] data in
  let status_val := dict_get_default (py "status") [] data in
  let external_links_val := dict_get (py "external links") data in
  let '(errors, external_links_str, has_external_links) :=
    links_block external_links_val errors in
  let chapters_val := dict_get (py "chapters") data in
  '(errors, chapters_dict, has_chapters) ←
    chapters_block rt chapters_val errors;
  Return {| errors := errors;
            title_val := title_val;
            tags_val := tags_val;
            status_val := status_val;
            external_links_str := external_links_str;
            ix_has_external_links := has_external_links;
            chapters_dict := chapters_dict;
            ix_has_chapters := has_chapters |}.

(** [story_files]: the sorted story documents of the directory. *)
Definition story_files (fs : node) (novel_dir : Path) : outcome (list Path) :=
  fs_entries ← iterdir fs novel_dir;
  Return (sorted path_ltb
    (List.filter (fun f =>
        is_file fs f
        && str_eqb (suffix f) (py ".md")
        && negb (str_eqb (name f) (py "index.md"))
        && negb (startswith (name f) (py "_")))
      fs_entries)).

(** The [for sf in story_files] loop, with its locals [errors] and
    [stories]. *)
Fixpoint load_stories (rt : runtime) (fs : node) (files : list Path)
    (errors : list str) (stories : list Story.t)
    : outcome (list str * list Story.t) :=
  match files with
  | [] => Return (errors, stories)
  | sf :: files' =>
    result ← Story.load_if_valid rt fs sf;
    match result with
    | inl msgs =>
      load_stories rt fs files'
        (errors ++ map (fun msg => path_str rt sf ++ py ": " ++ msg) msgs)
        stories
    | inr s => load_stories rt fs files' errors (stories ++ [s])
    end
  end.

(** The errors of the duplicate-number check. *)
Definition duplicate_errors (rt : runtime) (stories : list Story.t)
    : outcome (list str) :=
  let nums := map Story.number stories in
  for_each (fun nc => n ← py_str_int rt (fst nc);
                  Return (py "Duplicate story number found: " ++ n))
    (List.filter (fun nc => (1 <? snd nc)%nat) (Counter nums)).

Definition no_chapter_message (rt : runtime) (s : Story.t) : outcome str :=
  n ← py_str_int rt (Story.number s);
  Return (py "Story " ++ name (Story.path s) ++ py " (number=" ++ n
          ++ py ") does not belong to any chapter").

(** The errors of the chapter-membership check. *)
Definition chapter_errors (rt : runtime) (has_chapters : bool)
    (chapters_dict : option (dict Z)) (stories : list Story.t)
    : outcome (list str) :=
  match has_chapters, chapters_dict with
  | true, Some ((_ :: _) as bounds) =>
    for_each (no_chapter_message rt)
      (List.filter (fun s =>
          match _find_chapter_for_number (Story.number s) bounds with
          | None => true
          | Some _ => false
          end) stories)
  | _, _ => Return []
  end.

(** The part of [load_if_valid] after the validation of [index.md]. *)
Definition build (rt : runtime) (fs : node) (p : Path) (data : dict str)
    (ix : index) : outcome (list str + t) :=
  let errors := errors ix in
  let novel_dir := parent p in
  files ← story_files fs novel_dir;
  '(errors, stories) ← load_stories rt fs files errors [];
  dups ← duplicate_errors rt stories;
  let errors := errors ++ dups in
  unassigned ← chapter_errors rt (ix_has_chapters ix) (chapters_dict ix) stories;
  let errors := errors ++ unassigned in
  match errors with
  | _ :: _ => Return (inl errors)
  | [] =>
    let stories_sorted := sorted_by_key Z.ltb Story.number stories in
    let total_length := fold_left Z.add (map Story.length stories_sorted) 0 in
    Return (inr {| path := p;
                   title := strip (title_val ix);
                   tags := tags_val ix;
                   status := strip (status_val ix);
                   outline := dict_get_default (py "outline") [] data;
                   external_links := external_links_str ix;
                   chapters := chapters_dict ix;
                   has_external_links := ix_has_external_links ix;
                   has_chapters := ix_has_chapters ix;
                   stories := stories_sorted;
                   num_stories := Z.of_nat (List.length stories_sorted);
                   total_length := total_length |})
  end.

Definition load_if_valid (rt : runtime) (fs : node) (p : Path)
    : outcome (list str + t) :=
  if negb (is_file fs p)
  then Return (inl [py "Novel index file not found: " ++ path_str rt p])
  else
    match md_to_json fs p with
    | Raise (JsonKeyDuplicateError msg) =>
      Return (inl [py "Duplicate header: " ++ msg])
    | Raise e => Raise e
    | Return data =>
      ix ← check_index rt data;
      match errors ix with
      | _ :: _ => Return (inl (errors ix))
      | [] => build rt fs p data ix
      end
    end.

(** [ordered[chapter].append(s)]: [KeyError] when [chapter] is no key. *)
Fixpoint dict_append (ordered : dict (list Story.t)) (chapter : str)
    (s : Story.t) : outcome (dict (list Story.t)) :=
  match ordered with
  | [] => Raise KeyError
  | (k, v) :: ordered' =>
    if str_eqb chapter k then Return ((k, v ++ [s]) :: ordered')
    else rest ← dict_append ordered' chapter s; Return ((k, v) :: rest)
  end.

(** The [for s in self.stories] loop of [get_stories_ordered]. *)
Fixpoint assign_stories (bounds : list (str * Z)) (stories : list Story.t)
    (ordered : dict (list Story.t)) : outcome (dict (list Story.t)) :=
  match stories with
  | [] => Return ordered
  | s :: stories' =>
    match _find_chapter_for_number (Story.number s) bounds with
    | Some chapter =>
      ordered ← dict_append ordered chapter s;
      assign_stories bounds stories' ordered
    | None => assign_stories bounds stories' ordered
    end
  end.

(** The flat tuple of stories ([inl]), or the stories of each chapter
    ([inr]). *)
Definition get_stories_ordered (self : t)
    : outcome (list Story.t + dict (list Story.t)) :=
  match has_chapters self, chapters self with
  | true, Some ((_ :: _) as chapters) =>
    let ordered := dict_of_items (map (fun title => (title, [])) (dict_keys chapters)) in
    let bounds := chapters in
    ordered ← assign_stories bounds (stories self) ordered;
    Return (inr ordered)
  | _, _ => Return (inl (stories self))
  end.

End Novel.

(** ** tools/toppage.py *)

Module TopPage.

Record t : Type := {
  path : Path;
  title : str;
  url : str;
  self_intro : str;
  novels : list Novel.t;
  novel_directories : list Path
}.

Definition _STATUS_ORDER : dict Z :=
  [(py "連載中", 0); (py "完結済", 1); (py "更新停止", 2)].

(** [max(times) if times else 0.0] *)
Definition max_or_zero (times : list Z) : Z :=
  match times with
  | [] => 0
  | t :: ts => fold_left Z.max ts t
  end.

(** The times [novel_last_updated] collects: a file whose time cannot be
    read is passed over. *)
Definition mtimes (fs : node) (n : Novel.t) : list Z :=
  omap (getmtime fs) (Novel.path n :: map Story.path (Novel.stories n)).

Definition novel_last_updated (fs : node) (n : Novel.t) : Z :=
  max_or_zero (mtimes fs n).

Definition sort_key (fs : node) (n : Novel.t) : Z * Z * str :=
  let updated := novel_last_updated fs n in
  let status_order := dict_get_default (Novel.status n) 999 _STATUS_ORDER in
  (- updated, status_order, Novel.title n).

(** [a < b] on the key tuples: decided by the first component in which
    they differ. *)
Definition key_ltb (a b : Z * Z * str) : bool :=
  let '(a1, a2, a3) := a in
  let '(b1, b2, b3) := b in
  if negb (a1 =? b1) then a1 <? b1
  else if negb (a2 =? b2) then a2 <? b2
  else str_ltb a3 b3.

(** The [for child in sorted(private_dir.iterdir())] loop, with its
    locals [errors], [novel_dirs] and [novels]. *)
Fixpoint scan (rt : runtime) (fs : node) (children : list Path)
    (errors : list str) (novel_dirs : list Path) (novels : list Novel.t)
    : outcome (list str * list Path * list Novel.t) :=
  match children with
  | [] => Return (errors, novel_dirs, novels)
  | child :: children' =>
    if negb (is_dir fs child) then scan rt fs children' errors novel_dirs novels
    else
      let index_md := child_path child (py "index.md") in
      if negb (is_file fs index_md)
      then scan rt fs children' errors novel_dirs novels
      else
        novel_result ← Novel.load_if_valid rt fs index_md;
        match novel_result with
        | inl msgs =>
          scan rt fs children'
            (errors ++ map (fun msg => path_str rt index_md ++ py ": " ++ msg) msgs)
            novel_dirs novels
        | inr n =>
          scan rt fs children' errors (novel_dirs ++ [child]) (novels ++ [n])
        end
  end.

Definition load_if_valid (rt : runtime) (fs : node) (p : Path)
    : outcome (list str + t) :=
  if negb (is_file fs p)
  then Return (inl [py "Self intro file not found: " ++ path_str rt p])
  else
    match read_text fs p with
    | Raise UnicodeDecodeError =>
      Return (inl [py "Self intro file is not valid UTF-8: " ++ path_str rt p])
    | Raise e => Raise e
    | Return raw =>
      let errors := [] in
      let errors :=
        if bool_decide (strip raw = [])
        then errors ++ [py "Self intro must not be empty"] else errors in
      match errors with
      | _ :: _ => Return (inl errors)
      | [] =>
        let private_dir := parent p in
        children ← iterdir fs private_dir;
        '(errors, novel_dirs, novels) ←
          scan rt fs (sorted path_ltb children) errors [] [];
        match errors with
        | _ :: _ => Return (inl errors)
        | [] =>
          let novels_sorted := sorted_by_key key_ltb (sort_key fs) novels in
          let novel_dirs_sorted :=
            map snd
              (sorted_by_key key_ltb (fun pair => sort_key fs (fst pair))
                 (zip novels novel_dirs)) in
          let site_title := py "もぐらノベル" in
          let site_url := py "https://www.mogura-novel.com/" in
          Return (inr {| path := p;
                         title := site_title;
                         url := site_url;
                         self_intro := strip raw;
                         novels := novels_sorted;
                         novel_directories := novel_dirs_sorted |})
        end
      end
    end.

End TopPage.

(** ** tools/publish.py: the update history *)

(** [History]: path -> (hash, iso_timestamp). *)
Abbreviation History := (gmap str (str * str)).

(** [update_history_entry]: the timestamp it returns and the store it
    leaves. *)
Definition update_history_entry (rt : runtime) (history : History)
    (key : Path) (new_hash : str) (now_iso : str) : str * History :=
  let key_str := replace_char 92 47 (path_str rt key) in
  let old := history !! key_str in
  match old with
  | Some (old_hash, old_ts) =>
    if negb (str_eqb old_hash new_hash)
    then (now_iso, <[key_str := (new_hash, now_iso)]> history)
    else (old_ts, history)
  | None => (now_iso, <[key_str := (new_hash, now_iso)]> history)
  end.

(** ** A concrete interpreter and concrete documents *)

(** An interpreter on a POSIX system with the default conversion limit,
    sets iterated in the order written, and the digit tables restricted to
    ASCII digits, full-width digits (both decimal) and the superscripts
    two, three and one (digits that are not decimal). *)
Definition sample_runtime : runtime := {|
  isdigit_char c :=
    ((48 <=? c) && (c <=? 57)) || ((65296 <=? c) && (c <=? 65305))
    || (c =? 178) || (c =? 179) || (c =? 185);
  decimal_value c :=
    if (48 <=? c) && (c <=? 57) then Some (c - 48)
    else if (65296 <=? c) && (c <=? 65305) then Some (c - 65296)
    else None;
  int_max_str_digits := 4300;
  set_iter l := l;
  path_sep := 47
|}.

(** A file holding the UTF-8 text [s]. *)
Definition text_file (mtime : Z) (s : string) : node := File mtime (octets s).

(** A well-formed story document. *)
Definition story_doc (title number content : string) : string :=
  ("# title" ++ String "010" (title ++ String "010"
   ("# number" ++ String "010" (number ++ String "010"
   ("# content" ++ String "010" (content ++ String "010" ""))))))%string.

(** A sequence of calls of [update_history_entry] in one run: the store
    is threaded through the calls. *)
Definition record_all (rt : runtime) (calls : list (Path * str * str))
    (history : History) : History :=
  fold_left
    (fun h c => snd (update_history_entry rt h (fst (fst c)) (snd (fst c)) (snd c)))
    calls history.

(** The key [update_history_entry] uses for [key]. *)
Definition history_key (rt : runtime) (key : Path) : str :=
  replace_char 92 47 (path_str rt key).

(** ** The vocabulary of the properties *)

(** A [set] is iterated as a permutation of its elements. *)
Definition set_iter_faithful (rt : runtime) : Prop :=
  forall l, Permutation (set_iter rt l) l.

(** A decimal digit character has a value from 0 to 9. *)
Definition decimal_range (rt : runtime) : Prop :=
  forall c d, decimal_value rt c = Some d -> 0 <= d <= 9.

(** The interpreter assumptions under which the validators are studied. *)
Definition runtime_ok (rt : runtime) : Prop :=
  set_iter_faithful rt /\ decimal_range rt.

(** A line of the document is a top-level marker. *)
Definition is_marker (raw_line : str) : bool :=
  startswith (lstrip (rstrip_char 10 raw_line)) (py "# ").

(** The section name a marker line carries. *)
Definition marker_name (raw_line : str) : str :=
  strip (drop 2 (lstrip (rstrip_char 10 raw_line))).

(** The names of the markers of a document, in order. *)
Definition marker_names (lines : list str) : list str :=
  map marker_name (List.filter is_marker lines).

(** The marker names the scan has seen: the flushed keys and the open one. *)
Definition seen (result : dict str) (current_key : option str) : list str :=
  dict_keys result ++ match current_key with Some ck => [ck] | None => [] end.

(** [a] does not come after [b]: [b < a] is false. *)
Definition not_after {A : Type} (ltb : A -> A -> bool) (a b : A) : Prop :=
  ltb b a = false.

(** [a <= b] on strings. *)
Definition str_le (a b : str) : Prop := str_ltb b a = false.

(** [a] has a boundary not above that of [b]. *)
Definition boundary_le (a b : str * Z) : Prop := snd a <= snd b.

(** [a] has a number not above that of [b]. *)
Definition number_le (a b : Story.t) : Prop := Story.number a <= Story.number b.

(** Every boundary of [bounds] is below [number]. *)
Definition exceeds_all (number : Z) (bounds : list (str * Z)) : Prop :=
  Forall (fun tb => snd tb < number) bounds.

(** [title] is the first chapter of [bounds] whose boundary is at least
    [number]. *)
Definition first_at_least (number : Z) (bounds : list (str * Z)) (title : str) : Prop :=
  exists pre boundary post,
    bounds = pre ++ (title, boundary) :: post
    /\ exceeds_all number pre /\ number <= boundary.

(** The message of the chapter check for [s]. *)
Definition no_chapter_text (s : Story.t) : str :=
  py "Story " ++ name (Story.path s) ++ py " (number="
  ++ repr_int (Story.number s) ++ py ") does not belong to any chapter".

(** [s] belongs to the chapter [title] under [bounds]. *)
Definition in_chapter (bounds : list (str * Z)) (title : str) (s : Story.t) : bool :=
  bool_decide (Novel._find_chapter_for_number (Story.number s) bounds = Some title).

(** The rank of the status of [n]. *)
Definition status_rank (n : Novel.t) : Z :=
  dict_get_default (Novel.status n) 999 TopPage._STATUS_ORDER.

(** [a] may be displayed before [b]: it was updated later; or at the same
    time and its status ranks lower; or its status ranks the same and its
    title is not greater. *)
Definition displayed_before (fs : node) (a b : Novel.t) : Prop :=
  TopPage.novel_last_updated fs b < TopPage.novel_last_updated fs a
  \/ (TopPage.novel_last_updated fs a = TopPage.novel_last_updated fs b
      /\ (status_rank a < status_rank b
          \/ (status_rank a = status_rank b
              /\ str_le (Novel.title a) (Novel.title b)))).

(** [a] and [b] tie on all three keys. *)
Definition tied (fs : node) (a b : Novel.t) : bool :=
  bool_decide (TopPage.sort_key fs a = TopPage.sort_key fs b).

(** Eight words of thirty-two bits. *)
Definition is_256_bit (st : digest_state) : Prop :=
  let '(a, b, c, d, e, f, g, h) := st in
  Forall (fun w => 0 <= w < 4294967296) [a; b; c; d; e; f; g; h].

(** Every character of [s] can be encoded. *)
Definition encodable (s : str) : Prop := Forall (fun c => is_scalar c = true) s.

(** Every value of [d] is encodable. *)
Definition values_encodable (d : dict str) : Prop :=
  Forall (fun kv => encodable (snd kv)) d.

(** A well-formed index document without optional sections. *)
Definition index_doc (title status : string) : string :=
  ("# title" ++ String "010" (title ++ String "010"
   ("# tags" ++ String "010" ("- tag" ++ String "010"
   ("# status" ++ String "010" (status ++ String "010"
   ("# outline" ++ String "010" ("An outline." ++ String "010" ""))))))))%string.

(** A novel directory with chapters A:1, C:20, B:10 (in this order in the
    document) and two stories, numbered 21 and 5. *)
Definition chaptered_novel : node :=
  Dir [(py "n1", Dir [
    (py "index.md", text_file 5 "# title
T
# tags
- a
# status
連載中
# outline
O
# chapters
A: 1
C: 20
B: 10
");
    (py "b.md", text_file 7 (story_doc "S5" "5" "hello"));
    (py "a.md", text_file 6 (story_doc "S21" "21" "hello world"));
    (py "_x.md", text_file 6 "junk")])].

(** A novel directory with chapters A:1, C:20, B:10 and stories numbered
    12, 5 and 1, in the order of their file names. *)
Definition chaptered_valid : node :=
  Dir [(py "n1", Dir [
    (py "index.md", text_file 5 "# title
T
# tags
- a
# status
連載中
# outline
O
# chapters
A: 1
C: 20
B: 10
");
    (py "c.md", text_file 8 (story_doc "S1" "1" "x"));
    (py "b.md", text_file 7 (story_doc "S5" "5" "hello"));
    (py "a.md", text_file 6 (story_doc "S12" "12" "hello world"))])].

(** A site with three novels: Alpha (連載中) updated at 30, Beta (完結済)
    and Gamma (連載中) both updated at 20. *)
Definition sample_site : node :=
  Dir [(py "self_intro.md", text_file 1 "Hello.");
       (py "x", Dir [(py "index.md", text_file 10 (index_doc "Alpha" "連載中"));
                     (py "1.md", text_file 30 (story_doc "One" "1" "text"))]);
       (py "y", Dir [(py "index.md", text_file 20 (index_doc "Beta" "完結済"));
                     (py "1.md", text_file 5 (story_doc "One" "1" "text"))]);
       (py "z", Dir [(py "index.md", text_file 20 (index_doc "Gamma" "連載中"));
                     (py "1.md", text_file 7 (story_doc "One" "1" "text"))])].

(** ** Vocabulary of the further properties *)

(** The lines of a section body: the lines up to the next marker, each
    without its line feed. *)
Fixpoint body (lines : list str) : list str :=
  match lines with
  | [] => []
  | l :: ls => if is_marker l then [] else rstrip_char 10 l :: body ls
  end.

(** The sections of a document: for each marker, in order, its name and
    the lines up to the next marker joined by line feeds. *)
Fixpoint sections (lines : list str) : dict str :=
  match lines with
  | [] => []
  | l :: ls =>
    if is_marker l then (marker_name l, join [10] (body ls)) :: sections ls
    else sections ls
  end.

(** The sections [data] of a story document pass every rule of the story
    validator: the three sections and no other, none blank, a one-line
    title and a number that is an integer string. *)
Definition well_formed_story (rt : runtime) (data : dict str) : Prop :=
  (forall k, In k (dict_keys data) -> In k Story.allowed_keys)
  /\ (forall k, In k Story.allowed_keys -> dict_mem k data = true)
  /\ strip (dict_get_default (py "title") [] data) <> []
  /\ strip (dict_get_default (py "number") [] data) <> []
  /\ strip (dict_get_default (py "content") [] data) <> []
  /\ has_char 10 (dict_get_default (py "title") [] data) = false
  /\ has_char 13 (dict_get_default (py "title") [] data) = false
  /\ Story._is_int_string rt (strip (dict_get_default (py "number") [] data)) = true.

(** The ASCII digits are decimal digits with their usual values. *)
Definition ascii_digits (rt : runtime) : Prop :=
  forall d, 0 <= d <= 9 ->
    isdigit_char rt (48 + d) = true /\ decimal_value rt (48 + d) = Some d.

(** The text [Story.hash] encodes and digests: its local [base]. *)
Definition hash_input (s : Story.t) : str :=
  Story.title s ++ [10] ++ repr_int (Story.number s) ++ [10] ++ Story.content s.

(** The count a counter holds for [y]: that of its first entry for [y],
    or zero. *)
Fixpoint tally (c : list (Z * nat)) (y : Z) : nat :=
  match c with
  | [] => O
  | (z, k) :: c' => if y =? z then k else tally c' y
  end.

(** [a] has a number below that of [b]. *)
Definition number_lt (a b : Story.t) : Prop := Story.number a < Story.number b.

(** [a] has a boundary below that of [b]. *)
Definition boundary_lt (a b : str * Z) : Prop := snd a < snd b.

(** The message of the duplicate check for the number [n]. *)
Definition duplicate_text (n : Z) : str :=
  py "Duplicate story number found: " ++ repr_int n.

(** A novel directory whose two stories both have the number 1. *)
Definition duplicated_novel : node :=
  Dir [(py "n1", Dir [
    (py "index.md", text_file 5 (index_doc "T" "連載中"));
    (py "a.md", text_file 6 (story_doc "First" "1" "one"));
    (py "b.md", text_file 7 (story_doc "Second" "1" "two"))])].

(** [f] is a story document for [Novel.load_if_valid]: a file named
    [*.md], other than [index.md], whose name does not begin with an
    underscore. *)
Definition story_document (fs : node) (f : Path) : bool :=
  is_file fs f
  && str_eqb (suffix f) (py ".md")
  && negb (str_eqb (name f) (py "index.md"))
  && negb (startswith (name f) (py "_")).

(** [child] is a novel directory for [TopPage.load_if_valid]: a directory
    that holds a file [index.md]. *)
Definition novel_directory (fs : node) (child : Path) : bool :=
  is_dir fs child && is_file fs (child_path child (py "index.md")).

(** The timestamps a sequence of calls of [update_history_entry] returns,
    the store being threaded through the calls as in [record_all]. *)
Fixpoint stamps (rt : runtime) (calls : list (Path * str * str))
    (history : History) : list str :=
  match calls with
  | [] => []
  | c :: rest =>
    let r := update_history_entry rt history (fst (fst c)) (snd (fst c)) (snd c) in
    fst r :: stamps rt rest (snd r)
  end.

(** The keys a sequence of calls uses. *)
Definition call_keys (rt : runtime) (calls : list (Path * str * str)) : list str :=
  map (fun c => history_key rt (fst (fst c))) calls.

(** The same paths with the same hashes, at any times. *)
Definition same_hashes (calls calls' : list (Path * str * str)) : Prop :=
  Forall2 (fun c c' => fst c = fst c') calls calls'.

(** ** tools/md.py: ruby annotations *)

(** The longest prefix of [s] whose characters satisfy [p], and the rest. *)
Fixpoint span (p : Z -> bool) (s : str) : str * str :=
  match s with
  | [] => ([], [])
  | c :: s' =>
    if p c then let '(run, rest) := span p s' in (c :: run, rest)
    else ([], s)
  end.

(** [replace_ruby] on the two groups of a match. *)
Definition replace_ruby (base_text annotation : str) : str :=
  py "<ruby>" ++ base_text ++ py "<rt>" ++ annotation ++ py "</rt></ruby>".

(** The match of [\|([^<|]+)<([^>]+)>] at the start of [s]: its two groups
    and the text after it. Each class is greedy and is followed by a
    character outside it, so the longest run is the only one that can
    match; a class matches line breaks as any other character. *)
Definition ruby_match (s : str) : option (str * str * str) :=
  match s with
  | c :: s1 =>
    if c =? 124 then
      let '(base_text, s2) := span (fun c => negb ((c =? 60) || (c =? 124))) s1 in
      match base_text, s2 with
      | _ :: _, c2 :: s3 =>
        if c2 =? 60 then
          let '(annotation, s4) := span (fun c => negb (c =? 62)) s3 in
          match annotation, s4 with
          | _ :: _, c4 :: s5 =>
            if c4 =? 62 then Some (base_text, annotation, s5) else None
          | _, _ => None
          end
        else None
      | _, _ => None
      end
    else None
  | [] => None
  end.

(** [re.sub(pattern, replace_ruby, s)]: the matches from left to right,
    none overlapping another; [fuel] bounds the number of steps. *)
Fixpoint ruby_sub (fuel : nat) (s : str) : str :=
  match fuel with
  | O => s
  | S fuel' =>
    match ruby_match s with
    | Some (base_text, annotation, rest) =>
      replace_ruby base_text annotation ++ ruby_sub fuel' rest
    | None =>
      match s with
      | [] => []
      | c :: s' => c :: ruby_sub fuel' s'
      end
    end
  end.

(** [to_html_ruby(content)]; a step consumes a character at least, so the
    length of the content is fuel enough (lemma [to_html_ruby_step]). *)
Definition to_html_ruby (content : str) : str :=
  ruby_sub (List.length content) content.

(** ** tools/publish.py: escaping, tags and badges *)

(** [s.replace(x, rep)] for a one-character [x]. *)
Definition replace_with (x : Z) (rep : str) (s : str) : str :=
  flat_map (fun c => if c =? x then rep else [c]) s.

(** [html_escape(s)], that is [html.escape(s, quote=True)]: five
    replacements one after the other, the ampersand first. *)
Definition html_escape (s : str) : str :=
  let s := replace_with 38 (py "&amp;") s in
  let s := replace_with 60 (py "&lt;") s in
  let s := replace_with 62 (py "&gt;") s in
  let s := replace_with 34 (py "&quot;") s in
  let s := replace_with 39 (py "&#x27;") s in
  s.

(** The [for] loop of [parse_tags]: the tags it appends. *)
Fixpoint tags_scan (lines : list str) : list str :=
  match lines with
  | [] => []
  | line :: lines' =>
    let line := strip line in
    if startswith line (py "- ")
    then
      let tag := strip (skipn 2 line) in
      if negb (bool_decide (tag = [])) then tag :: tags_scan lines'
      else tags_scan lines'
    else tags_scan lines'
  end.

(** [parse_tags(tags_md)] *)
Definition parse_tags (tags_md : str) : str :=
  join (py " | ") (tags_scan (splitlines tags_md)).

(** [render_status_badge(status)] *)
Definition render_status_badge (status : str) : str :=
  let status := strip status in
  let cls := py "status-other" in
  let cls :=
    if str_eqb status (py "連載中") then py "status-ongoing"
    else if str_eqb status (py "完結済") then py "status-complete"
    else if str_eqb status (py "更新停止") then py "status-paused"
    else cls in
  py "<span class=" ++ [34] ++ py "status-badge " ++ cls ++ [34] ++ py ">"
  ++ html_escape status ++ py "</span>".

(** The class of the badge of each status the validator accepts. *)
Definition badge_classes : list (str * str) :=
  [(py "連載中", py "status-ongoing");
   (py "完結済", py "status-complete");
   (py "更新停止", py "status-paused")].

(** The characters that open or close a tag or an attribute value. *)
Definition markup_chars : list Z := [60; 62; 34; 39].

(** A line that is not blank. *)
Definition not_blank (l : str) : bool := negb (bool_decide (l = [])).

(** The text after a CR: an LF that follows it belongs to the same line
    boundary. *)
Definition after_cr (s : str) : str :=
  match s with
  | d :: s' => if d =? 10 then s' else s
  | [] => []
  end.

(** The lines that are left once each is stripped and the blank ones are
    dropped. *)
Definition kept (lines : list str) : list str :=
  List.filter not_blank (map strip lines).

(** What one child of the private directory adds to the errors of
    [TopPage.load_if_valid]: the messages of its novel, each after the path
    of its [index.md], when it is a novel directory whose novel is not
    valid. *)
Definition novel_report (rt : runtime) (fs : node) (child : Path) : list str :=
  if novel_directory fs child then
    let index_md := child_path child (py "index.md") in
    match Novel.load_if_valid rt fs index_md with
    | Return (inl msgs) => map (fun msg => path_str rt index_md ++ py ": " ++ msg) msgs
    | _ => []
    end
  else [].

(** A site whose only novel has two stories with the number 1. *)
Definition broken_site : node :=
  Dir [(py "self_intro.md", text_file 1 "Hello.");
       (py "n1", Dir [
         (py "index.md", text_file 5 (index_doc "T" "連載中"));
         (py "a.md", text_file 6 (story_doc "First" "1" "one"));
         (py "b.md", text_file 7 (story_doc "Second" "1" "two"))])].

(** The stripped text of the [number] section. *)
Definition number_text (data : dict str) : str :=
  strip (dict_get_default (py "number") [] data).

(** * Properties *)

(** ** The update history *)

Lemma str_eqb_eq (a b : str) : str_eqb a b = true <-> a = b.
Proof. unfold str_eqb. apply bool_decide_eq_true. Qed.

Lemma str_eqb_refl (a : str) : str_eqb a a = true.
Proof. by apply str_eqb_eq. Qed.

Lemma str_eqb_neq (a b : str) : str_eqb a b = false <-> a <> b.
Proof. unfold str_eqb. apply bool_decide_eq_false. Qed.

Lemma update_absent (rt : runtime) (history : History)
    (key : Path) (h now : str) :
  history !! history_key rt key = None ->
  update_history_entry rt history key h now
  = (now, <[history_key rt key := (h, now)]> history).
Proof.
  intros Hk. unfold update_history_entry. fold (history_key rt key).
  by rewrite Hk.
Qed.

Lemma update_changed (rt : runtime) (history : History)
    (key : Path) (h h0 ts0 now : str) :
  history !! history_key rt key = Some (h0, ts0) -> h0 <> h ->
  update_history_entry rt history key h now
  = (now, <[history_key rt key := (h, now)]> history).
Proof.
  intros Hk Hne. unfold update_history_entry. fold (history_key rt key).
  rewrite Hk. apply str_eqb_neq in Hne. by rewrite Hne.
Qed.

Lemma update_same (rt : runtime) (history : History)
    (key : Path) (h ts0 now : str) :
  history !! history_key rt key = Some (h, ts0) ->
  update_history_entry rt history key h now = (ts0, history).
Proof.
  intros Hk. unfold update_history_entry. fold (history_key rt key).
  rewrite Hk. by rewrite str_eqb_refl.
Qed.

(** After any call the entry of the key holds the hash just recorded and
    the timestamp just returned. *)
Lemma update_lookup (rt : runtime) (history : History)
    (key : Path) (h now : str) :
  snd (update_history_entry rt history key h now) !! history_key rt key
  = Some (h, fst (update_history_entry rt history key h now)).
Proof.
  destruct (history !! history_key rt key) as [[h0 ts0]|] eqn:Hk.
  - destruct (decide (h0 = h)) as [->|Hne].
    + by rewrite (update_same _ _ _ _ _ _ Hk).
    + rewrite (update_changed _ _ _ _ _ _ _ Hk Hne). simpl.
      apply lookup_insert_eq.
  - rewrite (update_absent _ _ _ _ _ Hk). simpl. apply lookup_insert_eq.
Qed.

(** C2. [update_history_entry] writes [(hash, now)] under the key and
    returns [now] when the key is absent or holds another hash; otherwise
    it leaves the store as it is and returns the stored timestamp. Hence a
    second call with the same hash returns the timestamp of the first and
    changes nothing, and a call with another hash returns its own [now]. *)
Theorem update_history_entry_record (rt : runtime) (history : History)
    (key : Path) (h now : str) :
  let k := history_key rt key in
  (history !! k = None \/ (exists h0 ts0, history !! k = Some (h0, ts0) /\ h0 <> h) ->
     update_history_entry rt history key h now = (now, <[k := (h, now)]> history))
  /\ (forall ts0, history !! k = Some (h, ts0) ->
        update_history_entry rt history key h now = (ts0, history))
  /\ (forall now',
        let '(ts1, history1) := update_history_entry rt history key h now in
        update_history_entry rt history1 key h now' = (ts1, history1))
  /\ (forall h' now', h' <> h ->
        let '(_, history1) := update_history_entry rt history key h now in
        fst (update_history_entry rt history1 key h' now') = now').
Proof.
  intros k. repeat split.
  - intros [Hk | (h0 & ts0 & Hk & Hne)].
    + by apply update_absent.
    + by eapply update_changed.
  - intros ts0 Hk. by apply update_same.
  - intros now'. pose proof (update_lookup rt history key h now) as Hl.
    destruct (update_history_entry rt history key h now) as [ts1 history1].
    simpl in Hl. by apply update_same.
  - intros h' now' Hne. pose proof (update_lookup rt history key h now) as Hl.
    destruct (update_history_entry rt history key h now) as [ts1 history1].
    simpl in Hl. erewrite update_changed; [done | exact Hl | congruence].
Qed.

Lemma update_history_entry_record_witness :
  update_history_entry sample_runtime ∅ [py "n1"; py "index.md"] (py "ab12") (py "2025-01-01T00:00:00+00:00")
  = (py "2025-01-01T00:00:00+00:00",
     <[py "n1/index.md" := (py "ab12", py "2025-01-01T00:00:00+00:00")]> ∅).
Proof.
  apply (update_history_entry_record sample_runtime ∅ [py "n1"; py "index.md"]).
  left. apply lookup_empty.
Defined.

Lemma replace_char_no_old (x y : Z) (s : str) : x <> y -> ~ In x (replace_char x y s).
Proof.
  intros Hxy Hin. unfold replace_char in Hin. apply in_map_iff in Hin.
  destruct Hin as (c & Hc & _). destruct (Z.eqb_spec c x); congruence.
Qed.

Lemma replace_char_app x y (a b : str) :
  replace_char x y (a ++ b) = replace_char x y a ++ replace_char x y b.
Proof. apply map_app. Qed.

Lemma replace_char_join x y (sep : str) (parts : list str) :
  replace_char x y (join sep parts)
  = join (replace_char x y sep) (map (replace_char x y) parts).
Proof.
  induction parts as [|p ps IH]; [done|].
  destruct ps as [|q ps]; [done|].
  change (join sep (p :: q :: ps)) with (p ++ sep ++ join sep (q :: ps)).
  rewrite !replace_char_app, IH. done.
Qed.

Lemma update_dom (rt : runtime) (history : History)
    (key : Path) (h now k : str) :
  k ∈ dom (snd (update_history_entry rt history key h now)) ->
  k ∈ dom history \/ k = history_key rt key.
Proof.
  unfold update_history_entry. fold (history_key rt key).
  destruct (history !! history_key rt key) as [[h0 ts0]|];
    [destruct (negb (str_eqb h0 h))|]; simpl; try tauto;
    rewrite dom_insert_L, elem_of_union, elem_of_singleton; tauto.
Qed.

Lemma record_all_dom (rt : runtime) calls : forall (history : History) (k : str),
  k ∈ dom (record_all rt calls history) -> k ∈ dom history \/ ~ In 92 k.
Proof.
  induction calls as [|[[key h] now] calls IH]; intros history k Hk; [by left|].
  simpl in Hk. apply IH in Hk. destruct Hk as [Hk | Hk]; [|by right].
  apply update_dom in Hk. destruct Hk as [Hk | ->]; [by left|].
  right. by apply replace_char_no_old.
Qed.

(** C10. [update_history_entry] looks up and inserts under the string of
    the path with every backslash replaced by a slash: the key has no
    backslash; two paths whose strings differ only in the separator (in
    particular one path printed with either separator) address the same
    entry; and every key in the store after any sequence of calls was
    already there before the run or has no backslash. *)
Theorem update_history_entry_key_normalised (rt : runtime) (history : History)
    (key : Path) (h now : str) :
  ~ In 92 (history_key rt key)
  /\ (snd (update_history_entry rt history key h now)) !! history_key rt key
     = Some (h, fst (update_history_entry rt history key h now))
  /\ (forall rt' key', history_key rt' key' = history_key rt key ->
        update_history_entry rt' history key' h now
        = update_history_entry rt history key h now)
  /\ (forall rt', path_sep rt = 92 -> path_sep rt' = 47 ->
        history_key rt' key = history_key rt key)
  /\ (forall calls k, k ∈ dom (record_all rt calls history) ->
        k ∈ dom history \/ ~ In 92 k).
Proof.
  split; [by apply replace_char_no_old|].
  split; [apply update_lookup|].
  split.
  { intros rt' key' Hk. unfold update_history_entry.
    fold (history_key rt' key') (history_key rt key). by rewrite Hk. }
  split.
  { intros rt' Hs Hs'. unfold history_key, path_str.
    destruct key as [|c key]; [done|].
    rewrite !replace_char_join, Hs, Hs'. done. }
  intros calls k. apply record_all_dom.
Qed.

Lemma update_history_entry_key_normalised_witness :
  update_history_entry sample_runtime ∅ [py "n1\1.md"] (py "ab") (py "t")
  = update_history_entry sample_runtime ∅ [py "n1"; py "1.md"] (py "ab") (py "t").
Proof.
  apply (update_history_entry_key_normalised sample_runtime ∅ [py "n1"; py "1.md"]).
  reflexivity.
Defined.

(** ** Dictionaries *)

Lemma dict_mem_In {V} (k : str) (d : dict V) :
  dict_mem k d = true <-> In k (dict_keys d).
Proof.
  unfold dict_mem. induction d as [|[k' v] d IH]; simpl.
  - split; [discriminate | tauto].
  - destruct (str_eqb k k') eqn:E.
    + apply str_eqb_eq in E. subst. tauto.
    + apply str_eqb_neq in E. rewrite IH. split; [tauto|].
      intros [?|?]; [congruence | done].
Qed.

Lemma dict_get_None {V} (k : str) (d : dict V) :
  dict_get k d = None <-> ~ In k (dict_keys d).
Proof.
  rewrite <- dict_mem_In. unfold dict_mem.
  destruct (dict_get k d); split; try done; intros H; by destruct H.
Qed.

Lemma dict_set_new {V} (d : dict V) (k : str) (v : V) :
  ~ In k (dict_keys d) -> dict_set d k v = d ++ [(k, v)].
Proof.
  induction d as [|[k' v'] d IH]; simpl; intros Hn; [done|].
  destruct (str_eqb k k') eqn:E.
  - apply str_eqb_eq in E. subst. destruct Hn. by left.
  - rewrite IH; [done|]. intros ?. apply Hn. by right.
Qed.

Lemma dict_keys_set {V} (d : dict V) (k : str) (v : V) (x : str) :
  In x (dict_keys (dict_set d k v)) <-> In x (dict_keys d) \/ x = k.
Proof.
  induction d as [|[k' v'] d IH]; simpl.
  - split; [intros [?|[]]; auto | intros [[]|?]; auto].
  - destruct (str_eqb k k') eqn:E; simpl.
    + apply str_eqb_eq in E. subst. split; [tauto|]. intros [?|?]; auto.
    + rewrite IH. tauto.
Qed.

Lemma dict_set_NoDup {V} (d : dict V) (k : str) (v : V) :
  NoDup (dict_keys d) -> NoDup (dict_keys (dict_set d k v)).
Proof.
  induction d as [|[k' v'] d IH]; simpl; intros Hnd.
  - constructor; [by intros ?%elem_of_nil | constructor].
  - apply NoDup_cons in Hnd as [Hk' Hnd].
    destruct (str_eqb k k') eqn:E; simpl.
    + by apply NoDup_cons.
    + apply NoDup_cons. split; [|by apply IH].
      rewrite list_elem_of_In, dict_keys_set. rewrite list_elem_of_In in Hk'.
      apply str_eqb_neq in E. intros [?|?]; [done | congruence].
Qed.

(** ** The section parser *)

Lemma md_scan_plain (raw_line : str) rest result current_key buffer :
  is_marker raw_line = false ->
  md_scan (raw_line :: rest) result current_key buffer
  = md_scan rest result current_key
      (match current_key with
       | Some _ => buffer ++ [rstrip_char 10 raw_line]
       | None => buffer
       end).
Proof.
  unfold is_marker. intros H. simpl. rewrite H. by destruct current_key.
Qed.

Lemma md_scan_marker (raw_line : str) rest result current_key buffer :
  is_marker raw_line = true ->
  md_scan (raw_line :: rest) result current_key buffer
  = let result' :=
      match current_key with
      | Some ck => dict_set result ck (join [10] buffer)
      | None => result
      end in
    if dict_mem (marker_name raw_line) result'
    then Raise (JsonKeyDuplicateError
                  (py "Duplicate key found: " ++ marker_name raw_line))
    else md_scan rest result' (Some (marker_name raw_line))
           (match current_key with Some _ => [] | None => buffer end).
Proof.
  unfold is_marker, marker_name. intros H. simpl. rewrite H.
  by destruct current_key.
Qed.

Lemma seen_flush result current_key buffer (k : str) :
  In k (dict_keys (match current_key with
                   | Some ck => dict_set result ck (join [10] buffer)
                   | None => result
                   end))
  <-> In k (seen result current_key).
Proof.
  unfold seen. destruct current_key as [ck|].
  - rewrite dict_keys_set, in_app_iff. simpl. intuition congruence.
  - by rewrite app_nil_r.
Qed.

(** A marker whose name was seen raises at once, whatever follows. *)
Lemma md_scan_repeat (raw_line : str) rest result current_key buffer :
  is_marker raw_line = true ->
  In (marker_name raw_line) (seen result current_key) ->
  md_scan (raw_line :: rest) result current_key buffer
  = Raise (JsonKeyDuplicateError
             (py "Duplicate key found: " ++ marker_name raw_line)).
Proof.
  intros Hm Hin. rewrite md_scan_marker by done. cbv zeta.
  apply seen_flush with (buffer := buffer) in Hin.
  apply dict_mem_In in Hin. by rewrite Hin.
Qed.

(** Lines whose markers are new and pairwise distinct are scanned without
    an exception, and the names seen grow by exactly their names. *)
Lemma md_scan_distinct (pre : list str) : forall result current_key buffer,
  NoDup (marker_names pre) ->
  (forall k, In k (marker_names pre) -> ~ In k (seen result current_key)) ->
  exists result' current_key' buffer',
    (forall rest, md_scan (pre ++ rest) result current_key buffer
                  = md_scan rest result' current_key' buffer')
    /\ (forall k, In k (seen result' current_key')
                  <-> In k (seen result current_key) \/ In k (marker_names pre)).
Proof.
  induction pre as [|l pre IH]; intros result ck buffer Hnd Hnew.
  - exists result, ck, buffer. split; [done|]. simpl. tauto.
  - unfold marker_names in *. simpl in Hnd, Hnew.
    destruct (is_marker l) eqn:Hm.
    + simpl in Hnd, Hnew. apply NoDup_cons in Hnd as [Hl Hnd].
      rewrite list_elem_of_In in Hl.
      set (result1 := match ck with
                      | Some c => dict_set result c (join [10] buffer)
                      | None => result
                      end).
      set (buffer1 := match ck with Some _ => [] | None => buffer end).
      destruct (IH result1 (Some (marker_name l)) buffer1 Hnd)
        as (r' & ck' & b' & Hrun & Hseen).
      { intros k Hk. unfold seen. rewrite in_app_iff. simpl.
        unfold result1. rewrite seen_flush.
        intros [Hs|[<-|[]]]; [|done]. eapply Hnew; [right; exact Hk | exact Hs]. }
      exists r', ck', b'. split.
      * intros rest. simpl app. rewrite md_scan_marker by done. cbv zeta.
        fold result1 buffer1.
        destruct (dict_mem (marker_name l) result1) eqn:Hd; [|apply Hrun].
        apply dict_mem_In in Hd. unfold result1 in Hd.
        apply seen_flush in Hd. exfalso. eapply Hnew; [left; reflexivity | exact Hd].
      * intros k. rewrite Hseen. simpl. rewrite Hm. simpl.
        unfold seen at 1. rewrite in_app_iff. unfold result1.
        rewrite seen_flush. simpl. intuition congruence.
    + destruct (IH result ck
                  (match ck with
                   | Some _ => buffer ++ [rstrip_char 10 l]
                   | None => buffer
                   end) Hnd Hnew) as (r' & ck' & b' & Hrun & Hseen).
      exists r', ck', b'. split.
      * intros rest. simpl app. rewrite md_scan_plain by done. apply Hrun.
      * intros k. rewrite Hseen. simpl. by rewrite Hm.
Qed.

Lemma marker_names_app (a b : list str) :
  marker_names (a ++ b) = marker_names a ++ marker_names b.
Proof. unfold marker_names. by rewrite List.filter_app, List.map_app. Qed.

(** A document with a repeated marker name has a first marker that repeats
    an earlier name. *)
Lemma first_repeat (lines : list str) :
  ~ NoDup (marker_names lines) ->
  exists pre l post,
    lines = pre ++ l :: post /\ is_marker l = true
    /\ NoDup (marker_names pre) /\ In (marker_name l) (marker_names pre).
Proof.
  induction lines as [|x lines IH] using rev_ind; intros Hdup.
  - destruct Hdup. constructor.
  - destruct (decide (NoDup (marker_names lines))) as [Hnd | Hnd].
    + destruct (is_marker x) eqn:Hm.
      * destruct (decide (marker_name x ∈ marker_names lines)) as [Hin | Hin].
        -- exists lines, x, []. rewrite list_elem_of_In in Hin. done.
        -- destruct Hdup. rewrite marker_names_app. unfold marker_names at 2.
           simpl. rewrite Hm. simpl. apply NoDup_app. split; [done|].
           split; [|apply NoDup_singleton].
           intros k Hk ->%list_elem_of_singleton. done.
      * destruct Hdup. rewrite marker_names_app. unfold marker_names at 2.
        simpl. rewrite Hm. simpl. by rewrite app_nil_r.
    + destruct (IH Hnd) as (pre & l & post & -> & Hm & Hpre & Hin).
      exists pre, l, (post ++ [x]). by rewrite <- app_assoc.
Qed.

(** C8. A document in which a marker name occurs twice makes [md_to_json]
    raise [JsonKeyDuplicateError]: the scan stops at the first marker whose
    name was already used by an earlier marker, the message names that key,
    and nothing after that line is looked at (any other tail gives the same
    exception). *)
Theorem md_to_json_duplicate (fs : node) (path : Path) (text : str) :
  read_text fs path = Return text ->
  ~ NoDup (marker_names (readlines text)) ->
  exists pre l post,
    readlines text = pre ++ l :: post
    /\ is_marker l = true
    /\ NoDup (marker_names pre)
    /\ In (marker_name l) (marker_names pre)
    /\ md_to_json fs path
       = Raise (JsonKeyDuplicateError (py "Duplicate key found: " ++ marker_name l))
    /\ forall post',
         md_scan (pre ++ l :: post') [] None []
         = Raise (JsonKeyDuplicateError (py "Duplicate key found: " ++ marker_name l)).
Proof.
  intros Hread Hdup.
  destruct (first_repeat _ Hdup) as (pre & l & post & Hlines & Hm & Hnd & Hin).
  exists pre, l, post. repeat split; try done.
  - unfold md_to_json. rewrite Hread. simpl. unfold md_to_json_text.
    rewrite Hlines.
    destruct (md_scan_distinct pre [] None [] Hnd) as (r & ck & b & Hrun & Hseen).
    { intros k _ []. }
    rewrite Hrun. apply md_scan_repeat; [done|]. apply Hseen. by right.
  - intros post'.
    destruct (md_scan_distinct pre [] None [] Hnd) as (r & ck & b & Hrun & Hseen).
    { intros k _ []. }
    rewrite Hrun. apply md_scan_repeat; [done|]. apply Hseen. by right.
Qed.

Lemma md_to_json_duplicate_witness :
  exists pre l post,
    readlines (py "# key1
value1
# key1
value2
") = pre ++ l :: post
    /\ is_marker l = true
    /\ NoDup (marker_names pre)
    /\ In (marker_name l) (marker_names pre)
    /\ md_to_json (Dir [(py "tmp.md", text_file 0 "# key1
value1
# key1
value2
")]) [py "tmp.md"]
       = Raise (JsonKeyDuplicateError (py "Duplicate key found: " ++ marker_name l))
    /\ forall post',
         md_scan (pre ++ l :: post') [] None []
         = Raise (JsonKeyDuplicateError (py "Duplicate key found: " ++ marker_name l)).
Proof.
  apply md_to_json_duplicate; [reflexivity|].
  vm_compute. intros H. apply NoDup_cons in H as [H _]. apply H. by left.
Defined.

(** Lines without a marker only feed the buffer of the open section. *)
Lemma md_scan_no_marker (pre : list str) : forall rest result current_key buffer,
  (forall l, In l pre -> is_marker l = false) ->
  md_scan (pre ++ rest) result current_key buffer
  = md_scan rest result current_key
      (match current_key with
       | Some _ => buffer ++ map (rstrip_char 10) pre
       | None => buffer
       end).
Proof.
  induction pre as [|l pre IH]; intros rest result ck buffer Hpre.
  - simpl. destruct ck; by rewrite ?app_nil_r.
  - simpl app. rewrite md_scan_plain by (apply Hpre; by left).
    rewrite IH by (intros; apply Hpre; by right).
    destruct ck; [|done]. simpl. by rewrite <- app_assoc.
Qed.

Lemma lstrip_char_spaces (x : Z) (w a : str) :
  lstrip_char x a = a ->
  exists w', (forallb isspace w = true -> forallb isspace w' = true)
             /\ lstrip_char x (w ++ a) = w' ++ a.
Proof.
  intros Ha. induction w as [|c w IH].
  - exists []. done.
  - simpl. destruct (c =? x).
    + destruct IH as (w' & Hw' & E). exists w'. split; [|done].
      intros [_ H]%andb_true_iff. auto.
    + exists (c :: w). done.
Qed.

Lemma forallb_rev {A} (f : A -> bool) (l : list A) :
  forallb f (rev l) = forallb f l.
Proof.
  induction l as [|x l IH]; [done|]. simpl.
  rewrite forallb_app, IH. simpl. destruct (f x), (forallb f l); done.
Qed.

Lemma lstrip_spaces (w : str) : forallb isspace w = true -> lstrip w = [].
Proof.
  induction w as [|c w IH]; [done|]. simpl.
  intros [Hc Hw]%andb_true_iff. rewrite Hc. auto.
Qed.

Lemma strip_spaces (w : str) : forallb isspace w = true -> strip w = [].
Proof. intros H. unfold strip. by rewrite lstrip_spaces. Qed.

Lemma startswith_nil (s : str) : startswith s [] = true.
Proof. by destruct s. Qed.

(** The marker character and a space, followed by whitespace only, is a
    marker with the empty name. *)
Lemma blank_marker (ws : str) :
  forallb isspace ws = true ->
  is_marker (py "# " ++ ws) = true /\ marker_name (py "# " ++ ws) = [].
Proof.
  intros Hws. change (py "# ") with [35; 32].
  assert (exists w', forallb isspace w' = true
                     /\ rstrip_char 10 ([35; 32] ++ ws) = [35; 32] ++ w')
    as (w' & Hw' & E).
  { unfold rstrip_char. rewrite rev_app_distr.
    destruct (lstrip_char_spaces 10 (rev ws) (rev [35; 32])) as (w & Hw & E);
      [done|].
    exists (rev w). split.
    - rewrite forallb_rev. apply Hw. by rewrite forallb_rev.
    - rewrite E, rev_app_distr. reflexivity. }
  unfold is_marker, marker_name. rewrite E. simpl.
  rewrite startswith_nil, drop_0. split; [done|]. by apply strip_spaces.
Qed.

(** C9 as stated fails: the line "# " is a marker whose name is empty,
    and it does put a key into the map. *)
Lemma empty_marker_name_counterexample :
  let text := py "# " in
  (forall l, In l (readlines text) -> is_marker l = true -> marker_name l = [])
  /\ md_to_json_text text = Return [([], [])]
  /\ md_to_json_text text <> Return [].
Proof.
  repeat split; [|done].
  intros l [<-|[]] _. reflexivity.
Qed.

(** C9, amended. A line is a top-level marker when, without its line feed
    and leading whitespace, it begins with the marker character and a
    space; its name is the rest without surrounding whitespace and may be
    empty. A line made of the marker character, a space and only
    whitespace is a marker with the empty name: alone among lines without
    markers it gives the map with the one key [""], whose body is the
    lines after it. A document without any marker gives the empty map. *)
Theorem marker_with_empty_name (ws : str) (pre post : list str) :
  forallb isspace ws = true ->
  (forall l, In l (pre ++ post) -> is_marker l = false) ->
  is_marker (py "# " ++ ws) = true
  /\ marker_name (py "# " ++ ws) = []
  /\ md_scan (pre ++ (py "# " ++ ws) :: post) [] None []
     = Return [([], join [10] (map (rstrip_char 10) post))]
  /\ md_scan (pre ++ post) [] None [] = Return [].
Proof.
  intros Hws Hplain. destruct (blank_marker ws Hws) as [Hm Hn].
  repeat split; try done.
  - rewrite md_scan_no_marker
      by (intros l Hl; apply Hplain, in_app_iff; by left).
    rewrite md_scan_marker by done. cbv zeta. rewrite Hn. simpl dict_mem.
    cbv iota.
    rewrite <- (app_nil_r post) at 1.
    rewrite md_scan_no_marker
      by (intros l Hl; apply Hplain, in_app_iff; by right).
    done.
  - rewrite <- (app_nil_r (pre ++ post)).
    by rewrite md_scan_no_marker.
Qed.

Lemma marker_with_empty_name_witness :
  md_scan ([py "preface"] ++ (py "# " ++ py "  ") :: [py "body"; py "## sub"])
    [] None []
  = Return [([], py "body
## sub")].
Proof.
  apply (marker_with_empty_name (py "  ") [py "preface"] [py "body"; py "## sub"]).
  - reflexivity.
  - intros l H. vm_compute in H. by destruct H as [<-|[<-|[<-|[]]]].
Defined.

(** ** The story validator *)

Lemma sample_runtime_faithful : set_iter_faithful sample_runtime.
Proof. intros l. reflexivity. Qed.

Lemma app_cons_not_nil {A} (l : list A) (x : A) : l ++ [x] <> [].
Proof. by destruct l. Qed.



(** When the validator returns, the list of errors it returns is not
    empty. *)
Lemma story_errors_nonempty (rt : runtime) (fs : node) (p : Path) (errs : list str) :
  Story.load_if_valid rt fs p = Return (inl errs) -> errs <> [].
Proof.
  unfold Story.load_if_valid. destruct (negb (is_file fs p)); [by intros [= <-]|].
  destruct (md_to_json fs p) as [data|[]]; try done; [|by intros [= <-]].
  unfold Story.validate.
  destruct (Story.parse_number rt data _) as [[nv errors]|]; simpl; [|done].
  destruct errors; [done | by intros [= <-]].
Qed.

(** A story document that is not valid UTF-8 makes the story validator
    raise. *)
Lemma story_undecodable (rt : runtime) (fs : node) (p : Path) (mtime : Z) (data : bytes) :
  resolve fs p = Some (File mtime data) -> utf8_decode data = None ->
  Story.load_if_valid rt fs p = Raise UnicodeDecodeError.
Proof.
  intros Hp Hd. unfold Story.load_if_valid, is_file, md_to_json, read_text, read_bytes.
  rewrite Hp. simpl. by rewrite Hd.
Qed.

(** The same for the index document of a novel. *)
Lemma novel_undecodable (rt : runtime) (fs : node) (p : Path) (mtime : Z) (data : bytes) :
  resolve fs p = Some (File mtime data) -> utf8_decode data = None ->
  Novel.load_if_valid rt fs p = Raise UnicodeDecodeError.
Proof.
  intros Hp Hd. unfold Novel.load_if_valid, is_file, md_to_json, read_text, read_bytes.
  rewrite Hp. simpl. by rewrite Hd.
Qed.

(** The top page validator catches it and reports one error. *)
Lemma toppage_undecodable (rt : runtime) (fs : node) (p : Path) (mtime : Z) (data : bytes) :
  resolve fs p = Some (File mtime data) -> utf8_decode data = None ->
  TopPage.load_if_valid rt fs p
  = Return (inl [py "Self intro file is not valid UTF-8: " ++ path_str rt p]).
Proof.
  intros Hp Hd. unfold TopPage.load_if_valid, is_file, read_text, read_bytes.
  rewrite Hp. simpl. by rewrite Hd.
Qed.

(** A [number] written with a digit that is not a decimal digit (here the
    superscript two) passes [_is_int_string] and makes [int] raise. *)
Lemma story_superscript_number_raises :
  Story.load_if_valid sample_runtime
    (Dir [(py "1.md", text_file 0 (story_doc "T" "²" "C"))]) [py "1.md"]
  = Raise ValueError.
Proof. reflexivity. Qed.

(** C3, at the failing input: a story document, and a novel index, made of
    the single byte 0xFF are files that exist and are not UTF-8; the story
    and novel validators let [UnicodeDecodeError] escape instead of
    returning a list with one error, which is what the top page validator
    does for the same bytes. *)
Theorem undecodable_document_raises :
  let fs := Dir [(py "1.md", File 0 [255]); (py "index.md", File 0 [255])] in
  Story.load_if_valid sample_runtime fs [py "1.md"] = Raise UnicodeDecodeError
  /\ Novel.load_if_valid sample_runtime fs [py "index.md"] = Raise UnicodeDecodeError
  /\ TopPage.load_if_valid sample_runtime fs [py "1.md"]
     = Return (inl [py "Self intro file is not valid UTF-8: 1.md"]).
Proof.
  cbv zeta. split; [|split].
  - by eapply story_undecodable.
  - by eapply novel_undecodable.
  - by erewrite toppage_undecodable.
Qed.


(** [int] raises nothing but [ValueError]. *)
Lemma py_int_raises (rt : runtime) (s : str) (e : exn) :
  py_int rt s = Raise e -> e = ValueError.
Proof.
  unfold py_int.
  destruct (match s with [] => _ | _ => _ end) as [neg ds].
  destruct (over_limit rt _); [by intros [= <-]|].
  destruct ds; [by intros [= <-]|].
  destruct (int_digits rt _ 0); [done | by intros [= <-]].
Qed.



(** ** Sorting *)

Section SortingFacts.
Context {A : Type} (ltb : A -> A -> bool).

Lemma insert_stable_perm (x : A) (l : list A) :
  Permutation (insert_stable ltb x l) (x :: l).
Proof.
  induction l as [|y l IH]; simpl; [done|].
  destruct (ltb y x); [|done].
  rewrite IH. apply perm_swap.
Qed.

Lemma sorted_perm (l : list A) : Permutation (sorted ltb l) l.
Proof.
  induction l as [|x l IH]; simpl; [done|].
  rewrite insert_stable_perm. by rewrite IH.
Qed.

Lemma sorted_In (l : list A) (x : A) : In x (sorted ltb l) <-> In x l.
Proof.
  split; apply Permutation_in; [|symmetry]; apply sorted_perm.
Qed.

Lemma insert_stable_sorted (x : A) (l : list A) :
  (forall a b, ltb a b = true -> ltb b a = false) ->
  (forall a b c, not_after ltb a b -> not_after ltb b c -> not_after ltb a c) ->
  StronglySorted (not_after ltb) l ->
  StronglySorted (not_after ltb) (insert_stable ltb x l).
Proof.
  intros Hasym Htrans. induction l as [|y l IH]; simpl; intros Hs.
  - constructor; [constructor | constructor].
  - apply StronglySorted_inv in Hs as [Hl Hy].
    destruct (ltb y x) eqn:E.
    + constructor; [by apply IH|].
      rewrite Forall_forall. intros z Hz%list_elem_of_In.
      apply (Permutation_in _ (insert_stable_perm x l)) in Hz.
      destruct Hz as [<-|Hz]; [by apply Hasym|].
      rewrite Forall_forall in Hy. by apply Hy, list_elem_of_In.
    + constructor; [by constructor|].
      constructor; [exact E|].
      rewrite Forall_forall in Hy |- *. intros z Hz.
      eapply Htrans; [exact E | by apply Hy].
Qed.

(** The result of [sorted] is in order. *)
Lemma sorted_sorted (l : list A) :
  (forall a b, ltb a b = true -> ltb b a = false) ->
  (forall a b c, not_after ltb a b -> not_after ltb b c -> not_after ltb a c) ->
  StronglySorted (not_after ltb) (sorted ltb l).
Proof.
  intros Hasym Htrans. induction l as [|x l IH]; simpl; [constructor|].
  by apply insert_stable_sorted.
Qed.

Lemma insert_stable_filter (P : A -> bool) (x : A) (l : list A) :
  (forall a b, P a = true -> P b = true -> ltb a b = false) ->
  List.filter P (insert_stable ltb x l) = List.filter P (x :: l).
Proof.
  intros HP. induction l as [|y l IH]; [done|]. simpl insert_stable.
  destruct (ltb y x) eqn:E; [|done].
  simpl in *. rewrite IH.
  destruct (P x) eqn:Hx, (P y) eqn:Hy; try done.
  rewrite (HP y x Hy Hx) in E. done.
Qed.

(** [sorted] is stable: elements none of which is smaller than another
    keep the order they had. *)
Lemma sorted_stable (P : A -> bool) (l : list A) :
  (forall a b, P a = true -> P b = true -> ltb a b = false) ->
  List.filter P (sorted ltb l) = List.filter P l.
Proof.
  intros HP. induction l as [|x l IH]; [done|]. simpl sorted.
  rewrite insert_stable_filter by done. simpl. by rewrite IH.
Qed.

End SortingFacts.

(** Sorting what is already in order changes nothing. *)
Lemma sorted_id {A} (ltb : A -> A -> bool) (l : list A) :
  StronglySorted (not_after ltb) l -> sorted ltb l = l.
Proof.
  induction l as [|x l IH]; [done|]. intros [Hl Hx]%StronglySorted_inv.
  simpl. rewrite IH by done. destruct l as [|y l]; [done|]. simpl.
  apply Forall_cons in Hx as [Hxy _]. unfold not_after in Hxy. by rewrite Hxy.
Qed.

(** ** Order on strings and on sort keys *)

Lemma str_ltb_irrefl (a : str) : str_ltb a a = false.
Proof.
  induction a as [|x a IH]; [done|]. simpl.
  rewrite Z.ltb_irrefl, Z.eqb_refl. done.
Qed.

Lemma str_ltb_asym (a b : str) : str_ltb a b = true -> str_ltb b a = false.
Proof.
  revert b. induction a as [|x a IH]; intros [|y b]; simpl; try done.
  intros H. apply orb_true_iff in H as [H|H].
  - apply Z.ltb_lt in H. 
    replace (y <? x) with false by (symmetry; apply Z.ltb_ge; lia).
    replace (y =? x) with false by (symmetry; apply Z.eqb_neq; lia). done.
  - apply andb_true_iff in H as [E H]. apply Z.eqb_eq in E. subst.
    rewrite Z.ltb_irrefl, Z.eqb_refl. simpl. by apply IH.
Qed.

Lemma str_ltb_trans (a b c : str) :
  str_ltb a b = true -> str_ltb b c = true -> str_ltb a c = true.
Proof.
  revert b c. induction a as [|x a IH]; intros [|y b] [|z c]; simpl; try done.
  intros H1 H2.
  apply orb_true_iff in H1 as [H1|[E1 H1]%andb_true_iff];
    apply orb_true_iff in H2 as [H2|[E2 H2]%andb_true_iff];
    rewrite ?Z.ltb_lt, ?Z.eqb_eq in *; apply orb_true_iff.
  - left. apply Z.ltb_lt. lia.
  - left. apply Z.ltb_lt. lia.
  - left. apply Z.ltb_lt. lia.
  - right. apply andb_true_iff. split; [apply Z.eqb_eq; lia | by eapply IH].
Qed.

Lemma str_ltb_total (a b : str) :
  str_ltb a b = false -> str_ltb b a = false -> a = b.
Proof.
  revert b. induction a as [|x a IH]; intros [|y b]; simpl; try done.
  intros H1 H2.
  apply orb_false_iff in H1 as [H1 H1'], H2 as [H2 H2'].
  apply Z.ltb_ge in H1, H2. assert (x = y) as -> by lia.
  rewrite Z.eqb_refl in H1', H2'. simpl in *. f_equal. by apply IH.
Qed.

Lemma str_le_trans (a b c : str) : str_le a b -> str_le b c -> str_le a c.
Proof.
  unfold str_le. intros H1 H2.
  destruct (str_ltb c a) eqn:E; [|done].
  destruct (str_ltb b c) eqn:E2.
  - by rewrite (str_ltb_trans _ _ _ E2 E) in H1.
  - rewrite (str_ltb_total _ _ E2 H2) in H1. congruence.
Qed.

(** ** Integers and their decimal strings *)

Lemma sample_runtime_decimal_range : decimal_range sample_runtime.
Proof.
  intros c d. simpl.
  destruct ((48 <=? c) && (c <=? 57)) eqn:E1.
  - intros [= <-]. lia.
  - destruct ((65296 <=? c) && (c <=? 65305)) eqn:E2; [|done].
    intros [= <-]. lia.
Qed.

Lemma decimal_digits_length (fuel : nat) : forall (k : nat) (m : Z) (acc : str),
  (1 <= k)%nat -> 0 <= m < 10 ^ Z.of_nat k ->
  (List.length (decimal_digits fuel m acc) <= k + List.length acc)%nat.
Proof.
  induction fuel as [|fuel IH]; intros k m acc Hk Hm; simpl; [lia|].
  destruct (m <? 10) eqn:E; simpl; [lia|].
  apply Z.ltb_ge in E.
  destruct k as [|[|k]]; [lia | simpl in Hm; lia |].
  specialize (IH (S k) (m / 10) (digit_char (m mod 10) :: acc)).
  simpl in IH |- *. etrans; [apply IH|]; [lia | | lia].
  split; [apply Z.div_pos; lia|].
  apply Z.div_lt_upper_bound; [lia|].
  replace (Z.of_nat (S (S k))) with (Z.succ (Z.of_nat (S k))) in Hm by lia.
  rewrite Z.pow_succ_r in Hm by lia. lia.
Qed.

Lemma int_digits_bound (rt : runtime) (ds : str) : forall acc m,
  decimal_range rt -> 0 <= acc ->
  int_digits rt ds acc = Some m ->
  0 <= m < (acc + 1) * 10 ^ Z.of_nat (List.length ds).
Proof.
  induction ds as [|c ds IH]; intros acc m Hr Hacc; simpl int_digits.
  - intros [= <-]. simpl. lia.
  - destruct (decimal_value rt c) as [d|] eqn:Hd; [|done].
    apply Hr in Hd. intros Hm. apply IH in Hm; [|done|lia].
    replace (Z.of_nat (List.length (c :: ds)))
      with (Z.succ (Z.of_nat (List.length ds))) by (simpl; lia).
    rewrite Z.pow_succ_r by lia.
    assert (0 < 10 ^ Z.of_nat (List.length ds)) by (apply Z.pow_pos_nonneg; lia).
    nia.
Qed.

Lemma over_limit_mono (rt : runtime) (a b : nat) :
  (b <= a)%nat -> over_limit rt a = false -> over_limit rt b = false.
Proof.
  unfold over_limit. destruct (int_max_str_digits rt); [done|].
  rewrite !Nat.ltb_ge. lia.
Qed.

(** An integer that [int] produced can be printed. *)
Lemma py_int_printable (rt : runtime) (s : str) (n : Z) :
  decimal_range rt -> py_int rt s = Return n ->
  py_str_int rt n = Return (repr_int n).
Proof.
  intros Hr. unfold py_int.
  set (split := match s with
                | [] => (false, [])
                | c :: s' =>
                  if c =? 45 then (true, s')
                  else if c =? 43 then (false, s') else (false, s)
                end).
  destruct split as [neg ds].
  destruct (over_limit rt (List.length ds)) eqn:Hlim; [done|].
  destruct ds as [|c ds]; [done|].
  destruct (int_digits rt (c :: ds) 0) as [m|] eqn:Hm; [|done].
  apply int_digits_bound in Hm; [|done|lia]. intros [= <-].
  unfold py_str_int.
  assert (Z.abs (if neg then - m else m) = m) as Habs by (destruct neg; lia).
  rewrite Habs.
  rewrite (over_limit_mono rt (List.length (c :: ds))); [done| |done].
  unfold repr_int. replace (Z.abs m) with m by lia.
  replace (m <? 0) with false by (symmetry; apply Z.ltb_ge; lia).
  etrans; [apply (decimal_digits_length _ (List.length (c :: ds)))|];
    [simpl; lia | lia | simpl; lia].
Qed.

(** ** What a valid story is *)

Lemma In_if_app {A} (c : bool) (l : list A) (m x : A) :
  In x l -> In x (if c then l ++ [m] else l).
Proof. destruct c; [|done]. intros H. apply in_app_iff. by left. Qed.

(** A document without a [number] section, or with a blank one, has a
    header error. *)
Lemma header_errors_number (rt : runtime) (data : dict str) :
  set_iter_faithful rt ->
  dict_mem (py "number") data
  && negb (bool_decide (strip (dict_get_default (py "number") [] data) = [])) = false ->
  Story.header_errors rt data <> [].
Proof.
  intros Hrt Hc.
  assert (exists e, In e (Story.header_errors rt data)) as [e He];
    [|intros E; by rewrite E in He].
  unfold Story.header_errors. cbv zeta.
  destruct (dict_mem (py "number") data) eqn:Hin; simpl in Hc.
  - apply negb_false_iff in Hc. rewrite Hc. simpl.
    exists (py "`number` must not be empty").
    do 2 apply In_if_app. apply in_app_iff. right. by left.
  - exists (py "Missing required header: " ++ py "number").
    do 4 apply In_if_app. apply in_app_iff. right.
    apply in_map_iff. exists (py "number"). split; [done|].
    apply filter_In. split; [|by rewrite Hin].
    eapply Permutation_in; [symmetry; apply Hrt|]. right. by left.
Qed.

(** What the validator has established when it returns a Story. *)
Lemma story_valid_inv (rt : runtime) (fs : node) (p : Path) (s : Story.t) :
  set_iter_faithful rt ->
  Story.load_if_valid rt fs p = Return (inr s) ->
  is_file fs p = true
  /\ exists data,
       md_to_json fs p = Return data
       /\ Story.header_errors rt data = []
       /\ py_int rt (strip (dict_get_default (py "number") [] data))
          = Return (Story.number s)
       /\ s = {| Story.path := p;
                 Story.title := strip (dict_get_default (py "title") [] data);
                 Story.number := Story.number s;
                 Story.content := dict_get_default (py "content") [] data;
                 Story.length :=
                   Story._count_text_length
                     (dict_get_default (py "content") [] data) |}.
Proof.
  intros Hrt. unfold Story.load_if_valid.
  destruct (is_file fs p); simpl; [|done]. 
  destruct (md_to_json fs p) as [data|[]]; try done.
  intros Hv. split; [done|]. exists data. split; [done|].
  unfold Story.validate, Story.parse_number in Hv.
  destruct (dict_mem (py "number") data && negb _) eqn:Hc.
  - destruct (Story._is_int_string rt _).
    + destruct (py_int rt _) as [n|] eqn:Hn; simpl in Hv; [|done].
      destruct (Story.header_errors rt data); [|done].
      injection Hv as <-. done.
    + simpl in Hv.
      destruct (Story.header_errors rt data ++ _) eqn:E; [|done].
      by destruct (app_cons_not_nil _ _ E).
  - simpl in Hv. pose proof (header_errors_number rt data Hrt Hc).
    by destruct (Story.header_errors rt data).
Qed.

Lemma sample_runtime_ok : runtime_ok sample_runtime.
Proof. split; [apply sample_runtime_faithful | apply sample_runtime_decimal_range]. Qed.

Lemma story_valid_printable (rt : runtime) (fs : node) (p : Path) (s : Story.t) :
  runtime_ok rt ->
  Story.load_if_valid rt fs p = Return (inr s) ->
  py_str_int rt (Story.number s) = Return (repr_int (Story.number s)).
Proof.
  intros [Hrt Hr] Hs.
  destruct (story_valid_inv rt fs p s Hrt Hs) as (_ & data & _ & _ & Hn & _).
  by eapply py_int_printable.
Qed.

(** ** What a valid novel is *)

Lemma for_each_nil {A B} (f : A -> outcome B) (l : list A) :
  for_each f l = Return [] -> l = [].
Proof.
  destruct l as [|x l]; [done|]. simpl.
  destruct (f x); simpl; [|done]. destruct (for_each f l); simpl; done.
Qed.

Lemma for_each_map {A B} (f : A -> outcome B) (g : A -> B) (l : list A) :
  (forall x, In x l -> f x = Return (g x)) ->
  for_each f l = Return (map g l).
Proof.
  induction l as [|x l IH]; intros H; [done|]. simpl.
  rewrite (H x) by (by left). simpl.
  rewrite IH by (intros; apply H; by right). done.
Qed.

(** The loop over the story files keeps what it had, and every story it
    adds is what the story validator returned for one of the files. *)
Lemma load_stories_inv (rt : runtime) (fs : node) (files : list Path) :
  forall errors stories errors' stories',
  Novel.load_stories rt fs files errors stories = Return (errors', stories') ->
  (exists more, errors' = errors ++ more)
  /\ exists added,
       stories' = stories ++ added
       /\ forall s, In s added ->
            exists f, In f files /\ Story.load_if_valid rt fs f = Return (inr s).
Proof.
  induction files as [|sf files IH]; intros errors stories errors' stories'; simpl.
  - intros [= <- <-]. split; [exists []|exists []]; by rewrite ?app_nil_r.
  - destruct (Story.load_if_valid rt fs sf) as [[msgs|s]|] eqn:Hsf; simpl; [| |done].
    + intros H. apply IH in H as [[more ->] (added & -> & Hadd)]. split.
      * eexists. by rewrite <- app_assoc.
      * exists added. split; [done|]. intros s Hs.
        destruct (Hadd s Hs) as (f & Hf & E). exists f. split; [by right | done].
    + intros H. apply IH in H as [Herr (added & -> & Hadd)]. split; [done|].
      exists (s :: added). split; [by rewrite <- app_assoc|].
      intros s' [<-|Hs'].
      * exists sf. split; [by left | done].
      * destruct (Hadd s' Hs') as (f & Hf & E). exists f. split; [by right | done].
Qed.

Lemma dict_of_items_from {V} (items : list (str * V)) : forall acc : dict V,
  NoDup (dict_keys acc ++ map fst items) ->
  fold_left (fun d kv => dict_set d (fst kv) (snd kv)) items acc = acc ++ items.
Proof.
  induction items as [|[k v] items IH]; intros acc Hnd; simpl.
  - by rewrite app_nil_r.
  - simpl in Hnd. rewrite dict_set_new.
    + rewrite IH; [by rewrite <- app_assoc|].
      unfold dict_keys. rewrite map_app, <- app_assoc. done.
    + apply NoDup_app in Hnd as (_ & Hd & _). intros Hk.
      apply (Hd k); [by apply list_elem_of_In | left].
Qed.

(** [dict(items)] of items with distinct keys is the items. *)
Lemma dict_of_items_NoDup {V} (items : list (str * V)) :
  NoDup (map fst items) -> dict_of_items items = items.
Proof. intros H. unfold dict_of_items. by rewrite dict_of_items_from. Qed.

Lemma chapters_scan_NoDup (rt : runtime) (lines : list str) :
  forall tmp titles_seen nums_seen errs tmp',
  Novel.chapters_scan rt lines tmp titles_seen nums_seen = Return (errs, tmp') ->
  NoDup (dict_keys tmp) -> NoDup (dict_keys tmp').
Proof.
  induction lines as [|l lines IH]; intros tmp ts ns errs tmp'; simpl.
  - by intros [= <- <-].
  - destruct (negb (has_char 58 l)); [intros [= <- <-] _; constructor|].
    destruct (split_once 58 l) as [k v].
    destruct (bool_decide (strip k = []) || bool_decide (strip v = []));
      [intros [= <- <-] _; constructor|].
    destruct (bool_decide (strip k ∈ ts)); [intros [= <- <-] _; constructor|].
    destruct (negb (Novel._is_int_string rt (strip v)));
      [intros [= <- <-] _; constructor|].
    destruct (py_int rt (strip v)) as [num|]; simpl; [|done].
    destruct (bool_decide (num ∈ ns)); [intros [= <- <-] _; constructor|].
    intros H Hnd. eapply IH; [exact H|]. by apply dict_set_NoDup.
Qed.

Lemma StronglySorted_weaken {A} (R S : A -> A -> Prop) (l : list A) :
  (forall a b, R a b -> S a b) -> StronglySorted R l -> StronglySorted S l.
Proof.
  intros HRS. induction 1 as [|x l Hl IH Hx]; constructor; [done|].
  eapply Forall_impl; [exact Hx | apply HRS].
Qed.

Lemma sorted_by_boundary (tmp : dict Z) :
  StronglySorted boundary_le (sorted_by_key Z.ltb snd tmp).
Proof.
  unfold sorted_by_key.
  eapply StronglySorted_weaken;
    [|apply (sorted_sorted (fun a b : str * Z => snd a <? snd b))].
  - intros a b H. unfold not_after in H. apply Z.ltb_ge in H. done.
  - intros a b H. apply Z.ltb_lt in H. apply Z.ltb_ge. lia.
  - unfold not_after. intros a b c. rewrite !Z.ltb_ge. lia.
Qed.

(** What the [chapters] block leaves: either no chapters, or a non-empty
    dictionary with distinct titles in ascending order of boundary. *)
Lemma chapters_block_inv (rt : runtime) (chapters_val : option str)
    (errors errors' : list str) (cd : option (dict Z)) (hc : bool) :
  Novel.chapters_block rt chapters_val errors = Return (errors', cd, hc) ->
  (exists more, errors' = errors ++ more)
  /\ ((hc = false /\ cd = None)
      \/ (hc = true
          /\ exists ch, cd = Some ch /\ ch <> [] /\ NoDup (dict_keys ch)
                        /\ StronglySorted boundary_le ch)).
Proof.
  unfold Novel.chapters_block.
  destruct chapters_val as [v|];
    [|intros [= <- <- <-]; split; [exists []; by rewrite app_nil_r | by left]].
  destruct (Novel.stripped_lines v) as [|l0 lines];
    [intros [= <- <- <-]; split; [by eexists | by left]|].
  destruct (Novel.chapters_scan rt (l0 :: lines) [] ∅ ∅) as [[errs tmp]|] eqn:Hs;
    simpl; [|done].
  apply chapters_scan_NoDup in Hs; [|constructor].
  destruct tmp as [|kv tmp];
    [intros [= <- <- <-]; split; [by eexists | by left]|].
  destruct (errors ++ errs) eqn:E;
    [|intros [= <- <- <-]; split; [by eexists | by left]].
  intros [= <- <- <-]. split; [exists errs; done|]. right. split; [done|].
  set (items := sorted_by_key Z.ltb snd (kv :: tmp)).
  assert (Permutation items (kv :: tmp)) as Hperm by apply sorted_perm.
  assert (NoDup (map fst items)) as Hnd.
  { eapply NoDup_Permutation_proper; [|exact Hs].
    unfold dict_keys. by apply Permutation_map. }
  exists items. rewrite dict_of_items_NoDup by done.
  split; [done|]. split; [|split; [done | apply sorted_by_boundary]].
  intros E'. rewrite E' in Hperm. by apply Permutation_nil_cons in Hperm.
Qed.

Lemma links_block_errors (v : option str) (errors errors' : list str)
    (els : option str) (hel : bool) :
  Novel.links_block v errors = (errors', els, hel) ->
  exists more, errors' = errors ++ more.
Proof.
  unfold Novel.links_block. destruct v as [v|];
    [|intros [= <- _ _]; exists []; by rewrite app_nil_r].
  destruct (Novel.stripped_lines v) as [|l ls].
  - destruct (errors ++ _) eqn:E; intros [= <- _ _]; by eexists.
  - destruct (errors ++ Novel.links_scan (l :: ls)) eqn:E; intros [= <- _ _];
      eexists; by rewrite E.
Qed.

(** What the validation of [index.md] leaves about chapters. *)
Lemma check_index_chapters (rt : runtime) (data : dict str) (ix : Novel.index) :
  Novel.check_index rt data = Return ix ->
  (Novel.ix_has_chapters ix = false /\ Novel.chapters_dict ix = None)
  \/ (Novel.ix_has_chapters ix = true
      /\ exists ch, Novel.chapters_dict ix = Some ch /\ ch <> []
                    /\ NoDup (dict_keys ch) /\ StronglySorted boundary_le ch).
Proof.
  unfold Novel.check_index.
  destruct (Novel.links_block _ _) as [[errors els] hel].
  destruct (Novel.chapters_block rt _ errors) as [[[errors' cd] hc]|] eqn:Hc;
    simpl; [|done].
  intros [= <-]. simpl. apply chapters_block_inv in Hc. tauto.
Qed.

(** What the validator has established when it returns a Novel. *)
Lemma novel_valid_inv (rt : runtime) (fs : node) (p : Path) (n : Novel.t) :
  Novel.load_if_valid rt fs p = Return (inr n) ->
  is_file fs p = true
  /\ exists data ix files loaded,
       md_to_json fs p = Return data
       /\ Novel.check_index rt data = Return ix
       /\ Novel.errors ix = []
       /\ Novel.story_files fs (parent p) = Return files
       /\ Novel.load_stories rt fs files [] [] = Return ([], loaded)
       /\ Novel.duplicate_errors rt loaded = Return []
       /\ Novel.chapter_errors rt (Novel.ix_has_chapters ix)
            (Novel.chapters_dict ix) loaded = Return []
       /\ Novel.path n = p
       /\ Novel.stories n = sorted_by_key Z.ltb Story.number loaded
       /\ Novel.chapters n = Novel.chapters_dict ix
       /\ Novel.has_chapters n = Novel.ix_has_chapters ix
       /\ Novel.status n = strip (Novel.status_val ix)
       /\ Novel.title n = strip (Novel.title_val ix).
Proof.
  unfold Novel.load_if_valid.
  destruct (is_file fs p); simpl; [|done].
  destruct (md_to_json fs p) as [data|[]]; try done.
  destruct (Novel.check_index rt data) as [ix|] eqn:Hix; simpl; [|done].
  destruct (Novel.errors ix) eqn:Herr; [|done].
  unfold Novel.build. rewrite Herr.
  destruct (Novel.story_files fs (parent p)) as [files|]; simpl; [|done].
  destruct (Novel.load_stories rt fs files [] []) as [[errors loaded]|] eqn:Hl;
    simpl; [|done].
  destruct (Novel.duplicate_errors rt loaded) as [dups|] eqn:Hd; simpl; [|done].
  destruct (Novel.chapter_errors rt _ _ loaded) as [un|] eqn:Hu; simpl; [|done].
  destruct ((errors ++ dups) ++ un) eqn:E; [|done].
  apply app_eq_nil in E as [E ->]. apply app_eq_nil in E as [-> ->].
  intros [= <-]. split; [done|].
  exists data, ix, files, loaded. simpl. done.
Qed.

(** When the novel validator returns errors, there is at least one. *)
Lemma novel_errors_nonempty (rt : runtime) (fs : node) (p : Path) (errs : list str) :
  Novel.load_if_valid rt fs p = Return (inl errs) -> errs <> [].
Proof.
  unfold Novel.load_if_valid. destruct (negb (is_file fs p)); [by intros [= <-]|].
  destruct (md_to_json fs p) as [data|[]]; try done; [|by intros [= <-]].
  destruct (Novel.check_index rt data) as [ix|]; simpl; [|done].
  destruct (Novel.errors ix) eqn:Herr; [|by intros [= <-]].
  unfold Novel.build.
  destruct (Novel.story_files fs (parent p)) as [files|]; simpl; [|done].
  destruct (Novel.load_stories rt fs files _ []) as [[errors loaded]|]; simpl; [|done].
  destruct (Novel.duplicate_errors rt loaded) as [dups|]; simpl; [|done].
  destruct (Novel.chapter_errors rt _ _ loaded) as [un|]; simpl; [|done].
  destruct ((errors ++ dups) ++ un); [done | by intros [= <-]].
Qed.

(** The same for the top page validator. *)
Lemma toppage_errors_nonempty (rt : runtime) (fs : node) (p : Path) (errs : list str) :
  TopPage.load_if_valid rt fs p = Return (inl errs) -> errs <> [].
Proof.
  unfold TopPage.load_if_valid. destruct (negb (is_file fs p)); [by intros [= <-]|].
  destruct (read_text fs p) as [raw|[]]; try done; [|by intros [= <-]].
  destruct (bool_decide (strip raw = [])); simpl; [by intros [= <-]|].
  destruct (iterdir fs (parent p)) as [children|]; simpl; [|done].
  destruct (TopPage.scan rt fs _ [] [] []) as [[[errors dirs] accepted]|]; simpl; [|done].
  destruct errors; [done | by intros [= <-]].
Qed.

(** ** The chapter partition *)

Lemma find_chapter_spec (number : Z) (bounds : list (str * Z)) :
  match Novel._find_chapter_for_number number bounds with
  | Some title => first_at_least number bounds title
  | None => exceeds_all number bounds
  end.
Proof.
  induction bounds as [|[t b] bounds IH]; simpl; [constructor|].
  destruct (number <=? b) eqn:E.
  - apply Z.leb_le in E. exists [], b, bounds. repeat split; [constructor | done].
  - apply Z.leb_gt in E.
    destruct (Novel._find_chapter_for_number number bounds) as [t'|].
    + destruct IH as (pre & b' & post & -> & Hpre & Hb).
      exists ((t, b) :: pre), b', post. repeat split; [by constructor | done].
    + by constructor.
Qed.

Lemma find_chapter_none (number : Z) (bounds : list (str * Z)) :
  exceeds_all number bounds ->
  Novel._find_chapter_for_number number bounds = None.
Proof.
  induction 1 as [|[t b] bounds Hb _ IH]; [done|]. simpl in *.
  by replace (number <=? b) with false by (symmetry; apply Z.leb_gt; lia).
Qed.

Lemma find_chapter_key (number : Z) (bounds : list (str * Z)) (title : str) :
  Novel._find_chapter_for_number number bounds = Some title ->
  In title (dict_keys bounds).
Proof.
  induction bounds as [|[t b] bounds IH]; [done|]. simpl.
  destruct (number <=? b); [intros [= ->]; by left | right; auto].
Qed.

Lemma counter_add_In (c : list (Z * nat)) (x y : Z) (k : nat) :
  In (y, k) (counter_add c x) -> y = x \/ In y (map fst c).
Proof.
  induction c as [|[z j] c IH]; simpl.
  - intros [[= <- _]|[]]. by left.
  - destruct (x =? z) eqn:E; simpl.
    + intros [[= <- _]|H]; [right; by left|]. right. right.
      apply in_map_iff. by exists (y, k).
    + intros [[= <- _]|H]; [right; by left|].
      destruct (IH H) as [?|?]; [by left | right; by right].
Qed.

Lemma Counter_In (xs : list Z) (y : Z) (k : nat) :
  In (y, k) (Counter xs) -> In y xs.
Proof.
  unfold Counter.
  assert (forall acc, In (y, k) (fold_left counter_add xs acc) ->
                      In y xs \/ In y (map fst acc)) as H.
  { induction xs as [|x xs IH]; intros acc; simpl.
    - intros H. right. apply in_map_iff. by exists (y, k).
    - intros H. apply IH in H as [H|H]; [left; by right|].
      apply in_map_iff in H as ([y' k'] & <- & H).
      apply counter_add_In in H as [->|H]; [left; by left | by right]. }
  intros Hin. by destruct (H [] Hin).
Qed.

(** The duplicate check returns when every number can be printed. *)
Lemma duplicate_errors_returns (rt : runtime) (stories : list Story.t) :
  (forall s, In s stories ->
     py_str_int rt (Story.number s) = Return (repr_int (Story.number s))) ->
  exists dups, Novel.duplicate_errors rt stories = Return dups.
Proof.
  intros Hp. unfold Novel.duplicate_errors. eexists.
  apply (for_each_map _ (fun nc => py "Duplicate story number found: " ++ repr_int (fst nc))).
  intros [y k] [Hin _]%filter_In. apply Counter_In in Hin.
  apply in_map_iff in Hin as (s & <- & Hs). simpl. by rewrite (Hp s Hs).
Qed.

(** The chapter check returns one message for each unassigned story. *)
Lemma chapter_errors_returns (rt : runtime) (bounds : dict Z) (stories : list Story.t) :
  bounds <> [] ->
  (forall s, In s stories ->
     py_str_int rt (Story.number s) = Return (repr_int (Story.number s))) ->
  Novel.chapter_errors rt true (Some bounds) stories
  = Return (map no_chapter_text
      (List.filter (fun s =>
         match Novel._find_chapter_for_number (Story.number s) bounds with
         | None => true
         | Some _ => false
         end) stories)).
Proof.
  intros Hne Hp. unfold Novel.chapter_errors.
  destruct bounds as [|tb bounds]; [done|].
  apply for_each_map. intros s [Hs _]%filter_In.
  unfold Novel.no_chapter_message. by rewrite (Hp s Hs).
Qed.

(** The chapters of a validated novel that has some: a non-empty
    dictionary with distinct titles, in ascending order of boundary, under
    which every story has a chapter. *)
Lemma valid_novel_chapters (rt : runtime) (fs : node) (p : Path) (n : Novel.t) :
  Novel.load_if_valid rt fs p = Return (inr n) ->
  Novel.has_chapters n = true ->
  exists bounds,
    Novel.chapters n = Some bounds
    /\ bounds <> []
    /\ NoDup (dict_keys bounds)
    /\ StronglySorted boundary_le bounds
    /\ forall s, In s (Novel.stories n) ->
         exists title,
           Novel._find_chapter_for_number (Story.number s) bounds = Some title.
Proof.
  intros Hn Hhc.
  destruct (novel_valid_inv _ _ _ _ Hn)
    as (_ & data & ix & files & loaded & _ & Hix & _ & _ & _ & _ & Hce
        & _ & Hst & Hch & Hhas & _).
  rewrite Hhas in Hhc.
  destruct (check_index_chapters _ _ _ Hix) as [[Hf _]|[_ (ch & Hcd & Hne & Hnd & Hs)]];
    [congruence|].
  exists ch. split; [congruence|]. do 3 (split; [done|]).
  intros s Hs'. rewrite Hst in Hs'. apply sorted_In in Hs'.
  rewrite Hhc, Hcd in Hce. destruct ch as [|tb ch]; [done|].
  unfold Novel.chapter_errors in Hce. apply for_each_nil in Hce.
  destruct (Novel._find_chapter_for_number (Story.number s) (tb :: ch))
    as [t|] eqn:E; [by exists t|].
  assert (In s []) as []. rewrite <- Hce. apply filter_In. by rewrite E.
Qed.

(** C1. With chapters present a story belongs to the first chapter, in the
    order of the stored boundaries, whose boundary is at least its number,
    and to none when its number exceeds every boundary; the stored
    boundaries of a validated novel ascend and each of its stories has a
    chapter; when a story read from the directory exceeds every boundary
    the validation returns errors, one of which names that story. With the
    boundaries A:1, B:10, C:20 the numbers 1, 5, 10, 15 fall into A, B, B,
    C and 21 into no chapter. *)
Theorem chapter_partition (rt : runtime) (fs : node) (p : Path) :
  runtime_ok rt ->
  (forall number bounds,
     match Novel._find_chapter_for_number number bounds with
     | Some title => first_at_least number bounds title
     | None => exceeds_all number bounds
     end)
  /\ (forall n, Novel.load_if_valid rt fs p = Return (inr n) ->
        Novel.has_chapters n = true ->
        exists bounds,
          Novel.chapters n = Some bounds
          /\ StronglySorted boundary_le bounds
          /\ forall s, In s (Novel.stories n) ->
               exists title,
                 Novel._find_chapter_for_number (Story.number s) bounds = Some title
                 /\ first_at_least (Story.number s) bounds title)
  /\ (forall data ix bounds files errs loaded s,
        is_file fs p = true ->
        md_to_json fs p = Return data ->
        Novel.check_index rt data = Return ix ->
        Novel.errors ix = [] ->
        Novel.ix_has_chapters ix = true ->
        Novel.chapters_dict ix = Some bounds ->
        Novel.story_files fs (parent p) = Return files ->
        Novel.load_stories rt fs files [] [] = Return (errs, loaded) ->
        In s loaded ->
        exceeds_all (Story.number s) bounds ->
        exists errors,
          Novel.load_if_valid rt fs p = Return (inl errors)
          /\ In (no_chapter_text s) errors)
  /\ (let bounds := [(py "A", 1); (py "B", 10); (py "C", 20)] in
      Novel._find_chapter_for_number 1 bounds = Some (py "A")
      /\ Novel._find_chapter_for_number 5 bounds = Some (py "B")
      /\ Novel._find_chapter_for_number 10 bounds = Some (py "B")
      /\ Novel._find_chapter_for_number 15 bounds = Some (py "C")
      /\ Novel._find_chapter_for_number 21 bounds = None).
Proof.
  intros Hrt. split; [apply find_chapter_spec|]. split; [|split; [|done]].
  - intros n Hn Hhc.
    destruct (valid_novel_chapters _ _ _ _ Hn Hhc)
      as (bounds & Hch & _ & _ & Hs & Hall).
    exists bounds. split; [done|]. split; [done|].
    intros s Hs'. destruct (Hall s Hs') as [t E]. exists t. split; [done|].
    pose proof (find_chapter_spec (Story.number s) bounds) as Hspec.
    by rewrite E in Hspec.
  - intros data ix bounds files errs loaded s Hfile Hdata Hix Herr Hhc Hcd
      Hfiles Hload Hs Hex.
    assert (forall s', In s' loaded ->
              py_str_int rt (Story.number s') = Return (repr_int (Story.number s')))
      as Hprint.
    { intros s' Hs'.
      destruct (load_stories_inv _ _ _ _ _ _ _ Hload) as (_ & added & -> & Hadd).
      destruct (Hadd s' Hs') as (f & _ & Hf). by eapply story_valid_printable. }
    destruct (duplicate_errors_returns rt loaded Hprint) as [dups Hdups].
    assert (bounds <> []) as Hne.
    { destruct (check_index_chapters _ _ _ Hix) as [[Hf _]|[_ (ch & Hcd' & Hne & _)]];
        congruence. }
    unfold Novel.load_if_valid. rewrite Hfile, Hdata. simpl.
    rewrite Hix. simpl. rewrite Herr. unfold Novel.build.
    rewrite Hfiles. simpl. rewrite Herr, Hload. simpl. rewrite Hdups. simpl.
    rewrite Hhc, Hcd, chapter_errors_returns by done. simpl.
    set (un := map no_chapter_text _).
    assert (In (no_chapter_text s) ((errs ++ dups) ++ un)) as Hin.
    { apply in_app_iff. right. apply in_map. apply filter_In. split; [done|].
      by rewrite find_chapter_none. }
    destruct ((errs ++ dups) ++ un) eqn:E; [done|]. by eexists.
Qed.

Lemma chapter_partition_witness :
  exists errors,
    Novel.load_if_valid sample_runtime chaptered_novel [py "n1"; py "index.md"]
    = Return (inl errors)
    /\ In (no_chapter_text
             {| Story.path := [py "n1"; py "a.md"];
                Story.title := py "S21";
                Story.number := 21;
                Story.content := py "hello world";
                Story.length := 11 |}) errors.
Proof.
  destruct (chapter_partition sample_runtime chaptered_novel
              [py "n1"; py "index.md"] sample_runtime_ok) as (_ & _ & H & _).
  eapply (H _ _ _ _ _ _ _); try (lazy; reflexivity).
  - left. reflexivity.
  - repeat constructor.
Defined.

(** ** The chapter-grouped view *)

Lemma dict_append_spec (keys : list str) (g : str -> list Story.t)
    (c : str) (s : Story.t) :
  NoDup keys -> In c keys ->
  Novel.dict_append (map (fun t => (t, g t)) keys) c s
  = Return (map (fun t => (t, if bool_decide (t = c) then g t ++ [s] else g t)) keys).
Proof.
  induction keys as [|k keys IH]; [done|].
  intros [Hk Hnd]%NoDup_cons Hin. simpl.
  destruct (str_eqb c k) eqn:E.
  - apply str_eqb_eq in E. subst k. rewrite bool_decide_eq_true_2 by done.
    do 2 f_equal. apply map_ext_in. intros t Ht.
    rewrite bool_decide_eq_false_2; [done|]. intros ->.
    by apply Hk, list_elem_of_In.
  - apply str_eqb_neq in E. rewrite IH; [|done|destruct Hin; congruence].
    simpl. by rewrite bool_decide_eq_false_2 by congruence.
Qed.

(** The loop of [get_stories_ordered] appends to each chapter, in order,
    the stories that belong to it, and raises nothing. *)
Lemma assign_stories_spec (bounds : list (str * Z)) (stories : list Story.t) :
  forall g : str -> list Story.t,
  NoDup (dict_keys bounds) ->
  Novel.assign_stories bounds stories (map (fun t => (t, g t)) (dict_keys bounds))
  = Return (map (fun t => (t, g t ++ List.filter (in_chapter bounds t) stories))
              (dict_keys bounds)).
Proof.
  induction stories as [|s stories IH]; intros g Hnd; simpl.
  - f_equal. apply map_ext. intros t. by rewrite app_nil_r.
  - destruct (Novel._find_chapter_for_number (Story.number s) bounds) as [c|] eqn:E.
    + rewrite dict_append_spec by (done || by eapply find_chapter_key).
      simpl. rewrite (IH (fun t => if bool_decide (t = c) then g t ++ [s] else g t)) by done.
      f_equal. apply map_ext. intros t. unfold in_chapter at 2. rewrite E.
      destruct (decide (t = c)) as [->|Hne].
      * rewrite !bool_decide_eq_true_2 by done. by rewrite <- app_assoc.
      * rewrite bool_decide_eq_false_2 by done.
        by rewrite bool_decide_eq_false_2 by congruence.
    + rewrite IH by done. f_equal. apply map_ext. intros t.
      unfold in_chapter at 2. rewrite E. by rewrite bool_decide_eq_false_2.
Qed.

Lemma groups_skip {A} (c : A -> option str) (keys : list str) (x : A) (l : list A) :
  (forall t, In t keys -> c x <> Some t) ->
  concat (map (fun t => List.filter (fun y => bool_decide (c y = Some t)) (x :: l)) keys)
  = concat (map (fun t => List.filter (fun y => bool_decide (c y = Some t)) l) keys).
Proof.
  intros H. f_equal. apply map_ext_in. intros t Ht. simpl.
  by rewrite bool_decide_eq_false_2 by (by apply H).
Qed.

Lemma groups_cons {A} (c : A -> option str) (keys : list str) (x : A) (l : list A) (t : str) :
  NoDup keys -> In t keys -> c x = Some t ->
  Permutation
    (concat (map (fun t => List.filter (fun y => bool_decide (c y = Some t)) (x :: l)) keys))
    (x :: concat (map (fun t => List.filter (fun y => bool_decide (c y = Some t)) l) keys)).
Proof.
  induction keys as [|k keys IH]; [done|].
  intros [Hk Hnd]%NoDup_cons Hin Hc. rewrite list_elem_of_In in Hk.
  cbn [map concat]. destruct (decide (k = t)) as [->|Hne].
  - rewrite groups_skip by (intros t' Ht' E; congruence).
    simpl. by rewrite bool_decide_eq_true_2.
  - destruct Hin as [?|Hin]; [done|].
    rewrite IH by done. simpl List.filter at 1.
    rewrite bool_decide_eq_false_2 by congruence.
    symmetry. apply Permutation_middle.
Qed.

(** Grouping by chapter loses and repeats nothing when every element has
    a chapter. *)
Lemma groups_perm {A} (c : A -> option str) (keys : list str) (l : list A) :
  NoDup keys ->
  (forall x, In x l -> exists t, c x = Some t /\ In t keys) ->
  Permutation
    (concat (map (fun t => List.filter (fun y => bool_decide (c y = Some t)) l) keys))
    l.
Proof.
  intros Hnd. induction l as [|x l IH]; intros Hall.
  - clear. induction keys as [|k keys IHk]; [done | exact IHk].
  - destruct (Hall x) as (t & Hc & Ht); [by left|].
    rewrite (groups_cons c keys x l t) by done.
    constructor. apply IH. intros y Hy. apply Hall. by right.
Qed.

Lemma StronglySorted_filter {A} (R : A -> A -> Prop) (P : A -> bool) (l : list A) :
  StronglySorted R l -> StronglySorted R (List.filter P l).
Proof.
  induction 1 as [|x l Hl IH Hx]; simpl; [constructor|].
  destruct (P x); [|done]. constructor; [done|].
  rewrite Forall_forall in Hx |- *. intros y Hy%list_elem_of_In.
  apply filter_In in Hy as [Hy _]. by apply Hx, list_elem_of_In.
Qed.

Lemma sorted_by_number (stories : list Story.t) :
  StronglySorted number_le (sorted_by_key Z.ltb Story.number stories).
Proof.
  unfold sorted_by_key.
  eapply StronglySorted_weaken;
    [|apply (sorted_sorted (fun a b : Story.t => Story.number a <? Story.number b))].
  - intros a b H. unfold not_after in H. by apply Z.ltb_ge in H.
  - intros a b H. apply Z.ltb_lt in H. apply Z.ltb_ge. lia.
  - unfold not_after. intros a b c. rewrite !Z.ltb_ge. lia.
Qed.

Lemma get_stories_ordered_chapters (n : Novel.t) (bounds : dict Z) :
  Novel.has_chapters n = true -> Novel.chapters n = Some bounds -> bounds <> [] ->
  Novel.get_stories_ordered n
  = (ordered ← Novel.assign_stories bounds (Novel.stories n)
       (dict_of_items (map (fun title => (title, [])) (dict_keys bounds)));
     Return (inr ordered)).
Proof.
  intros Ht Hb Hne. unfold Novel.get_stories_ordered. rewrite Ht, Hb.
  by destruct bounds.
Qed.

(** C7. For a Novel returned by the validator, [get_stories_ordered]
    depends on the stored record only and always returns. Without chapters
    it returns the stored stories, which ascend by number. With chapters
    it returns a dictionary whose keys are the chapter titles in ascending
    order of boundary; each value is the stories of that chapter, in
    ascending order of number; and the values, concatenated in key order,
    are a rearrangement of the stored stories: each story occurs once. *)
Theorem stories_ordered (rt : runtime) (fs : node) (p : Path) (n : Novel.t) :
  Novel.load_if_valid rt fs p = Return (inr n) ->
  StronglySorted number_le (Novel.stories n)
  /\ (Novel.has_chapters n = false ->
      Novel.get_stories_ordered n = Return (inl (Novel.stories n)))
  /\ (Novel.has_chapters n = true ->
      exists bounds ordered,
        Novel.chapters n = Some bounds
        /\ StronglySorted boundary_le bounds
        /\ Novel.get_stories_ordered n = Return (inr ordered)
        /\ dict_keys ordered = dict_keys bounds
        /\ Permutation (concat (map snd ordered)) (Novel.stories n)
        /\ forall title group, In (title, group) ordered ->
             group = List.filter (in_chapter bounds title) (Novel.stories n)
             /\ StronglySorted number_le group).
Proof.
  intros Hn.
  destruct (novel_valid_inv _ _ _ _ Hn)
    as (_ & data & ix & files & loaded & _ & Hix & _ & _ & _ & _ & Hce
        & _ & Hst & Hch & Hhas & _).
  assert (StronglySorted number_le (Novel.stories n)) as Hsorted
    by (rewrite Hst; apply sorted_by_number).
  split; [done|]. split.
  - intros Hf. unfold Novel.get_stories_ordered. by rewrite Hf.
  - intros Ht.
    destruct (valid_novel_chapters _ _ _ _ Hn Ht)
      as (bounds & Hb & Hne & Hnd & Hs & Hall).
    set (ordered := map (fun t => (t, List.filter (in_chapter bounds t) (Novel.stories n)))
                      (dict_keys bounds)).
    exists bounds, ordered. split; [done|]. split; [done|].
    split; [|split; [|split]].
    + rewrite (get_stories_ordered_chapters n bounds) by done.
      rewrite dict_of_items_NoDup.
      * rewrite (assign_stories_spec bounds (Novel.stories n) (fun _ => [])) by done.
        done.
      * rewrite map_map. simpl. by rewrite map_id.
    + unfold ordered, dict_keys. rewrite map_map. simpl. by rewrite map_id.
    + unfold ordered. rewrite map_map. simpl.
      apply (groups_perm (fun s => Novel._find_chapter_for_number (Story.number s) bounds)
               (dict_keys bounds) (Novel.stories n) Hnd).
      intros s Hs'. destruct (Hall s Hs') as [t E]. exists t. split; [done|].
      by eapply find_chapter_key.
    + intros title group Hin. unfold ordered in Hin.
      apply in_map_iff in Hin as (t & [= <- <-] & _).
      split; [done | by apply StronglySorted_filter].
Qed.

Lemma stories_ordered_witness :
  exists n,
    Novel.load_if_valid sample_runtime chaptered_valid [py "n1"; py "index.md"]
    = Return (inr n)
    /\ map Story.number (Novel.stories n) = [1; 5; 12]
    /\ StronglySorted number_le (Novel.stories n)
    /\ (Novel.has_chapters n = false ->
        Novel.get_stories_ordered n = Return (inl (Novel.stories n)))
    /\ (Novel.has_chapters n = true ->
        exists bounds ordered,
          Novel.chapters n = Some bounds
          /\ StronglySorted boundary_le bounds
          /\ Novel.get_stories_ordered n = Return (inr ordered)
          /\ dict_keys ordered = dict_keys bounds
          /\ Permutation (concat (map snd ordered)) (Novel.stories n)
          /\ forall title group, In (title, group) ordered ->
               group = List.filter (in_chapter bounds title) (Novel.stories n)
               /\ StronglySorted number_le group).
Proof.
  eexists. split; [lazy; reflexivity|]. split; [reflexivity|].
  apply (stories_ordered sample_runtime chaptered_valid [py "n1"; py "index.md"]).
  lazy. reflexivity.
Defined.

(** ** The order of the novels on the top page *)

Lemma key_ltb_true (a b : Z * Z * str) :
  TopPage.key_ltb a b = true
  <-> fst (fst a) < fst (fst b)
      \/ (fst (fst a) = fst (fst b)
          /\ (snd (fst a) < snd (fst b)
              \/ (snd (fst a) = snd (fst b) /\ str_ltb (snd a) (snd b) = true))).
Proof.
  destruct a as [[a1 a2] a3], b as [[b1 b2] b3]. simpl.
  destruct (Z.eqb_spec a1 b1) as [->|H1]; simpl.
  - destruct (Z.eqb_spec a2 b2) as [->|H2]; simpl.
    + split; [intros H; right; split; [done|]; right; done|].
      intros [?|[_ [?|[_ ?]]]]; [lia | lia | done].
    + rewrite Z.ltb_lt. split; [intros H; right; split; [done|]; by left|].
      intros [?|[_ [?|[? _]]]]; [lia | done | done].
  - rewrite Z.ltb_lt. split; [by left|]. intros [?|[? _]]; done.
Qed.

Lemma key_ltb_false (a b : Z * Z * str) :
  TopPage.key_ltb b a = false
  <-> fst (fst a) < fst (fst b)
      \/ (fst (fst a) = fst (fst b)
          /\ (snd (fst a) < snd (fst b)
              \/ (snd (fst a) = snd (fst b) /\ str_le (snd a) (snd b)))).
Proof.
  rewrite <- not_true_iff_false, key_ltb_true. unfold str_le.
  destruct a as [[a1 a2] a3], b as [[b1 b2] b3]. simpl.
  destruct (str_ltb b3 a3); split.
  - intros H. destruct (Z.lt_trichotomy a1 b1) as [?|[->|?]]; [by left| |].
    + destruct (Z.lt_trichotomy a2 b2) as [?|[->|?]].
      * right. split; [done|]. by left.
      * destruct H. right. split; [done|]. by right.
      * destruct H. right. split; [done|]. by left.
    + destruct H. by left.
  - intros [?|[-> [?|[-> ?]]]] [?|[? [?|[? ?]]]]; lia || done.
  - intros H. destruct (Z.lt_trichotomy a1 b1) as [?|[->|?]]; [by left| |].
    + destruct (Z.lt_trichotomy a2 b2) as [?|[->|?]].
      * right. split; [done|]. by left.
      * right. split; [done|]. by right.
      * destruct H. right. split; [done|]. by left.
    + destruct H. by left.
  - intros [?|[-> [?|[-> ?]]]] [?|[? [?|[? ?]]]]; lia || done.
Qed.

Lemma key_ltb_irrefl (a : Z * Z * str) : TopPage.key_ltb a a = false.
Proof.
  apply key_ltb_false. right. split; [done|]. right. split; [done|].
  apply str_ltb_irrefl.
Qed.

Lemma key_ltb_asym (a b : Z * Z * str) :
  TopPage.key_ltb a b = true -> TopPage.key_ltb b a = false.
Proof.
  rewrite key_ltb_true, key_ltb_false.
  intros [?|[? [?|[? ?]]]]; [by left | right; split; [done|]; by left |].
  right. split; [done|]. right. split; [done|]. by apply str_ltb_asym.
Qed.

Lemma key_not_after_trans (a b c : Z * Z * str) :
  not_after TopPage.key_ltb a b -> not_after TopPage.key_ltb b c ->
  not_after TopPage.key_ltb a c.
Proof.
  unfold not_after. rewrite !key_ltb_false.
  intros [?|[E1 [?|[E1' H1]]]] [?|[E2 [?|[E2' H2]]]];
    try (left; lia); right; (split; [lia|]); try (left; lia).
  right. split; [lia|]. by eapply str_le_trans.
Qed.

(** The key order is the display order. *)
Lemma not_after_displayed (fs : node) (a b : Novel.t) :
  not_after TopPage.key_ltb (TopPage.sort_key fs a) (TopPage.sort_key fs b)
  <-> displayed_before fs a b.
Proof.
  unfold not_after, displayed_before, status_rank. rewrite key_ltb_false.
  unfold TopPage.sort_key. simpl.
  split; (intros [?|[? ?]]; [left; lia | right; split; [lia | done]]).
Qed.

Lemma fold_max_spec (ts : list Z) : forall t0,
  (forall t, In t (t0 :: ts) -> t <= fold_left Z.max ts t0)
  /\ In (fold_left Z.max ts t0) (t0 :: ts).
Proof.
  induction ts as [|t ts IH]; intros t0; simpl.
  - split; [intros t [<-|[]]; lia | by left].
  - destruct (IH (Z.max t0 t)) as [Hge Hin]. split.
    + intros x [<-|[<-|Hx]].
      * etrans; [|apply Hge; by left]. lia.
      * etrans; [|apply Hge; by left]. lia.
      * apply Hge. by right.
    + destruct Hin as [Hin|Hin]; [|right; by right].
      rewrite <- Hin. destruct (Z.max_spec t0 t) as [[_ ->]|[_ ->]]; auto.
Qed.

(** [max(times)] of a non-empty list is its greatest element. *)
Lemma max_or_zero_spec (times : list Z) :
  times <> [] ->
  (forall t, In t times -> t <= TopPage.max_or_zero times)
  /\ In (TopPage.max_or_zero times) times.
Proof.
  destruct times as [|t0 ts]; [done|]. intros _. apply fold_max_spec.
Qed.

Lemma story_valid_path (rt : runtime) (fs : node) (p : Path) (s : Story.t) :
  Story.load_if_valid rt fs p = Return (inr s) ->
  is_file fs p = true /\ Story.path s = p.
Proof.
  unfold Story.load_if_valid. destruct (is_file fs p); simpl; [|done].
  destruct (md_to_json fs p) as [data|[]]; try done.
  unfold Story.validate.
  destruct (Story.parse_number rt data _) as [[nv errors]|]; simpl; [|done].
  destruct errors; [|done]. by intros [= <-].
Qed.

(** The index document and the story documents of a validated novel are
    files of the tree. *)
Lemma valid_novel_files (rt : runtime) (fs : node) (p : Path) (n : Novel.t) :
  Novel.load_if_valid rt fs p = Return (inr n) ->
  forall q, In q (Novel.path n :: map Story.path (Novel.stories n)) ->
    is_file fs q = true.
Proof.
  intros Hn.
  destruct (novel_valid_inv _ _ _ _ Hn)
    as (Hfile & data & ix & files & loaded & _ & _ & _ & _ & Hload & _ & _
        & Hpath & Hst & _).
  intros q [<-|Hq]; [by rewrite Hpath|].
  apply in_map_iff in Hq as (s & <- & Hs). rewrite Hst in Hs.
  apply sorted_In in Hs.
  destruct (load_stories_inv _ _ _ _ _ _ _ Hload) as (_ & added & -> & Hadd).
  destruct (Hadd s Hs) as (f & _ & Hf).
  apply story_valid_path in Hf as [Hf ->]. done.
Qed.

(** The loop over the directories keeps what it had, and every novel it
    adds is what the novel validator returned for one of them. *)
Lemma scan_inv (rt : runtime) (fs : node) (children : list Path) :
  forall errors dirs novels errors' dirs' novels',
  TopPage.scan rt fs children errors dirs novels = Return (errors', dirs', novels') ->
  exists added,
    novels' = novels ++ added
    /\ forall n, In n added ->
         exists child, In child children
           /\ Novel.load_if_valid rt fs (child_path child (py "index.md"))
              = Return (inr n).
Proof.
  induction children as [|child children IH];
    intros errors dirs novels errors' dirs' novels'; simpl.
  - intros [= _ _ <-]. exists []. by rewrite app_nil_r.
  - assert (forall e d ns,
              TopPage.scan rt fs children e d ns = Return (errors', dirs', novels') ->
              exists added, novels' = ns ++ added
                /\ forall n, In n added ->
                     exists c, (child = c \/ In c children)
                       /\ Novel.load_if_valid rt fs (child_path c (py "index.md"))
                          = Return (inr n)) as Hskip.
    { intros e d ns H. apply IH in H as (added & -> & Hadd). exists added.
      split; [done|]. intros n Hn. destruct (Hadd n Hn) as (c & Hc & E).
      exists c. split; [by right | done]. }
    destruct (negb (is_dir fs child)); [apply Hskip|].
    destruct (negb (is_file fs _)); [apply Hskip|].
    destruct (Novel.load_if_valid rt fs _) as [[msgs|n]|] eqn:Hn; simpl;
      [apply Hskip| |done].
    intros H. apply IH in H as (added & -> & Hadd). exists (n :: added).
    split; [by rewrite <- app_assoc|].
    intros n' [<-|Hn']; [exists child; split; [by left | done]|].
    destruct (Hadd n' Hn') as (c & Hc & E). exists c. split; [by right | done].
Qed.

(** C4. The novels of a returned TopPage are the accepted novels (those
    the scan of the directories collected), rearranged so that each may be
    displayed before every later one: later update time first, the update
    time being the greatest modification time among the index document and
    the story documents of the novel; then lower status rank, the ranks
    being 0 for 連載中, 1 for 完結済 and 2 for 更新停止; then smaller
    title. Novels that tie on all three keys keep the order in which they
    were accepted. *)
Theorem toppage_order (rt : runtime) (fs : node) (p : Path) (tp : TopPage.t) :
  TopPage.load_if_valid rt fs p = Return (inr tp) ->
  exists children dirs accepted,
    iterdir fs (parent p) = Return children
    /\ TopPage.scan rt fs (sorted path_ltb children) [] [] []
       = Return ([], dirs, accepted)
    /\ Permutation (TopPage.novels tp) accepted
    /\ StronglySorted (displayed_before fs) (TopPage.novels tp)
    /\ (forall n0,
          List.filter (tied fs n0) (TopPage.novels tp)
          = List.filter (tied fs n0) accepted)
    /\ (forall n, In n (TopPage.novels tp) ->
          (forall q, In q (Novel.path n :: map Story.path (Novel.stories n)) ->
             exists t, getmtime fs q = Some t
                       /\ t <= TopPage.novel_last_updated fs n)
          /\ exists q, In q (Novel.path n :: map Story.path (Novel.stories n))
                       /\ getmtime fs q = Some (TopPage.novel_last_updated fs n))
    /\ (forall n,
          (Novel.status n = py "連載中" -> status_rank n = 0)
          /\ (Novel.status n = py "完結済" -> status_rank n = 1)
          /\ (Novel.status n = py "更新停止" -> status_rank n = 2)).
Proof.
  unfold TopPage.load_if_valid. destruct (is_file fs p); simpl; [|done].
  destruct (read_text fs p) as [raw|[]]; try done.
  destruct (bool_decide (strip raw = [])); simpl; [done|].
  destruct (iterdir fs (parent p)) as [children|]; simpl; [|done].
  destruct (TopPage.scan rt fs _ [] [] []) as [[[errors dirs] accepted]|] eqn:Hscan;
    simpl; [|done].
  destruct errors; [|done]. intros [= <-]. simpl.
  exists children, dirs, accepted. split; [done|]. split; [done|].
  split; [apply sorted_perm|]. split; [|split; [|split]].
  - unfold sorted_by_key. eapply StronglySorted_weaken;
      [|apply (sorted_sorted
                 (fun a b => TopPage.key_ltb (TopPage.sort_key fs a) (TopPage.sort_key fs b)))].
    + intros a b H. by apply not_after_displayed.
    + intros a b. apply key_ltb_asym.
    + intros a b c. apply key_not_after_trans.
  - intros n0. unfold sorted_by_key. apply sorted_stable.
    intros a b Ha Hb. unfold tied in *.
    apply bool_decide_eq_true in Ha, Hb. rewrite <- Ha, <- Hb.
    apply key_ltb_irrefl.
  - intros n Hn. apply sorted_In in Hn.
    destruct (scan_inv _ _ _ _ _ _ _ _ _ Hscan) as (added & -> & Hadd).
    destruct (Hadd n Hn) as (child & _ & Hload).
    pose proof (valid_novel_files _ _ _ _ Hload) as Hfiles.
    assert (forall q, In q (Novel.path n :: map Story.path (Novel.stories n)) ->
              exists t, getmtime fs q = Some t /\ In t (TopPage.mtimes fs n)) as Hm.
    { intros q Hq. specialize (Hfiles q Hq). unfold is_file in Hfiles.
      unfold getmtime. destruct (resolve fs q) as [[t d|es]|] eqn:Hr; try done.
      exists t. split; [done|]. unfold TopPage.mtimes.
      apply list_elem_of_In, list_elem_of_omap. exists q.
      split; [by apply list_elem_of_In|]. unfold getmtime. by rewrite Hr. }
    assert (TopPage.mtimes fs n <> []) as Hne.
    { destruct (Hm (Novel.path n)) as (t & _ & Ht); [by left|].
      intros E. by rewrite E in Ht. }
    destruct (max_or_zero_spec _ Hne) as [Hge Hin]. split.
    + intros q Hq. destruct (Hm q Hq) as (t & Ht & Hin'). exists t.
      split; [done|]. by apply Hge.
    + unfold TopPage.mtimes in Hin. apply list_elem_of_In, list_elem_of_omap in Hin.
      destruct Hin as (q & Hq%list_elem_of_In & E). exists q. split; done.
  - intros n. unfold status_rank. by repeat split; intros ->.
Qed.

Lemma toppage_order_witness :
  exists tp,
    TopPage.load_if_valid sample_runtime sample_site [py "self_intro.md"]
    = Return (inr tp)
    /\ map Novel.title (TopPage.novels tp) = [py "Alpha"; py "Gamma"; py "Beta"]
    /\ StronglySorted (displayed_before sample_site) (TopPage.novels tp).
Proof.
  eexists. split; [lazy; reflexivity|]. split; [reflexivity|].
  edestruct (toppage_order sample_runtime sample_site [py "self_intro.md"])
    as (children & dirs & accepted & _ & _ & _ & Hsorted & _);
    [lazy; reflexivity|].
  exact Hsorted.
Defined.

(** ** The story hash *)

(** The digests of the standard test messages. *)
Lemma sha256_test_vectors :
  hexdigest (sha256 (octets "abc"))
  = py "ba7816bf8f01cfea414140de5dae2223b00361a396177a9cb410ff61f20015ad"
  /\ hexdigest (sha256 [])
     = py "e3b0c44298fc1c149afbf4c8996fb92427ae41e4649b934ca495991b7852b855"
  /\ hexdigest (sha256 (octets "abcdbcdecdefdefgefghfghighijhijkijkljklmklmnlmnomnopnopq"))
     = py "248d6a61d20638b8e5c026930c3e6039a33ce45964ff2167f6ecedd419db06c1".
Proof. vm_compute. done. Qed.

Lemma hexdigest_length (st : digest_state) : List.length (hexdigest st) = 64%nat.
Proof. by destruct st as [[[[[[[a b] c] d] e] f] g] h]. Qed.

Lemma w32_range (x : Z) : 0 <= w32 x < 4294967296.
Proof. unfold w32. apply Z.mod_pos_bound. lia. Qed.

Lemma sha_compress_256 (st : digest_state) (block : bytes) :
  is_256_bit (sha_compress st block).
Proof.
  unfold sha_compress. destruct st as [[[[[[[a b] c] d] e] f] g] h].
  destruct (sha_rounds _ _ _) as [[[[[[[a' b'] c'] d'] e'] f'] g'] h'].
  unfold is_256_bit. repeat constructor; apply w32_range.
Qed.

Lemma sha256_256 (msg : bytes) : is_256_bit (sha256 msg).
Proof.
  unfold sha256. generalize (sha_blocks (List.length (sha_pad msg)) (sha_pad msg)).
  intros blocks. induction blocks as [|block blocks _] using rev_ind.
  - unfold is_256_bit. simpl. repeat constructor; lia.
  - rewrite fold_left_app. simpl. apply sha_compress_256.
Qed.

Lemma is_scalar_iff (c : Z) :
  is_scalar c = true <-> 0 <= c <= 1114111 /\ ~ (55296 <= c <= 57343).
Proof.
  unfold is_scalar.
  rewrite !andb_true_iff, negb_true_iff, andb_false_iff, !Z.leb_le, !Z.leb_gt.
  lia.
Qed.

Lemma is_cont_iff (b : Z) : is_cont b = true <-> 128 <= b <= 191.
Proof. unfold is_cont. rewrite andb_true_iff, !Z.leb_le. lia. Qed.

(** What the strict decoder returns can be encoded. *)
Lemma utf8_decode_encodable (n : nat) : forall (bs : bytes) (s : str),
  (List.length bs <= n)%nat -> utf8_decode bs = Some s -> encodable s.
Proof.
  induction n as [|n IH]; intros bs s Hlen.
  { destruct bs; [|simpl in Hlen; lia]. intros [= <-]. constructor. }
  destruct bs as [|b0 r0]; [intros [= <-]; constructor|].
  simpl in Hlen. simpl utf8_decode.
  destruct ((0 <=? b0) && (b0 <? 128)) eqn:E0.
  { destruct (utf8_decode r0) as [s0|] eqn:Er; simpl; [|done]. intros [= <-].
    apply andb_true_iff in E0 as [H1 H2]. apply Z.leb_le in H1. apply Z.ltb_lt in H2.
    constructor; [apply is_scalar_iff; lia | apply (IH r0); [lia | done]]. }
  destruct ((194 <=? b0) && (b0 <=? 223)) eqn:E1.
  { destruct r0 as [|b1 r1]; [done|]. simpl in Hlen.
    destruct (is_cont b1) eqn:C1; [|done].
    destruct (utf8_decode r1) as [s0|] eqn:Er; simpl; [|done]. intros [= <-].
    apply andb_true_iff in E1 as [H1 H2]. apply Z.leb_le in H1, H2.
    apply is_cont_iff in C1.
    constructor; [apply is_scalar_iff; lia | apply (IH r1); [lia | done]]. }
  destruct ((224 <=? b0) && (b0 <=? 239)) eqn:E2.
  { destruct r0 as [|b1 [|b2 r2]]; [done | done |]. simpl in Hlen.
    destruct (is_cont b1) eqn:C1; [|done]. destruct (is_cont b2) eqn:C2; [|done].
    simpl.
    destruct (if b0 =? 224 then 160 <=? b1 else true) eqn:G1; [|done].
    destruct (if b0 =? 237 then b1 <=? 159 else true) eqn:G2; [|done].
    destruct (utf8_decode r2) as [s0|] eqn:Er; simpl; [|done]. intros [= <-].
    apply andb_true_iff in E2 as [H1 H2]. apply Z.leb_le in H1, H2.
    apply is_cont_iff in C1, C2.
    constructor; [|apply (IH r2); [lia | done]].
    apply is_scalar_iff.
    destruct (Z.eqb_spec b0 224); [apply Z.leb_le in G1|];
      (destruct (Z.eqb_spec b0 237); [apply Z.leb_le in G2|]); lia. }
  destruct ((240 <=? b0) && (b0 <=? 244)) eqn:E3; [|done].
  destruct r0 as [|b1 [|b2 [|b3 r3]]]; [done | done | done |]. simpl in Hlen.
  destruct (is_cont b1) eqn:C1; [|done]. destruct (is_cont b2) eqn:C2; [|done].
  destruct (is_cont b3) eqn:C3; [|done]. simpl.
  destruct (if b0 =? 240 then 144 <=? b1 else true) eqn:G1; [|done].
  destruct (if b0 =? 244 then b1 <=? 143 else true) eqn:G2; [|done].
  destruct (utf8_decode r3) as [s0|] eqn:Er; simpl; [|done]. intros [= <-].
  apply andb_true_iff in E3 as [H1 H2]. apply Z.leb_le in H1, H2.
  apply is_cont_iff in C1, C2, C3.
  constructor; [|apply (IH r3); [lia | done]].
  apply is_scalar_iff.
  destruct (Z.eqb_spec b0 240); [apply Z.leb_le in G1|];
    (destruct (Z.eqb_spec b0 244); [apply Z.leb_le in G2|]); lia.
Qed.

(** A string of encodable characters is encoded. *)
Lemma utf8_encode_total (s : str) :
  encodable s -> exists encoded, utf8_encode s = Some encoded.
Proof.
  induction 1 as [|c s Hc _ [b IH]]; simpl; [by eexists|].
  rewrite Hc, IH. by eexists.
Qed.

Lemma decimal_digits_encodable (fuel : nat) : forall (n : Z) (acc : str),
  0 <= n -> encodable acc -> encodable (decimal_digits fuel n acc).
Proof.
  induction fuel as [|fuel IH]; intros n acc Hn Hacc; simpl; [done|].
  destruct (n <? 10) eqn:E.
  - apply Z.ltb_lt in E. constructor; [|done]. apply is_scalar_iff.
    unfold digit_char. lia.
  - apply IH; [apply Z.div_pos; lia|]. constructor; [|done].
    apply is_scalar_iff. unfold digit_char.
    pose proof (Z.mod_pos_bound n 10). lia.
Qed.

Lemma repr_int_encodable (n : Z) : encodable (repr_int n).
Proof.
  unfold repr_int.
  assert (encodable (decimal_digits (S (Z.to_nat (Z.log2 (Z.abs n)))) (Z.abs n) []))
    by (apply decimal_digits_encodable; [lia | constructor]).
  destruct (n <? 0); [|done]. constructor; [done | done].
Qed.

Lemma translate_newlines_encodable (s : str) :
  encodable s -> encodable (translate_newlines s).
Proof.
  unfold translate_newlines. intros H. generalize false.
  induction H as [|c s Hc Hs IH]; intros after_cr; simpl; [constructor|].
  destruct (c =? 13); [constructor; [done | apply IH]|].
  destruct ((c =? 10) && after_cr); [apply IH | constructor; [done | apply IH]].
Qed.

Lemma encodable_app (a b : str) : encodable a -> encodable b -> encodable (a ++ b).
Proof. intros Ha Hb. apply Forall_app. done. Qed.

Lemma readlines_from_encodable (s : str) : forall cur,
  encodable cur -> encodable s -> Forall encodable (readlines_from cur s).
Proof.
  induction s as [|c s IH]; intros cur Hcur Hs; simpl.
  - destruct cur; [constructor|]. constructor; [done | constructor].
  - apply Forall_cons in Hs as [Hc Hs]. destruct (c =? 10).
    + constructor; [|apply IH; [constructor | done]].
      apply encodable_app; [done | by repeat constructor].
    + apply IH; [|done]. apply encodable_app; [done | by repeat constructor].
Qed.

Lemma lstrip_char_encodable (x : Z) (s : str) :
  encodable s -> encodable (lstrip_char x s).
Proof.
  induction 1 as [|c s Hc Hs IH]; simpl; [constructor|].
  destruct (c =? x); [done | by constructor].
Qed.

Lemma encodable_rev (s : str) : encodable s -> encodable (rev s).
Proof. apply List.Forall_rev. Qed.

Lemma rstrip_char_encodable (x : Z) (s : str) :
  encodable s -> encodable (rstrip_char x s).
Proof.
  intros H. unfold rstrip_char.
  by apply encodable_rev, lstrip_char_encodable, encodable_rev.
Qed.

Lemma lstrip_encodable (s : str) : encodable s -> encodable (lstrip s).
Proof.
  induction 1 as [|c s Hc Hs IH]; simpl; [constructor|].
  destruct (isspace c); [done | by constructor].
Qed.

Lemma strip_encodable (s : str) : encodable s -> encodable (strip s).
Proof.
  intros H. unfold strip, rstrip.
  by apply encodable_rev, lstrip_encodable, encodable_rev, lstrip_encodable.
Qed.

Lemma join_encodable (sep : str) (parts : list str) :
  encodable sep -> Forall encodable parts -> encodable (join sep parts).
Proof.
  intros Hsep. induction 1 as [|p ps Hp Hps IH]; [constructor|].
  destruct ps as [|q ps]; [done|].
  change (join sep (p :: q :: ps)) with (p ++ sep ++ join sep (q :: ps)).
  by repeat apply encodable_app.
Qed.

Lemma dict_set_encodable (d : dict str) (k v : str) :
  values_encodable d -> encodable v -> values_encodable (dict_set d k v).
Proof.
  intros Hd Hv. induction Hd as [|[k' v'] d Hkv Hd IH]; simpl.
  - by repeat constructor.
  - destruct (str_eqb k k'); constructor; done.
Qed.

Lemma md_scan_encodable (lines : list str) :
  forall result current_key buffer d,
  Forall encodable lines -> values_encodable result -> Forall encodable buffer ->
  md_scan lines result current_key buffer = Return d ->
  values_encodable d.
Proof.
  induction lines as [|l lines IH]; intros result ck buffer d Hl Hr Hb.
  - simpl. destruct ck as [k|]; intros [= <-]; [|done].
    apply dict_set_encodable; [done|]. apply join_encodable; [by repeat constructor | done].
  - apply Forall_cons in Hl as [Hl Hlines].
    assert (encodable (rstrip_char 10 l)) as Hline by by apply rstrip_char_encodable.
    destruct (is_marker l) eqn:Hm.
    + rewrite md_scan_marker by done. cbv zeta.
      destruct (dict_mem _ _); [done|]. apply IH; [done| |].
      * destruct ck; [|done]. apply dict_set_encodable; [done|].
        apply join_encodable; [by repeat constructor | done].
      * destruct ck; [constructor | done].
    + rewrite md_scan_plain by done. apply IH; [done | done |].
      destruct ck; [|done]. apply Forall_app. split; [done | by repeat constructor].
Qed.

(** The sections of a document that was read are encodable. *)
Lemma md_to_json_encodable (fs : node) (p : Path) (data : dict str) :
  md_to_json fs p = Return data -> values_encodable data.
Proof.
  unfold md_to_json, read_text.
  destruct (read_bytes fs p) as [bs|]; simpl; [|done].
  destruct (utf8_decode bs) as [s|] eqn:Hs; simpl; [|done].
  apply (utf8_decode_encodable _ _ _ (le_n _)) in Hs.
  apply (md_scan_encodable _ [] None []); [|constructor|constructor].
  apply readlines_from_encodable; [constructor|].
  by apply translate_newlines_encodable.
Qed.

Lemma dict_get_default_encodable (k : str) (d : dict str) :
  values_encodable d -> encodable (dict_get_default k [] d).
Proof.
  unfold dict_get_default. induction 1 as [|[k' v'] d Hkv Hd IH]; simpl;
    [constructor|].
  destruct (str_eqb k k'); done.
Qed.

(** C6. [Story.hash], when it returns, is the hexadecimal form (64 digits)
    of the SHA-256 digest (eight 32-bit words) of the UTF-8 encoding of
    [title], a line feed, the decimal string of [number], a line feed and
    [content]; two Stories with the same title, number and content have
    the same hash whatever their paths; and for a Story returned by the
    validator the hash does return. *)
Theorem story_hash_digest (rt : runtime) (s1 s2 : Story.t) :
  (forall h, Story.hash rt s1 = Return h ->
     exists encoded,
       utf8_encode (Story.title s1 ++ [10] ++ repr_int (Story.number s1)
                    ++ [10] ++ Story.content s1) = Some encoded
       /\ h = hexdigest (sha256 encoded)
       /\ is_256_bit (sha256 encoded)
       /\ List.length h = 64%nat)
  /\ (Story.title s1 = Story.title s2 ->
      Story.number s1 = Story.number s2 ->
      Story.content s1 = Story.content s2 ->
      Story.hash rt s1 = Story.hash rt s2)
  /\ (forall fs p, runtime_ok rt ->
        Story.load_if_valid rt fs p = Return (inr s1) ->
        exists h, Story.hash rt s1 = Return h).
Proof.
  split; [|split].
  - intros h. unfold Story.hash, py_str_int.
    destruct (over_limit rt _); simpl; [done|].
    destruct (utf8_encode _) as [encoded|]; [|done]. intros [= <-].
    exists encoded. split; [done|]. split; [done|].
    split; [apply sha256_256 | apply hexdigest_length].
  - intros Ht Hn Hc. unfold Story.hash. by rewrite Ht, Hn, Hc.
  - intros fs p Hrt Hs.
    pose proof (story_valid_printable rt fs p s1 Hrt Hs) as Hprint.
    destruct Hrt as [Hrt _].
    destruct (story_valid_inv rt fs p s1 Hrt Hs) as (_ & data & Hdata & _ & _ & E).
    apply md_to_json_encodable in Hdata.
    unfold Story.hash. rewrite Hprint. simpl.
    destruct (utf8_encode_total
                (Story.title s1 ++ [10] ++ repr_int (Story.number s1)
                 ++ [10] ++ Story.content s1)) as [encoded Henc].
    { assert (encodable (Story.title s1)) as Ht
        by (rewrite E; by apply strip_encodable, dict_get_default_encodable).
      assert (encodable (Story.content s1)) as Hc
        by (rewrite E; by apply dict_get_default_encodable).
      assert (encodable [10]) as Hnl by by repeat constructor.
      apply encodable_app; [done|]. apply encodable_app; [done|].
      apply encodable_app; [apply repr_int_encodable|].
      by apply encodable_app. }
    simpl in Henc. rewrite Henc. by eexists.
Qed.

Lemma story_hash_digest_witness :
  Story.hash sample_runtime
    {| Story.path := [py "n1"; py "1.md"]; Story.title := py "タイトル";
       Story.number := 1; Story.content := py "本文"; Story.length := 2 |}
  = Story.hash sample_runtime
      {| Story.path := [py "n2"; py "7.md"]; Story.title := py "タイトル";
         Story.number := 1; Story.content := py "本文"; Story.length := 2 |}.
Proof.
  apply (story_hash_digest sample_runtime); reflexivity.
Defined.

(** * Further properties *)

(** ** The section parser, in full *)

Lemma sections_keys (lines : list str) :
  dict_keys (sections lines) = marker_names lines.
Proof.
  unfold marker_names. induction lines as [|l lines IH]; [done|]. simpl.
  destruct (is_marker l); simpl; by rewrite ?IH.
Qed.

Lemma md_scan_open (lines : list str) : forall result ck buffer,
  NoDup (dict_keys result ++ ck :: marker_names lines) ->
  md_scan lines result (Some ck) buffer
  = Return (result ++ (ck, join [10] (buffer ++ body lines)) :: sections lines).
Proof.
  induction lines as [|l lines IH]; intros result ck buffer Hnd.
  - simpl. rewrite app_nil_r. rewrite dict_set_new; [done|].
    apply NoDup_app in Hnd as (_ & Hd & _). intros Hin.
    apply (Hd ck); [by apply list_elem_of_In | left].
  - unfold marker_names in Hnd. simpl in Hnd. destruct (is_marker l) eqn:Hm.
    + rewrite md_scan_marker by done. cbv zeta. simpl in Hnd.
      assert (~ In ck (dict_keys result)) as Hck.
      { apply NoDup_app in Hnd as (_ & Hd & _). intros Hin.
        apply (Hd ck); [by apply list_elem_of_In | left]. }
      rewrite dict_set_new by done.
      assert (NoDup (dict_keys (result ++ [(ck, join [10] buffer)])
                     ++ marker_name l :: marker_names lines)) as Hnd'.
      { unfold dict_keys. rewrite map_app. simpl. by rewrite <- app_assoc. }
      destruct (dict_mem (marker_name l) (result ++ [(ck, join [10] buffer)])) eqn:Hd.
      { apply dict_mem_In in Hd. apply NoDup_app in Hnd' as (_ & Hdis & _).
        destruct (Hdis (marker_name l)); [by apply list_elem_of_In | left]. }
      rewrite IH by done. simpl. rewrite Hm. rewrite app_nil_r.
      by rewrite <- app_assoc.
    + rewrite md_scan_plain by done. rewrite IH by done. simpl. rewrite Hm.
      by rewrite <- app_assoc.
Qed.

Lemma md_scan_closed (lines : list str) : forall result,
  NoDup (dict_keys result ++ marker_names lines) ->
  md_scan lines result None [] = Return (result ++ sections lines).
Proof.
  induction lines as [|l lines IH]; intros result Hnd.
  - simpl. by rewrite app_nil_r.
  - unfold marker_names in Hnd. simpl in Hnd. destruct (is_marker l) eqn:Hm.
    + rewrite md_scan_marker by done. cbv zeta. simpl in Hnd.
      destruct (dict_mem (marker_name l) result) eqn:Hd.
      { apply dict_mem_In in Hd. apply NoDup_app in Hnd as (_ & Hdis & _).
        destruct (Hdis (marker_name l)); [by apply list_elem_of_In | left]. }
      rewrite md_scan_open by done. simpl. by rewrite Hm.
    + rewrite md_scan_plain by done. rewrite IH by done. simpl. by rewrite Hm.
Qed.

(** X1. [md_to_json] returns exactly when the marker names of the document
    are pairwise distinct, and what it returns is the sections of the
    document: one entry per marker, in document order, whose key is the
    marker name and whose value is the lines up to the next marker joined
    by line feeds; lines before the first marker are in no value. *)
Theorem md_to_json_sections (text : str) :
  (NoDup (marker_names (readlines text)) ->
   md_to_json_text text = Return (sections (readlines text)))
  /\ (forall d, md_to_json_text text = Return d ->
        NoDup (marker_names (readlines text))
        /\ d = sections (readlines text)
        /\ dict_keys d = marker_names (readlines text)).
Proof.
  assert (NoDup (marker_names (readlines text)) ->
          md_to_json_text text = Return (sections (readlines text))) as Hok.
  { intros Hnd. unfold md_to_json_text. by rewrite md_scan_closed. }
  split; [done|]. intros d Hd.
  destruct (decide (NoDup (marker_names (readlines text)))) as [Hnd | Hdup].
  - rewrite (Hok Hnd) in Hd. injection Hd as <-.
    by rewrite sections_keys.
  - destruct (first_repeat _ Hdup) as (pre & l & post & Hlines & Hm & Hnd & Hin).
    unfold md_to_json_text in Hd. rewrite Hlines in Hd.
    destruct (md_scan_distinct pre [] None [] Hnd) as (r & ck & b & Hrun & Hseen).
    { intros k _ []. }
    rewrite Hrun, md_scan_repeat in Hd; [done | done |]. apply Hseen. by right.
Qed.

Lemma md_to_json_sections_witness :
  md_to_json_text (py "preface
# key1
value1

more
# key2
## sub
")
  = Return [(py "key1", py "value1

more"); (py "key2", py "## sub")].
Proof.
  apply (md_to_json_sections (py "preface
# key1
value1

more
# key2
## sub
")).
  apply (bool_decide_unpack _). vm_compute. exact I.
Defined.

(** ** The story validator, further *)

Lemma filter_none {A} (f : A -> bool) (l : list A) :
  (forall x, In x l -> f x = false) -> List.filter f l = [].
Proof.
  induction l as [|x l IH]; intros H; [done|]. simpl.
  rewrite (H x) by (by left). apply IH. intros y Hy. apply H. by right.
Qed.

(** A document whose marker names repeat is reported by [md_to_json] with
    the name of the first repeated key. *)
Lemma md_to_json_repeat (fs : node) (p : Path) (text : str) :
  read_text fs p = Return text ->
  ~ NoDup (marker_names (readlines text)) ->
  exists k, In k (marker_names (readlines text))
    /\ md_to_json fs p = Raise (JsonKeyDuplicateError (py "Duplicate key found: " ++ k)).
Proof.
  intros Hread Hdup.
  destruct (first_repeat _ Hdup) as (pre & l & post & Hlines & Hm & Hnd & Hin).
  exists (marker_name l). split.
  - rewrite Hlines, marker_names_app. apply in_app_iff. by left.
  - unfold md_to_json. rewrite Hread. simpl. unfold md_to_json_text. rewrite Hlines.
    destruct (md_scan_distinct pre [] None [] Hnd) as (r & ck & b & Hrun & Hseen).
    { intros k _ []. }
    rewrite Hrun. apply md_scan_repeat; [done|]. apply Hseen. by right.
Qed.

(** X2. The two fatal conditions the validators handle give a list with
    exactly one error and stop all other checks: a path that is not a
    file (all three validators), and a document in which a marker name
    is repeated (story and novel validators), whatever else is wrong
    with the document. *)
Theorem fatal_conditions_single_error (rt : runtime) (fs : node) (p : Path) :
  (is_file fs p = false ->
   Story.load_if_valid rt fs p
   = Return (inl [py "Story file not found: " ++ path_str rt p])
   /\ Novel.load_if_valid rt fs p
      = Return (inl [py "Novel index file not found: " ++ path_str rt p])
   /\ TopPage.load_if_valid rt fs p
      = Return (inl [py "Self intro file not found: " ++ path_str rt p]))
  /\ (forall text,
        is_file fs p = true ->
        read_text fs p = Return text ->
        ~ NoDup (marker_names (readlines text)) ->
        exists k,
          In k (marker_names (readlines text))
          /\ Story.load_if_valid rt fs p
             = Return (inl [py "Duplicate header: Duplicate key found: " ++ k])
          /\ Novel.load_if_valid rt fs p
             = Return (inl [py "Duplicate header: Duplicate key found: " ++ k])).
Proof.
  split.
  - intros Hf. unfold Story.load_if_valid, Novel.load_if_valid, TopPage.load_if_valid.
    by rewrite Hf.
  - intros text Hf Hread Hdup.
    destruct (md_to_json_repeat fs p text Hread Hdup) as (k & Hk & Hraise).
    exists k. split; [done|].
    unfold Story.load_if_valid, Novel.load_if_valid. rewrite Hf, Hraise.
    split; reflexivity.
Qed.

Lemma fatal_conditions_single_error_witness :
  exists k,
    In k [py "title"; py "number"; py "title"]
    /\ Story.load_if_valid sample_runtime
         (Dir [(py "1.md", text_file 0 "# title
a
# number
x
# title
b
")]) [py "1.md"]
       = Return (inl [py "Duplicate header: Duplicate key found: " ++ k])
    /\ Novel.load_if_valid sample_runtime
         (Dir [(py "1.md", text_file 0 "# title
a
# number
x
# title
b
")]) [py "1.md"]
       = Return (inl [py "Duplicate header: Duplicate key found: " ++ k]).
Proof.
  refine (proj2 (fatal_conditions_single_error sample_runtime
                   (Dir [(py "1.md", text_file 0 "# title
a
# number
x
# title
b
")]) [py "1.md"])
            (py "# title
a
# number
x
# title
b
") _ _ _);
    [reflexivity | reflexivity |].
  intros H. apply (bool_decide_pack _) in H. vm_compute in H. exact H.
Defined.

Lemma strip_In (s : str) (c : Z) : In c (strip s) -> In c s.
Proof.
  assert (forall t, In c (lstrip t) -> In c t) as Hl.
  { induction t as [|x t IH]; [done|]. simpl. destruct (isspace x); [|done].
    intros H. right. by apply IH. }
  unfold strip, rstrip. intros H. apply in_rev in H. apply Hl in H.
  apply in_rev in H. by apply Hl.
Qed.

Lemma lstrip_head (s : str) (c : Z) (t : str) :
  lstrip s = c :: t -> isspace c = false.
Proof.
  induction s as [|x s IH]; [done|]. simpl.
  destruct (isspace x) eqn:E; [done|]. by intros [= <- _].
Qed.

Lemma lstrip_suffix (s : str) : exists w, s = w ++ lstrip s.
Proof.
  induction s as [|x s [w IH]]; [by exists []|]. simpl.
  destruct (isspace x); [|by exists []]. exists (x :: w). simpl. by rewrite <- IH.
Qed.

Lemma rstrip_prefix (s : str) : exists w, s = rstrip s ++ w.
Proof.
  unfold rstrip. destruct (lstrip_suffix (rev s)) as [w Hw].
  exists (rev w). rewrite <- rev_app_distr, <- Hw. by rewrite rev_involutive.
Qed.

(** What [strip] returns has no whitespace at either end. *)
Lemma strip_ends (s : str) :
  (forall c t, strip s = c :: t -> isspace c = false)
  /\ (forall c t, strip s = t ++ [c] -> isspace c = false).
Proof.
  split; intros c t E.
  - unfold strip in E. destruct (rstrip_prefix (lstrip s)) as [w Hw].
    rewrite E in Hw. simpl in Hw. by eapply lstrip_head.
  - unfold strip, rstrip in E. apply (f_equal (@rev Z)) in E.
    rewrite rev_involutive, rev_app_distr in E. simpl in E.
    by eapply lstrip_head.
Qed.

Lemma has_char_false (c : Z) (s : str) : has_char c s = false <-> ~ In c s.
Proof.
  unfold has_char. rewrite <- not_true_iff_false, existsb_exists.
  split; intros H Hin; apply H.
  - exists c. split; [done | apply Z.eqb_refl].
  - destruct Hin as (x & Hx & ->%Z.eqb_eq). done.
Qed.

Lemma count_text_length_bounds (text : str) :
  0 <= Story._count_text_length text <= Z.of_nat (List.length text).
Proof.
  unfold Story._count_text_length.
  pose proof (filter_length_le (fun c => negb (has_char c [10; 13])) text). lia.
Qed.

Lemma count_text_length_pos (text : str) :
  strip text <> [] -> 1 <= Story._count_text_length text.
Proof.
  intros Hne. destruct (strip text) as [|c t] eqn:E; [done|].
  destruct (strip_ends text) as [Hhead _]. specialize (Hhead c t E).
  assert (In c text) as Hin by (apply strip_In; rewrite E; by left).
  unfold Story._count_text_length.
  assert (In c (List.filter (fun c => negb (has_char c [10; 13])) text)) as Hf.
  { apply filter_In. split; [done|]. simpl.
    destruct (Z.eqb_spec c 10) as [->|?]; [done|].
    destruct (Z.eqb_spec c 13) as [->|?]; done. }
  destruct (List.filter _ text); [done | simpl; lia].
Qed.

Lemma filter_nil_inv {A} (f : A -> bool) (l : list A) :
  List.filter f l = [] -> forall x, In x l -> f x = false.
Proof.
  induction l as [|y l IH]; [done|]. simpl. destruct (f y) eqn:E; [done|].
  intros H x [<-|Hx]; [done | by apply IH].
Qed.

Lemma if_app_nil {A} (c : bool) (l : list A) (m : A) :
  (if c then l ++ [m] else l) = [] -> c = false /\ l = [].
Proof. destruct c; [|done]. intros H. by destruct (app_cons_not_nil _ _ H). Qed.

Lemma map_nil_inv {A B} (f : A -> B) (l : list A) : map f l = [] -> l = [].
Proof. by destruct l. Qed.

(** No header error means that every header rule holds. *)
Lemma header_errors_nil_inv (rt : runtime) (data : dict str) :
  set_iter_faithful rt ->
  Story.header_errors rt data = [] ->
  (forall k, In k (dict_keys data) -> In k Story.allowed_keys)
  /\ (forall k, In k Story.allowed_keys -> dict_mem k data = true)
  /\ strip (dict_get_default (py "title") [] data) <> []
  /\ strip (dict_get_default (py "number") [] data) <> []
  /\ strip (dict_get_default (py "content") [] data) <> []
  /\ has_char 10 (dict_get_default (py "title") [] data) = false
  /\ has_char 13 (dict_get_default (py "title") [] data) = false.
Proof.
  intros Hrt. unfold Story.header_errors. cbv zeta. intros H.
  apply if_app_nil in H as [Hline H]. apply if_app_nil in H as [Hc H].
  apply if_app_nil in H as [Hn H]. apply if_app_nil in H as [Ht H].
  apply app_eq_nil in H as [H Hmiss]. apply app_eq_nil in H as [_ Hunexp].
  apply map_nil_inv in Hmiss, Hunexp.
  assert (forall k, In k Story.allowed_keys -> dict_mem k data = true) as Hall.
  { intros k Hk. apply (Permutation_in _ (Permutation_sym (Hrt _))) in Hk.
    pose proof (filter_nil_inv _ _ Hmiss k Hk) as E. simpl in E.
    by apply negb_false_iff in E. }
  rewrite (Hall (py "title")) in Ht, Hline by (by left).
  rewrite (Hall (py "number")) in Hn by (right; by left).
  rewrite (Hall (py "content")) in Hc by (right; right; by left).
  simpl in Ht, Hn, Hc, Hline.
  apply bool_decide_eq_false in Ht, Hn, Hc. apply orb_false_iff in Hline as [H10 H13].
  split; [|done].
  intros k Hk. pose proof (filter_nil_inv _ _ Hunexp k Hk) as E. simpl in E.
  apply negb_false_iff, bool_decide_eq_true in E. by apply list_elem_of_In.
Qed.

(** And conversely. *)
Lemma header_errors_none (rt : runtime) (data : dict str) :
  set_iter_faithful rt -> well_formed_story rt data ->
  Story.header_errors rt data = [].
Proof.
  intros Hrt (Hkeys & Hall & Ht & Hn & Hc & H10 & H13 & _).
  unfold Story.header_errors. cbv zeta.
  rewrite H10, H13. rewrite !(bool_decide_eq_false_2 (strip _ = [])) by done.
  rewrite !andb_false_r.
  rewrite (filter_none (fun key => negb (dict_mem key data))).
  2:{ intros k Hk. apply (Permutation_in _ (Hrt _)) in Hk. by rewrite Hall. }
  rewrite (filter_none (fun key => negb (bool_decide (key ∈ Story.allowed_keys)))).
  2:{ intros k Hk. apply negb_false_iff, bool_decide_eq_true, list_elem_of_In. auto. }
  destruct data as [|kv data]; [|done].
  specialize (Hall (py "title")). by discriminate Hall; left.
Qed.

(** X3. Under an interpreter that iterates a set as a permutation, the
    story validator returns a Story exactly for the documents that pass
    every rule (the three sections and no other, none blank, a one-line
    title, an integer number that [int] converts): the Story then holds
    the path, the title without surrounding whitespace, the integer, the
    content as it is, and the count of its characters other than line
    feeds and carriage returns. *)
Theorem story_accepted_exactly (rt : runtime) (fs : node) (p : Path)
    (data : dict str) :
  set_iter_faithful rt ->
  is_file fs p = true ->
  md_to_json fs p = Return data ->
  (forall n,
     well_formed_story rt data ->
     py_int rt (strip (dict_get_default (py "number") [] data)) = Return n ->
     Story.load_if_valid rt fs p
     = Return (inr {| Story.path := p;
                      Story.title := strip (dict_get_default (py "title") [] data);
                      Story.number := n;
                      Story.content := dict_get_default (py "content") [] data;
                      Story.length :=
                        Story._count_text_length
                          (dict_get_default (py "content") [] data) |}))
  /\ (forall s,
        Story.load_if_valid rt fs p = Return (inr s) ->
        well_formed_story rt data
        /\ py_int rt (strip (dict_get_default (py "number") [] data))
           = Return (Story.number s)).
Proof.
  intros Hrt Hfile Hdata. split.
  - intros n Hwf Hint. pose proof (header_errors_none rt data Hrt Hwf) as Herr.
    destruct Hwf as (_ & Hall & _ & Hn & _ & _ & _ & Hdig).
    unfold Story.load_if_valid. rewrite Hfile, Hdata. simpl.
    unfold Story.validate, Story.parse_number.
    rewrite (Hall (py "number")) by (right; by left).
    rewrite bool_decide_eq_false_2 by done. simpl.
    rewrite Hdig, Hint. simpl. by rewrite Herr.
  - intros s Hs. pose proof Hs as Hs'.
    apply (story_valid_inv rt fs p s Hrt) in Hs as (_ & data' & Hdata' & Herr & Hint & _).
    rewrite Hdata in Hdata'. injection Hdata' as <-.
    split; [|done].
    destruct (header_errors_nil_inv rt data Hrt Herr)
      as (Hkeys & Hall & Ht & Hn & Hc & H10 & H13).
    repeat (split; [done|]).
    unfold Story.load_if_valid in Hs'. rewrite Hfile, Hdata in Hs'. simpl in Hs'.
    unfold Story.validate, Story.parse_number in Hs'.
    rewrite (Hall (py "number")) in Hs' by (right; by left).
    rewrite bool_decide_eq_false_2 in Hs' by done. simpl in Hs'.
    destruct (Story._is_int_string rt _); [done|]. simpl in Hs'.
    destruct (Story.header_errors rt data ++ _) eqn:E; [|done].
    by destruct (app_cons_not_nil _ _ E).
Qed.

Lemma story_accepted_exactly_witness :
  Story.load_if_valid sample_runtime
    (Dir [(py "1.md", text_file 0 (story_doc " A title " "+007" "Body.
"))]) [py "1.md"]
  = Return (inr {| Story.path := [py "1.md"];
                   Story.title := py "A title";
                   Story.number := 7;
                   Story.content := py "Body.
";
                   Story.length := 5 |}).
Proof.
  refine (proj1 (story_accepted_exactly sample_runtime _ [py "1.md"]
            [(py "title", py " A title "); (py "number", py "+007");
             (py "content", py "Body.
")] sample_runtime_faithful _ _) 7 _ _); try reflexivity.
  unfold well_formed_story. repeat split; try reflexivity; try discriminate.
  - intros k [<-|[<-|[<-|[]]]]; simpl; auto.
  - intros k [<-|[<-|[<-|[]]]]; reflexivity.
Defined.

(** The title of a returned Story has no line feed. *)
Lemma valid_story_title_line (rt : runtime) (fs : node) (p : Path) (s : Story.t) :
  set_iter_faithful rt ->
  Story.load_if_valid rt fs p = Return (inr s) -> ~ In 10 (Story.title s).
Proof.
  intros Hrt Hs.
  destruct (story_valid_inv rt fs p s Hrt Hs) as (_ & data & _ & Herr & _ & E).
  destruct (header_errors_nil_inv rt data Hrt Herr) as (_ & _ & _ & _ & _ & H10 & _).
  rewrite E. simpl. apply has_char_false in H10. intros H. by apply H10, strip_In.
Qed.

(** A returned Story has at least one character. *)
Lemma valid_story_length_pos (rt : runtime) (fs : node) (p : Path) (s : Story.t) :
  set_iter_faithful rt ->
  Story.load_if_valid rt fs p = Return (inr s) -> 1 <= Story.length s.
Proof.
  intros Hrt Hs.
  destruct (story_valid_inv rt fs p s Hrt Hs) as (_ & data & _ & Herr & _ & E).
  destruct (header_errors_nil_inv rt data Hrt Herr) as (_ & _ & _ & _ & Hc & _).
  rewrite E. simpl. by apply count_text_length_pos.
Qed.

(** X4. Every Story the validator returns has a title that is not empty,
    has no line feed or carriage return and neither begins nor ends with
    whitespace; its content is not blank; and its length is the number
    of characters of the content other than line feeds and carriage
    returns, which is at least one and at most the number of characters
    of the content. *)
Theorem valid_story_shape (rt : runtime) (fs : node) (p : Path) (s : Story.t) :
  set_iter_faithful rt ->
  Story.load_if_valid rt fs p = Return (inr s) ->
  Story.path s = p
  /\ Story.title s <> []
  /\ ~ In 10 (Story.title s) /\ ~ In 13 (Story.title s)
  /\ (forall c t, Story.title s = c :: t -> isspace c = false)
  /\ (forall c t, Story.title s = t ++ [c] -> isspace c = false)
  /\ strip (Story.content s) <> []
  /\ Story.length s = Story._count_text_length (Story.content s)
  /\ 1 <= Story.length s <= Z.of_nat (List.length (Story.content s)).
Proof.
  intros Hrt Hs.
  destruct (story_valid_inv rt fs p s Hrt Hs) as (_ & data & _ & Herr & _ & E).
  destruct (header_errors_nil_inv rt data Hrt Herr)
    as (_ & _ & Ht & _ & Hc & H10 & H13).
  rewrite E. simpl. split; [done|]. split; [done|].
  apply has_char_false in H10, H13.
  split; [intros H; by apply H10, strip_In|].
  split; [intros H; by apply H13, strip_In|].
  destruct (strip_ends (dict_get_default (py "title") [] data)) as [Hh Hl].
  split; [done|]. split; [done|]. split; [done|]. split; [done|].
  split; [by apply count_text_length_pos | apply count_text_length_bounds].
Qed.

Lemma valid_story_shape_witness :
  let s := {| Story.path := [py "1.md"];
              Story.title := py "A title";
              Story.number := 7;
              Story.content := py "Body.
";
              Story.length := 5 |} in
  Story.title s <> []
  /\ 1 <= Story.length s <= Z.of_nat (List.length (Story.content s)).
Proof.
  intros s.
  destruct (valid_story_shape sample_runtime
              (Dir [(py "1.md", text_file 0 (story_doc " A title " "+007" "Body.
"))]) [py "1.md"] s sample_runtime_faithful)
    as (_ & Ht & _ & _ & _ & _ & _ & _ & Hlen); [reflexivity|].
  split; [exact Ht | exact Hlen].
Defined.

(** ** Integers written and read back *)

Lemma sample_runtime_ascii_digits : ascii_digits sample_runtime.
Proof.
  intros d Hd. simpl.
  replace ((48 <=? 48 + d) && (48 + d <=? 57)) with true.
  - split; [done|]. f_equal. lia.
  - symmetry. apply andb_true_iff. split; apply Z.leb_le; lia.
Qed.

Lemma decimal_digits_Forall (P : Z -> Prop) (fuel : nat) :
  (forall d, 0 <= d <= 9 -> P (48 + d)) ->
  forall (n : Z) (acc : str),
    0 <= n -> Forall P acc -> Forall P (decimal_digits fuel n acc).
Proof.
  intros HP. induction fuel as [|fuel IH]; intros n acc Hn Hacc; simpl; [done|].
  destruct (n <? 10) eqn:E.
  - apply Z.ltb_lt in E. constructor; [|done]. apply HP. lia.
  - apply IH; [apply Z.div_pos; lia|]. constructor; [|done].
    apply HP. pose proof (Z.mod_pos_bound n 10). lia.
Qed.

Lemma decimal_digits_suffix (fuel : nat) : forall (n : Z) (acc : str),
  exists ds, decimal_digits fuel n acc = ds ++ acc.
Proof.
  induction fuel as [|fuel IH]; intros n acc; simpl; [by exists []|].
  destruct (n <? 10); [by exists [digit_char n]|].
  destruct (IH (n / 10) (digit_char (n mod 10) :: acc)) as [ds ->].
  exists (ds ++ [digit_char (n mod 10)]). by rewrite <- app_assoc.
Qed.

(** Reading the digits printed for [n] continues from [n]. *)
Lemma int_digits_decimal (rt : runtime) (fuel : nat) :
  ascii_digits rt ->
  forall (n : Z) (acc : str),
    0 <= n < 2 ^ Z.of_nat fuel ->
    int_digits rt (decimal_digits fuel n acc) 0 = int_digits rt acc n.
Proof.
  intros Hrt. induction fuel as [|fuel IH]; intros n acc Hn.
  - simpl in *. by replace n with 0 by lia.
  - simpl decimal_digits. destruct (n <? 10) eqn:E.
    + apply Z.ltb_lt in E. simpl. unfold digit_char.
      destruct (Hrt n) as [_ ->]; [lia|]. by replace (10 * 0 + n) with n by lia.
    + apply Z.ltb_ge in E.
      replace (Z.of_nat (S fuel)) with (Z.succ (Z.of_nat fuel)) in Hn by lia.
      rewrite Z.pow_succ_r in Hn by lia.
      rewrite IH.
      * simpl. unfold digit_char.
        pose proof (Z.mod_pos_bound n 10).
        destruct (Hrt (n mod 10)) as [_ ->]; [lia|].
        f_equal. pose proof (Z.div_mod n 10). lia.
      * split; [apply Z.div_pos; lia|].
        apply Z.div_lt_upper_bound; lia.
Qed.

Lemma log2_fuel (m : Z) : 0 <= m -> 0 <= m < 2 ^ Z.of_nat (S (Z.to_nat (Z.log2 m))).
Proof.
  intros Hm. split; [done|].
  replace (Z.of_nat (S (Z.to_nat (Z.log2 m)))) with (Z.succ (Z.log2 m))
    by (pose proof (Z.log2_nonneg m); lia).
  destruct (Z.eq_dec m 0) as [->|Hne]; [done|].
  apply Z.log2_spec. lia.
Qed.

(** X5. Under an interpreter whose ASCII digits are decimal digits with
    their usual values, the decimal string of any integer (within the
    conversion limit, if there is one) is an integer string for
    [_is_int_string], and [int] reads the same integer back from it: a
    number printed by the program is accepted again with its value. *)
Theorem int_string_round_trip (rt : runtime) (n : Z) :
  ascii_digits rt ->
  over_limit rt (List.length (repr_int (Z.abs n))) = false ->
  Story._is_int_string rt (repr_int n) = true
  /\ Novel._is_int_string rt (repr_int n) = true
  /\ py_int rt (repr_int n) = Return n
  /\ py_str_int rt n = Return (repr_int n).
Proof.
  intros Hrt Hlim.
  set (m := Z.abs n) in *.
  set (ds := decimal_digits (S (Z.to_nat (Z.log2 m))) m []).
  assert (repr_int m = ds) as Hm.
  { unfold repr_int. replace (Z.abs m) with m by lia.
    by replace (m <? 0) with false by (symmetry; apply Z.ltb_ge; lia). }
  assert (Forall (fun c => isdigit_char rt c = true /\ c <> 43 /\ c <> 45) ds) as Hds.
  { apply decimal_digits_Forall; [|lia|constructor].
    intros d Hd. split; [by apply Hrt | lia]. }
  assert (ds <> []) as Hne.
  { unfold ds. simpl. destruct (m <? 10); [done|].
    destruct (decimal_digits_suffix (Z.to_nat (Z.log2 m)) (m / 10)
                [digit_char (m mod 10)]) as [pre ->].
    by destruct pre. }
  assert (isdigit rt ds = true) as Hdig.
  { unfold isdigit. destruct ds as [|c ds']; [done|].
    apply forallb_forall. intros x Hx%list_elem_of_In.
    rewrite Forall_forall in Hds. by apply Hds. }
  assert (int_digits rt ds 0 = Some m) as Hval.
  { unfold ds. rewrite int_digits_decimal; [done | done | apply log2_fuel; lia]. }
  rewrite Hm in Hlim.
  assert (repr_int n = if n <? 0 then 45 :: ds else ds) as Hrepr by done.
  assert (Story._is_int_string rt (repr_int n) = true) as Hstory.
  { rewrite Hrepr. destruct (n <? 0); [done|].
    destruct ds as [|c ds']; [done|].
    apply Forall_cons in Hds as [(_ & H43 & H45) _].
    unfold Story._is_int_string.
    replace (has_char c (py "+-")) with false; [done|].
    symmetry. apply has_char_false. change (py "+-") with [43; 45].
    intros [?|[?|[]]]; congruence. }
  split; [done|]. split; [exact Hstory|]. split.
  - rewrite Hrepr. unfold py_int. destruct (n <? 0) eqn:E.
    + replace (45 =? 45) with true by done. rewrite Hlim.
      destruct ds; [done|]. rewrite Hval.
      apply Z.ltb_lt in E. f_equal. lia.
    + destruct ds as [|c ds']; [done|].
      apply Forall_cons in Hds as [(_ & H43 & H45) _].
      replace (c =? 45) with false by (symmetry; by apply Z.eqb_neq).
      replace (c =? 43) with false by (symmetry; by apply Z.eqb_neq).
      rewrite Hlim, Hval. apply Z.ltb_ge in E. f_equal. lia.
  - unfold py_str_int. fold m. by rewrite Hm, Hlim.
Qed.

Lemma int_string_round_trip_witness :
  Story._is_int_string sample_runtime (repr_int (-1001)) = true
  /\ Novel._is_int_string sample_runtime (repr_int (-1001)) = true
  /\ py_int sample_runtime (repr_int (-1001)) = Return (-1001)
  /\ py_str_int sample_runtime (-1001) = Return (repr_int (-1001)).
Proof.
  apply int_string_round_trip; [apply sample_runtime_ascii_digits | reflexivity].
Defined.

(** ** The hash input *)

Lemma leb_true (a b : Z) : a <= b -> (a <=? b) = true.
Proof. apply Z.leb_le. Qed.
Lemma leb_false (a b : Z) : b < a -> (a <=? b) = false.
Proof. apply Z.leb_gt. Qed.
Lemma ltb_true (a b : Z) : a < b -> (a <? b) = true.
Proof. apply Z.ltb_lt. Qed.
Lemma ltb_false (a b : Z) : b <= a -> (a <? b) = false.
Proof. apply Z.ltb_ge. Qed.
Lemma eqb_false (a b : Z) : a <> b -> (a =? b) = false.
Proof. apply Z.eqb_neq. Qed.

(** Decides the comparisons of the goal from linear facts. *)
Ltac decide_comparisons :=
  repeat match goal with
  | |- context [?a <=? ?b] =>
    first [rewrite (leb_true a b) by lia | rewrite (leb_false a b) by lia]
  | |- context [?a <? ?b] =>
    first [rewrite (ltb_true a b) by lia | rewrite (ltb_false a b) by lia]
  | |- context [?a =? ?b] =>
    first [rewrite (eqb_false a b) by lia
          | replace (a =? b) with true by (symmetry; apply Z.eqb_eq; lia)]
  end.

(** Decoding the encoding of one character gives it back. *)
Lemma utf8_decode_char (c : Z) (rest : bytes) :
  is_scalar c = true ->
  utf8_decode (utf8_encode_char c ++ rest) = cons c <$> utf8_decode rest.
Proof.
  intros Hc. apply is_scalar_iff in Hc. unfold utf8_encode_char.
  destruct (Z.ltb_spec c 128).
  { simpl. unfold is_cont. decide_comparisons. done. }
  destruct (Z.ltb_spec c 2048).
  { assert (2 <= c / 64 <= 31 /\ 0 <= c mod 64 <= 63
            /\ c / 64 * 64 + c mod 64 = c) as (Q1 & Q2 & Q3)
      by (Z.div_mod_to_equations; lia).
    set (q := c / 64) in *. set (r := c mod 64) in *.
    simpl. unfold is_cont. decide_comparisons. simpl.
    by replace ((192 + q - 192) * 64 + (128 + r - 128)) with c by lia. }
  destruct (Z.ltb_spec c 65536).
  { assert (0 <= c / 4096 <= 15 /\ 0 <= (c / 64) mod 64 <= 63
            /\ 0 <= c mod 64 <= 63
            /\ c / 4096 * 4096 + (c / 64) mod 64 * 64 + c mod 64 = c)
      as (Q1 & Q2 & Q3 & Q4) by (Z.div_mod_to_equations; lia).
    set (q := c / 4096) in *. set (r := (c / 64) mod 64) in *.
    set (t := c mod 64) in *.
    simpl. unfold is_cont. decide_comparisons. simpl.
    destruct (Z.eqb_spec (224 + q) 224); destruct (Z.eqb_spec (224 + q) 237);
      decide_comparisons; simpl;
      by replace ((224 + q - 224) * 4096 + (128 + r - 128) * 64 + (128 + t - 128))
        with c by lia. }
  assert (0 <= c / 262144 <= 4 /\ 0 <= (c / 4096) mod 64 <= 63
          /\ 0 <= (c / 64) mod 64 <= 63 /\ 0 <= c mod 64 <= 63
          /\ c / 262144 * 262144 + (c / 4096) mod 64 * 4096
             + (c / 64) mod 64 * 64 + c mod 64 = c)
    as (Q1 & Q2 & Q3 & Q4 & Q5) by (Z.div_mod_to_equations; lia).
  set (q := c / 262144) in *. set (r := (c / 4096) mod 64) in *.
  set (t := (c / 64) mod 64) in *. set (u := c mod 64) in *.
  simpl. unfold is_cont. decide_comparisons. simpl.
  destruct (Z.eqb_spec (240 + q) 240); destruct (Z.eqb_spec (240 + q) 244);
    decide_comparisons; simpl;
    by replace ((240 + q - 240) * 262144 + (128 + r - 128) * 4096
                + (128 + t - 128) * 64 + (128 + u - 128)) with c by lia.
Qed.

(** Decoding an encoding gives the string back. *)
Lemma utf8_round_trip (s : str) : forall encoded,
  utf8_encode s = Some encoded -> utf8_decode encoded = Some s.
Proof.
  induction s as [|c s IH]; intros encoded; simpl.
  - by intros [= <-].
  - destruct (is_scalar c) eqn:Hc; [|done].
    destruct (utf8_encode s) as [e|]; simpl; [|done]. intros [= <-].
    rewrite utf8_decode_char by done. by rewrite (IH e).
Qed.

Lemma utf8_encode_inj (s1 s2 : str) (encoded : bytes) :
  utf8_encode s1 = Some encoded -> utf8_encode s2 = Some encoded -> s1 = s2.
Proof.
  intros H1%utf8_round_trip H2%utf8_round_trip. congruence.
Qed.

(** Two texts cut at their first line feed agree part by part. *)
Lemma split_at_line_feed (a b x y : str) :
  ~ In 10 a -> ~ In 10 b -> a ++ 10 :: x = b ++ 10 :: y -> a = b /\ x = y.
Proof.
  revert b. induction a as [|c a IH]; intros [|d b] Ha Hb E; simpl in E.
  - by injection E as <-.
  - injection E as <- _. destruct Hb. by left.
  - injection E as -> _. destruct Ha. by left.
  - injection E as <- E. destruct (IH b) as [-> ->]; [| |done|done].
    + intros H. apply Ha. by right.
    + intros H. apply Hb. by right.
Qed.

Lemma repr_int_nonneg (m : Z) :
  0 <= m ->
  repr_int m = decimal_digits (S (Z.to_nat (Z.log2 m))) m [].
Proof.
  intros Hm. unfold repr_int. replace (Z.abs m) with m by lia.
  by replace (m <? 0) with false by (symmetry; apply Z.ltb_ge; lia).
Qed.

Lemma repr_int_value (rt : runtime) (m : Z) :
  ascii_digits rt -> 0 <= m -> int_digits rt (repr_int m) 0 = Some m.
Proof.
  intros Hrt Hm. rewrite repr_int_nonneg by done.
  rewrite int_digits_decimal; [done | done | by apply log2_fuel].
Qed.

Lemma repr_int_digits (m : Z) :
  0 <= m -> Forall (fun c => 48 <= c <= 57) (repr_int m).
Proof.
  intros Hm. rewrite repr_int_nonneg by done.
  apply decimal_digits_Forall; [lia | done | constructor].
Qed.

Lemma repr_int_sign (n : Z) :
  repr_int n = if n <? 0 then 45 :: repr_int (Z.abs n) else repr_int (Z.abs n).
Proof.
  unfold repr_int. replace (Z.abs (Z.abs n)) with (Z.abs n) by lia.
  by replace (Z.abs n <? 0) with false by (symmetry; apply Z.ltb_ge; lia).
Qed.

(** Different integers are printed differently. *)
Lemma repr_int_inj (a b : Z) : repr_int a = repr_int b -> a = b.
Proof.
  rewrite (repr_int_sign a), (repr_int_sign b).
  pose proof (repr_int_digits (Z.abs a) (Z.abs_nonneg a)) as Ha.
  pose proof (repr_int_digits (Z.abs b) (Z.abs_nonneg b)) as Hb.
  pose proof (repr_int_value sample_runtime (Z.abs a) sample_runtime_ascii_digits
                (Z.abs_nonneg a)) as Va.
  pose proof (repr_int_value sample_runtime (Z.abs b) sample_runtime_ascii_digits
                (Z.abs_nonneg b)) as Vb.
  destruct (Z.ltb_spec a 0), (Z.ltb_spec b 0); intros E.
  - injection E as E. rewrite E, Vb in Va. injection Va. lia.
  - rewrite <- E in Hb. apply Forall_cons in Hb as [Hb _]. lia.
  - rewrite E in Ha. apply Forall_cons in Ha as [Ha _]. lia.
  - rewrite E, Vb in Va. injection Va. lia.
Qed.

Lemma repr_int_no_line_feed (n : Z) : ~ In 10 (repr_int n).
Proof.
  rewrite repr_int_sign.
  pose proof (repr_int_digits (Z.abs n) (Z.abs_nonneg n)) as H.
  rewrite Forall_forall in H.
  destruct (n <? 0); [intros [?|Hin]; [done|] | intros Hin];
    apply list_elem_of_In, H in Hin; lia.
Qed.

(** X6. The text [Story.hash] digests determines the Story: when two
    Stories returned by the validator have hash inputs with the same UTF-8
    encoding, they have the same title, number and content. (The hash is
    the digest of that encoding.) The layout with line feeds is therefore
    unambiguous: two valid Stories that differ in content can have the
    same hash only through a collision of SHA-256. *)
Theorem hash_input_unambiguous (rt : runtime) (fs1 fs2 : node) (p1 p2 : Path)
    (s1 s2 : Story.t) (encoded : bytes) :
  runtime_ok rt ->
  Story.load_if_valid rt fs1 p1 = Return (inr s1) ->
  Story.load_if_valid rt fs2 p2 = Return (inr s2) ->
  utf8_encode (hash_input s1) = Some encoded ->
  Story.hash rt s1 = Return (hexdigest (sha256 encoded))
  /\ (utf8_encode (hash_input s2) = Some encoded ->
      Story.title s1 = Story.title s2
      /\ Story.number s1 = Story.number s2
      /\ Story.content s1 = Story.content s2).
Proof.
  intros Hok H1 H2 E1. split.
  - unfold Story.hash. rewrite (story_valid_printable rt fs1 p1 s1 Hok H1).
    simpl. unfold hash_input in E1. simpl in E1. by rewrite E1.
  - destruct Hok as [Hrt _].
    intros E2. pose proof (utf8_encode_inj _ _ _ E1 E2) as E.
    pose proof (valid_story_title_line rt fs1 p1 s1 Hrt H1) as T1.
    pose proof (valid_story_title_line rt fs2 p2 s2 Hrt H2) as T2.
    unfold hash_input in E. simpl in E.
    apply split_at_line_feed in E as [Et E]; [|done|done].
    apply split_at_line_feed in E as [En Ec]; [|apply repr_int_no_line_feed..].
    apply repr_int_inj in En. done.
Qed.

Lemma hash_input_unambiguous_witness :
  Story.hash sample_runtime
    {| Story.path := [py "1.md"]; Story.title := py "A title";
       Story.number := 7; Story.content := py "Body.
"; Story.length := 5 |}
  = Return (py "e4325dc46ded9a1c6925e84da34c56934fc9769cecd827b754149cfde2c00a96").
Proof.
  etrans.
  - refine (proj1 (hash_input_unambiguous sample_runtime
              (Dir [(py "1.md", text_file 0 (story_doc " A title " "+007" "Body.
"))])
              (Dir [(py "1.md", text_file 0 (story_doc " A title " "+007" "Body.
"))]) [py "1.md"] [py "1.md"] _
              {| Story.path := [py "1.md"]; Story.title := py "A title";
                 Story.number := 7; Story.content := py "Body.
"; Story.length := 5 |}
              (octets "A title
7
Body.
") sample_runtime_ok _ _ _)); reflexivity.
  - vm_compute. reflexivity.
Defined.

(** ** Story numbers within a novel *)

Lemma tally_counter_add (c : list (Z * nat)) (x y : Z) :
  tally (counter_add c x) y = (tally c y + (if (y =? x)%Z then 1 else 0))%nat.
Proof.
  induction c as [|[z k] c IH]; simpl.
  - destruct (y =? x); lia.
  - destruct (Z.eqb_spec x z) as [->|Hxz]; simpl.
    + destruct (y =? z); lia.
    + destruct (Z.eqb_spec y z) as [->|Hyz]; [|done].
      replace (z =? x) with false by (symmetry; apply Z.eqb_neq; congruence). lia.
Qed.

Lemma counter_add_keys (c : list (Z * nat)) (x : Z) :
  NoDup (map fst c) -> NoDup (map fst (counter_add c x)).
Proof.
  induction c as [|[z k] c IH]; simpl; intros Hnd.
  - apply NoDup_singleton.
  - apply NoDup_cons in Hnd as [Hz Hnd].
    destruct (Z.eqb_spec x z) as [->|Hxz]; simpl; [by apply NoDup_cons|].
    apply NoDup_cons. split; [|by apply IH].
    rewrite list_elem_of_In in Hz |- *. intros Hin.
    apply in_map_iff in Hin as ([z' k'] & E & Hin). simpl in E. subst z'.
    apply counter_add_In in Hin as [?|?]; congruence.
Qed.

Lemma tally_In (c : list (Z * nat)) (y : Z) (k : nat) :
  NoDup (map fst c) -> In (y, k) c -> tally c y = k.
Proof.
  induction c as [|[z j] c IH]; [done|]. simpl.
  intros [Hz Hnd]%NoDup_cons [[= -> ->]|Hin].
  - by rewrite Z.eqb_refl.
  - destruct (Z.eqb_spec y z) as [->|?]; [|by apply IH].
    destruct Hz. apply list_elem_of_In, in_map_iff. by exists (z, k).
Qed.

Lemma tally_pos (c : list (Z * nat)) (y : Z) :
  (0 < tally c y)%nat -> In (y, tally c y) c.
Proof.
  induction c as [|[z j] c IH]; simpl; [lia|].
  destruct (Z.eqb_spec y z) as [->|?]; [by left | right; auto].
Qed.

(** [Counter] holds each distinct value once, with the number of its
    occurrences. *)
Lemma Counter_spec (xs : list Z) :
  NoDup (map fst (Counter xs))
  /\ forall y, tally (Counter xs) y = count_occ Z.eq_dec xs y.
Proof.
  unfold Counter.
  assert (forall acc, NoDup (map fst acc) ->
            NoDup (map fst (fold_left counter_add xs acc))
            /\ forall y, tally (fold_left counter_add xs acc) y
                         = (tally acc y + count_occ Z.eq_dec xs y)%nat) as H.
  { induction xs as [|x xs IH]; intros acc Hnd; simpl.
    - split; [done|]. intros y. lia.
    - destruct (IH (counter_add acc x) (counter_add_keys _ _ Hnd)) as [Hk Ht].
      split; [done|]. intros y. rewrite Ht, tally_counter_add.
      destruct (Z.eq_dec x y) as [->|Hne].
      + rewrite Z.eqb_refl. lia.
      + replace (y =? x) with false by (symmetry; apply Z.eqb_neq; congruence). lia. }
  destruct (H [] (NoDup_nil_2)) as [Hk Ht]. split; [done|].
  intros y. by rewrite Ht.
Qed.

(** The numbers the duplicate check reports: those that occur more than
    once, each once. *)
Lemma duplicated_numbers (xs : list Z) :
  let reported := map fst (List.filter (fun nc => (1 <? snd nc)%nat) (Counter xs)) in
  NoDup reported
  /\ forall y, In y reported <-> (2 <= count_occ Z.eq_dec xs y)%nat.
Proof.
  destruct (Counter_spec xs) as [Hk Ht]. cbv zeta. split.
  - assert (forall c : list (Z * nat), NoDup (map fst c) ->
              NoDup (map fst (List.filter (fun nc => (1 <? snd nc)%nat) c))) as H.
    { induction c as [|[z k] c IH]; [done|]. simpl.
      intros [Hz Hnd]%NoDup_cons. destruct (1 <? k)%nat; simpl; [|by apply IH].
      apply NoDup_cons. split; [|by apply IH].
      rewrite list_elem_of_In in Hz |- *. intros Hin. apply Hz.
      apply in_map_iff in Hin as (e & E & Hin). apply filter_In in Hin as [Hin _].
      apply in_map_iff. by exists e. }
    by apply H.
  - intros y. rewrite <- Ht. split.
    + intros Hin. apply in_map_iff in Hin as ([z k] & E & Hin). simpl in E. subst z.
      apply filter_In in Hin as [Hin Hk2]. simpl in Hk2.
      rewrite (tally_In _ _ _ Hk Hin). apply Nat.ltb_lt in Hk2. lia.
    + intros H2. apply in_map_iff. exists (y, tally (Counter xs) y).
      split; [done|]. apply filter_In. split; [apply tally_pos; lia|].
      simpl. apply Nat.ltb_lt. lia.
Qed.

Lemma sorted_strict {A} (f : A -> Z) (l : list A) :
  StronglySorted (fun a b => f a <= f b) l -> NoDup (map f l) ->
  StronglySorted (fun a b => f a < f b) l.
Proof.
  induction 1 as [|x l Hl IH Hx]; simpl; [constructor|].
  intros [Hnx Hnd]%NoDup_cons. constructor; [by apply IH|].
  rewrite Forall_forall in Hx |- *. intros y Hy.
  specialize (Hx y Hy). simpl in Hx.
  assert (f x <> f y); [|lia].
  intros E. apply Hnx. rewrite E. apply list_elem_of_In, in_map, list_elem_of_In, Hy.
Qed.

(** X7. The stories of a Novel returned by the validator have pairwise
    distinct numbers, so they are stored in strictly ascending order of
    number. *)
Theorem valid_novel_numbers_distinct (rt : runtime) (fs : node) (p : Path)
    (n : Novel.t) :
  Novel.load_if_valid rt fs p = Return (inr n) ->
  NoDup (map Story.number (Novel.stories n))
  /\ StronglySorted number_lt (Novel.stories n).
Proof.
  intros Hn.
  destruct (novel_valid_inv _ _ _ _ Hn)
    as (_ & data & ix & files & loaded & _ & _ & _ & _ & _ & Hdup & _
        & _ & Hst & _).
  assert (NoDup (map Story.number loaded)) as Hnd.
  { unfold Novel.duplicate_errors in Hdup. apply for_each_nil in Hdup.
    apply NoDup_ListNoDup, (NoDup_count_occ Z.eq_dec). intros x.
    destruct (duplicated_numbers (map Story.number loaded)) as [_ Hrep].
    destruct (le_lt_dec (count_occ Z.eq_dec (map Story.number loaded) x) 1) as [?|H2];
      [done|].
    apply Hrep in H2. by rewrite Hdup in H2. }
  assert (NoDup (map Story.number (Novel.stories n))) as Hnd'.
  { rewrite Hst. eapply NoDup_Permutation_proper; [|exact Hnd].
    apply Permutation_map, sorted_perm. }
  split; [done|].
  apply (sorted_strict Story.number); [|done].
  rewrite Hst. apply sorted_by_number.
Qed.

Lemma valid_novel_numbers_distinct_witness :
  exists n,
    Novel.load_if_valid sample_runtime chaptered_valid [py "n1"; py "index.md"]
    = Return (inr n)
    /\ NoDup (map Story.number (Novel.stories n))
    /\ StronglySorted number_lt (Novel.stories n).
Proof.
  eexists. split; [lazy; reflexivity|].
  apply (valid_novel_numbers_distinct sample_runtime chaptered_valid
           [py "n1"; py "index.md"]).
  lazy. reflexivity.
Defined.

Lemma duplicate_text_inj (a b : Z) : duplicate_text a = duplicate_text b -> a = b.
Proof. unfold duplicate_text. intros E%app_inv_head. by apply repr_int_inj. Qed.

Lemma NoDup_map_inj {A B} (f : A -> B) (l : list A) :
  (forall a b, f a = f b -> a = b) -> NoDup l -> NoDup (map f l).
Proof.
  intros Hinj. induction 1 as [|x l Hx Hl IH]; simpl; [constructor|].
  constructor; [|done].
  intros Hin%list_elem_of_In. apply in_map_iff in Hin as (y & E & Hy).
  apply Hinj in E. subst. by apply Hx, list_elem_of_In.
Qed.

(** The duplicate check, when every number can be printed: one message
    for each number that occurs more than once. *)
Lemma duplicate_errors_spec (rt : runtime) (stories : list Story.t) :
  (forall s, In s stories ->
     py_str_int rt (Story.number s) = Return (repr_int (Story.number s))) ->
  Novel.duplicate_errors rt stories
  = Return (map duplicate_text
      (map fst (List.filter (fun nc => (1 <? snd nc)%nat)
                  (Counter (map Story.number stories))))).
Proof.
  intros Hp. unfold Novel.duplicate_errors. rewrite map_map.
  apply for_each_map. intros [y k] [Hin _]%filter_In. apply Counter_In in Hin.
  apply in_map_iff in Hin as (s & <- & Hs). simpl. by rewrite (Hp s Hs).
Qed.

(** The chapter check returns when every number can be printed. *)
Lemma chapter_errors_total (rt : runtime) (hc : bool) (cd : option (dict Z))
    (stories : list Story.t) :
  (forall s, In s stories ->
     py_str_int rt (Story.number s) = Return (repr_int (Story.number s))) ->
  exists un, Novel.chapter_errors rt hc cd stories = Return un.
Proof.
  intros Hp. unfold Novel.chapter_errors.
  destruct hc; [|by eexists]. destruct cd as [[|tb bounds]|]; try by eexists.
  eexists. apply (for_each_map _ no_chapter_text).
  intros s [Hs _]%filter_In. unfold Novel.no_chapter_message.
  by rewrite (Hp s Hs).
Qed.

Lemma loaded_printable (rt : runtime) (fs : node) (files : list Path)
    (errs : list str) (loaded : list Story.t) :
  runtime_ok rt ->
  Novel.load_stories rt fs files [] [] = Return (errs, loaded) ->
  forall s, In s loaded ->
    py_str_int rt (Story.number s) = Return (repr_int (Story.number s)).
Proof.
  intros Hrt Hload s Hs.
  destruct (load_stories_inv _ _ _ _ _ _ _ Hload) as (_ & added & -> & Hadd).
  destruct (Hadd s Hs) as (f & _ & Hf). by eapply story_valid_printable.
Qed.

(** X8. When the index document is valid and a number occurs on two or
    more of the stories read from the directory, the duplicate check gives
    one message for each such number, each once, and nothing for the
    others; the validator then returns errors, among them the message for
    that number, and builds no Novel. *)
Theorem duplicate_numbers_reported (rt : runtime) (fs : node) (p : Path)
    (data : dict str) (ix : Novel.index) (files : list Path)
    (errs : list str) (loaded : list Story.t) (x : Z) :
  runtime_ok rt ->
  is_file fs p = true ->
  md_to_json fs p = Return data ->
  Novel.check_index rt data = Return ix ->
  Novel.errors ix = [] ->
  Novel.story_files fs (parent p) = Return files ->
  Novel.load_stories rt fs files [] [] = Return (errs, loaded) ->
  (2 <= count_occ Z.eq_dec (map Story.number loaded) x)%nat ->
  exists dups errors,
    Novel.duplicate_errors rt loaded = Return dups
    /\ NoDup dups
    /\ (forall y, In (duplicate_text y) dups
                  <-> (2 <= count_occ Z.eq_dec (map Story.number loaded) y)%nat)
    /\ Novel.load_if_valid rt fs p = Return (inl errors)
    /\ In (duplicate_text x) errors.
Proof.
  intros Hrt Hfile Hdata Hix Herr Hfiles Hload Hx.
  pose proof (loaded_printable rt fs files errs loaded Hrt Hload) as Hprint.
  destruct (duplicated_numbers (map Story.number loaded)) as [Hnd Hrep].
  cbv zeta in Hnd, Hrep.
  set (reported := map fst (List.filter (fun nc => (1 <? snd nc)%nat)
                              (Counter (map Story.number loaded)))) in *.
  pose proof (duplicate_errors_spec rt loaded Hprint) as Hdups. fold reported in Hdups.
  destruct (chapter_errors_total rt (Novel.ix_has_chapters ix)
              (Novel.chapters_dict ix) loaded Hprint) as [un Hun].
  assert (forall y, In (duplicate_text y) (map duplicate_text reported)
                    <-> (2 <= count_occ Z.eq_dec (map Story.number loaded) y)%nat)
    as Hiff.
  { intros y. rewrite <- Hrep. split; [|apply in_map].
    intros (z & E & Hz)%in_map_iff. apply duplicate_text_inj in E. by subst. }
  exists (map duplicate_text reported).
  exists ((errs ++ map duplicate_text reported) ++ un).
  split; [done|]. split; [apply NoDup_map_inj; [apply duplicate_text_inj | done]|].
  split; [done|].
  assert (In (duplicate_text x) ((errs ++ map duplicate_text reported) ++ un)) as Hin.
  { apply in_app_iff. left. apply in_app_iff. right. by apply Hiff. }
  split; [|done].
  unfold Novel.load_if_valid. rewrite Hfile, Hdata. simpl.
  rewrite Hix. simpl. rewrite Herr. unfold Novel.build.
  rewrite Hfiles. simpl. rewrite Herr, Hload. simpl. rewrite Hdups. simpl.
  rewrite Hun. simpl.
  by destruct ((errs ++ map duplicate_text reported) ++ un).
Qed.

Lemma duplicate_numbers_reported_witness :
  let loaded :=
    [{| Story.path := [py "n1"; py "a.md"]; Story.title := py "First";
        Story.number := 1; Story.content := py "one"; Story.length := 3 |};
     {| Story.path := [py "n1"; py "b.md"]; Story.title := py "Second";
        Story.number := 1; Story.content := py "two"; Story.length := 3 |}] in
  exists dups errors,
    Novel.duplicate_errors sample_runtime loaded = Return dups
    /\ NoDup dups
    /\ (forall y, In (duplicate_text y) dups
                  <-> (2 <= count_occ Z.eq_dec (map Story.number loaded) y)%nat)
    /\ Novel.load_if_valid sample_runtime duplicated_novel [py "n1"; py "index.md"]
       = Return (inl errors)
    /\ In (duplicate_text 1) errors.
Proof.
  intros loaded.
  eapply (duplicate_numbers_reported sample_runtime duplicated_novel
            [py "n1"; py "index.md"] _ _ _ _ loaded 1 sample_runtime_ok).
  - lazy; reflexivity.
  - lazy; reflexivity.
  - lazy; reflexivity.
  - lazy; reflexivity.
  - lazy; reflexivity.
  - lazy; reflexivity.
  - lazy; reflexivity.
Defined.

(** ** The chapters and flags of a valid novel *)

Lemma chapters_scan_values (rt : runtime) (lines : list str) :
  forall tmp titles_seen nums_seen errs tmp',
  Novel.chapters_scan rt lines tmp titles_seen nums_seen = Return (errs, tmp') ->
  (forall k, In k (dict_keys tmp) -> k ∈ titles_seen) ->
  NoDup (map snd tmp) ->
  (forall v, In v (map snd tmp) -> v ∈ nums_seen) ->
  NoDup (map snd tmp').
Proof.
  induction lines as [|l lines IH]; intros tmp ts ns errs tmp'; simpl.
  - by intros [= <- <-].
  - destruct (negb (has_char 58 l)); [intros [= <- <-] _ _ _; constructor|].
    destruct (split_once 58 l) as [k v].
    destruct (bool_decide (strip k = []) || bool_decide (strip v = []));
      [intros [= <- <-] _ _ _; constructor|].
    destruct (bool_decide (strip k ∈ ts)) eqn:Hk; [intros [= <- <-] _ _ _; constructor|].
    destruct (negb (Novel._is_int_string rt (strip v)));
      [intros [= <- <-] _ _ _; constructor|].
    destruct (py_int rt (strip v)) as [num|]; simpl; [|done].
    destruct (bool_decide (num ∈ ns)) eqn:Hnum; [intros [= <- <-] _ _ _; constructor|].
    apply bool_decide_eq_false in Hk, Hnum.
    intros H Hkeys Hnd Hvals.
    assert (~ In (strip k) (dict_keys tmp)) as Hnew by (intros Hin; by apply Hk, Hkeys).
    rewrite dict_set_new in H by done.
    eapply IH; [exact H| | |].
    + intros k'. unfold dict_keys. rewrite map_app, in_app_iff. simpl.
      intros [Hin|[<-|[]]]; [apply elem_of_union_r; by apply Hkeys | set_solver].
    + rewrite map_app. simpl. apply NoDup_app. split; [done|].
      split; [|apply NoDup_singleton].
      intros x Hx ->%list_elem_of_singleton. by apply Hnum, Hvals, list_elem_of_In.
    + intros x. rewrite map_app, in_app_iff. simpl.
      intros [Hin|[<-|[]]]; [apply elem_of_union_r; by apply Hvals | set_solver].
Qed.

Lemma chapters_block_values (rt : runtime) (chapters_val : option str)
    (errors errors' : list str) (ch : dict Z) (hc : bool) :
  Novel.chapters_block rt chapters_val errors = Return (errors', Some ch, hc) ->
  NoDup (map snd ch).
Proof.
  unfold Novel.chapters_block. destruct chapters_val as [v|]; [|done].
  destruct (Novel.stripped_lines v) as [|l0 lines]; [done|].
  destruct (Novel.chapters_scan rt (l0 :: lines) [] ∅ ∅) as [[errs tmp]|] eqn:Hs;
    simpl; [|done].
  pose proof Hs as Hk. apply chapters_scan_NoDup in Hk; [|constructor].
  apply chapters_scan_values in Hs; [|done|constructor|done].
  destruct tmp as [|kv tmp]; [done|].
  destruct (errors ++ errs); [|done]. intros [= _ <- _].
  set (items := sorted_by_key Z.ltb snd (kv :: tmp)).
  assert (Permutation items (kv :: tmp)) as Hperm by apply sorted_perm.
  rewrite dict_of_items_NoDup.
  - eapply NoDup_Permutation_proper; [|exact Hs]. by apply Permutation_map.
  - eapply NoDup_Permutation_proper; [|exact Hk].
    unfold dict_keys. by apply Permutation_map.
Qed.

Lemma links_block_flag (v : option str) (errors errors' : list str)
    (els : option str) (hel : bool) :
  Novel.links_block v errors = (errors', els, hel) ->
  (hel = true /\ els = v /\ v <> None) \/ (hel = false /\ els = None).
Proof.
  unfold Novel.links_block. destruct v as [v|]; [|intros [= _ <- <-]; by right].
  destruct (Novel.stripped_lines v) as [|l ls].
  - destruct (errors ++ _); intros [= _ <- <-]; [by left | by right].
  - destruct (errors ++ Novel.links_scan (l :: ls)); intros [= _ <- <-];
      [by left | by right].
Qed.

(** X9. In a Novel returned by the validator the flags agree with the
    optional fields: with [has_chapters] the chapters are a non-empty
    dictionary whose titles are pairwise distinct and whose boundaries
    ascend strictly, whatever the order of the lines in the document;
    without it there are no chapters; and [has_external_links] holds
    exactly when the external links are present, which are then the
    section as written. *)
Theorem valid_novel_optional_fields (rt : runtime) (fs : node) (p : Path)
    (n : Novel.t) :
  Novel.load_if_valid rt fs p = Return (inr n) ->
  (Novel.has_chapters n = true ->
   exists bounds,
     Novel.chapters n = Some bounds /\ bounds <> []
     /\ NoDup (dict_keys bounds)
     /\ StronglySorted boundary_lt bounds)
  /\ (Novel.has_chapters n = false -> Novel.chapters n = None)
  /\ (Novel.has_external_links n = true ->
      exists data v,
        md_to_json fs p = Return data
        /\ dict_get (py "external links") data = Some v
        /\ Novel.external_links n = Some v)
  /\ (Novel.has_external_links n = false -> Novel.external_links n = None).
Proof.
  unfold Novel.load_if_valid. destruct (is_file fs p); simpl; [|done].
  destruct (md_to_json fs p) as [data|[]]; try done.
  destruct (Novel.check_index rt data) as [ix|] eqn:Hix; simpl; [|done].
  destruct (Novel.errors ix) eqn:Herr; [|done].
  unfold Novel.build.
  destruct (Novel.story_files fs (parent p)) as [files|]; simpl; [|done].
  destruct (Novel.load_stories rt fs files _ []) as [[errors loaded]|]; simpl; [|done].
  destruct (Novel.duplicate_errors rt loaded) as [dups|]; simpl; [|done].
  destruct (Novel.chapter_errors rt _ _ loaded) as [un|]; simpl; [|done].
  destruct ((errors ++ dups) ++ un); [|done]. intros [= <-]. simpl.
  unfold Novel.check_index in Hix.
  destruct (Novel.links_block _ _) as [[errors1 els] hel] eqn:Hlinks.
  destruct (Novel.chapters_block rt _ errors1) as [[[errors2 cd] hc]|] eqn:Hch;
    simpl in Hix; [|done].
  injection Hix as <-. simpl.
  apply links_block_flag in Hlinks.
  pose proof (chapters_block_inv _ _ _ _ _ _ Hch) as [_ Hcases].
  split; [|split; [|split]].
  - intros ->. destruct Hcases as [[? _]|[_ (ch & -> & Hne & Hnd & Hs)]]; [done|].
    exists ch. split; [done|]. split; [done|]. split; [done|].
    apply (sorted_strict snd); [done|]. by eapply chapters_block_values.
  - intros ->. by destruct Hcases as [[_ ?]|[? _]].
  - intros ->. destruct Hlinks as [(_ & -> & Hv)|[? _]]; [|done].
    destruct (dict_get (py "external links") data) as [v|] eqn:E; [|done].
    by exists data, v.
  - intros ->. by destruct Hlinks as [(? & _)|[_ ?]].
Qed.

Lemma valid_novel_optional_fields_witness :
  exists n,
    Novel.load_if_valid sample_runtime chaptered_valid [py "n1"; py "index.md"]
    = Return (inr n)
    /\ Novel.chapters n = Some [(py "A", 1); (py "B", 10); (py "C", 20)]
    /\ Novel.external_links n = None.
Proof.
  eexists. split; [lazy; reflexivity|]. split; [reflexivity|].
  apply (valid_novel_optional_fields sample_runtime chaptered_valid
           [py "n1"; py "index.md"]); lazy; reflexivity.
Defined.

(** ** The fields of a valid novel *)

(** What the validation of [index.md] records, and that its errors begin
    with those of the fields. *)
Lemma check_index_fields (rt : runtime) (data : dict str) (ix : Novel.index) :
  Novel.check_index rt data = Return ix ->
  Novel.title_val ix = dict_get_default (py "title") [] data
  /\ Novel.tags_val ix = dict_get_default (py "tags") [] data
  /\ Novel.status_val ix = dict_get_default (py "status") [] data
  /\ exists more, Novel.errors ix = Novel.field_errors rt data ++ more.
Proof.
  unfold Novel.check_index.
  destruct (Novel.links_block _ _) as [[errors1 els] hel] eqn:Hlinks.
  destruct (Novel.chapters_block rt _ errors1) as [[[errors2 cd] hc]|] eqn:Hch;
    simpl; [|done].
  intros [= <-]. simpl. do 3 (split; [done|]).
  apply links_block_errors in Hlinks as [m1 ->].
  apply chapters_block_inv in Hch as [[m2 ->] _].
  exists (m1 ++ m2). by rewrite app_assoc.
Qed.

Lemma if_if_app_nil {A} (a b : bool) (l : list A) (m : A) :
  (if a then if b then l ++ [m] else l else l) = [] ->
  l = [] /\ (a = true -> b = false).
Proof.
  destruct a, b; try done. intros H. by destruct (app_cons_not_nil _ _ H).
Qed.

(** No field error means that the required sections are there, that no
    section is blank, that the title is one line and that the status is
    one of the three. *)
Lemma field_errors_nil_inv (rt : runtime) (data : dict str) :
  set_iter_faithful rt ->
  Novel.field_errors rt data = [] ->
  (forall k, In k Novel.required -> dict_mem k data = true)
  /\ (forall k v, In (k, v) data -> strip v <> [])
  /\ has_char 10 (dict_get_default (py "title") [] data) = false
  /\ has_char 13 (dict_get_default (py "title") [] data) = false
  /\ In (strip (dict_get_default (py "status") [] data)) Novel.VALID_STATUS.
Proof.
  intros Hrt. unfold Novel.field_errors. cbv zeta. intros H.
  apply if_if_app_nil in H as [H Hstatus].
  apply if_if_app_nil in H as [H _].
  apply if_app_nil in H as [Hline H].
  apply app_eq_nil in H as [H Hblank]. apply app_eq_nil in H as [_ Hmiss].
  apply map_nil_inv in Hmiss, Hblank.
  assert (forall k, In k Novel.required -> dict_mem k data = true) as Hall.
  { intros k Hk. apply (Permutation_in _ (Permutation_sym (Hrt _))) in Hk.
    pose proof (filter_nil_inv _ _ Hmiss k Hk) as E. simpl in E.
    by apply negb_false_iff in E. }
  split; [done|]. split.
  { intros k v Hin. pose proof (filter_nil_inv _ _ Hblank (k, v) Hin) as E.
    simpl in E. by apply bool_decide_eq_false in E. }
  rewrite (Hall (py "title")) in Hline by (by left). simpl in Hline.
  apply orb_false_iff in Hline as [H10 H13]. split; [done|]. split; [done|].
  specialize (Hstatus (Hall (py "status") ltac:(right; right; by left))).
  apply negb_false_iff, bool_decide_eq_true in Hstatus.
  by apply list_elem_of_In.
Qed.

Lemma dict_get_In {V} (k : str) (d : dict V) (v : V) :
  dict_get k d = Some v -> In (k, v) d.
Proof.
  induction d as [|[k' v'] d IH]; [done|]. simpl.
  destruct (str_eqb k k') eqn:E.
  - apply str_eqb_eq in E. subst. intros [= ->]. by left.
  - intros H. right. by apply IH.
Qed.

Lemma dict_mem_get_default {V} (k : str) (d : dict V) (dflt : V) :
  dict_mem k d = true -> In (k, dict_get_default k dflt d) d.
Proof.
  unfold dict_mem, dict_get_default. destruct (dict_get k d) as [v|] eqn:E; [|done].
  intros _. simpl. by apply dict_get_In.
Qed.

Lemma fold_add_lengths (l : list Story.t) : forall acc,
  (forall s, In s l -> 1 <= Story.length s) ->
  acc + Z.of_nat (List.length l) <= fold_left Z.add (map Story.length l) acc.
Proof.
  induction l as [|s l IH]; intros acc Hl; simpl; [lia|].
  etrans; [|apply IH; intros; apply Hl; by right].
  specialize (Hl s (or_introl eq_refl)). lia.
Qed.

(** X10. In a Novel returned by the validator (under an interpreter that
    iterates a set as a permutation) the status is one of the three
    literals, so its rank for the top page is 0, 1 or 2 and never the
    default; the title is not empty and is one line; tags and outline
    are not blank; [num_stories] is the number of stories; and
    [total_length], the sum of their lengths, is at least [num_stories],
    since every story has at least one character. *)
Theorem valid_novel_fields (rt : runtime) (fs : node) (p : Path) (n : Novel.t) :
  set_iter_faithful rt ->
  Novel.load_if_valid rt fs p = Return (inr n) ->
  In (Novel.status n) Novel.VALID_STATUS
  /\ 0 <= status_rank n <= 2
  /\ Novel.title n <> []
  /\ ~ In 10 (Novel.title n) /\ ~ In 13 (Novel.title n)
  /\ strip (Novel.tags n) <> []
  /\ strip (Novel.outline n) <> []
  /\ Novel.num_stories n = Z.of_nat (List.length (Novel.stories n))
  /\ Novel.total_length n = fold_left Z.add (map Story.length (Novel.stories n)) 0
  /\ Novel.num_stories n <= Novel.total_length n.
Proof.
  intros Hrt Hn. pose proof Hn as Hrec.
  destruct (novel_valid_inv _ _ _ _ Hn)
    as (_ & data & ix & files & loaded & Hdata & Hix & Herr & _ & Hload & _ & _
        & _ & Hst & _ & _ & Hstatus & Htitle).
  destruct (check_index_fields _ _ _ Hix) as (Et & Eg & Es & more & Em).
  rewrite Herr in Em. symmetry in Em. apply app_eq_nil in Em as [Hfe _].
  destruct (field_errors_nil_inv rt data Hrt Hfe) as (Hreq & Hnb & H10 & H13 & Hvalid).
  assert (In (Novel.status n) Novel.VALID_STATUS) as Hin
    by (by rewrite Hstatus, Es).
  assert (forall k, In k Novel.required ->
            strip (dict_get_default k [] data) <> []) as Hval.
  { intros k Hk. apply (Hnb k). apply dict_mem_get_default. by apply Hreq. }
  assert (Novel.tags n = dict_get_default (py "tags") [] data
          /\ Novel.outline n = dict_get_default (py "outline") [] data
          /\ Novel.num_stories n = Z.of_nat (List.length (Novel.stories n))
          /\ Novel.total_length n
             = fold_left Z.add (map Story.length (Novel.stories n)) 0)
    as (Etags & Eout & Enum & Etot).
  { unfold Novel.load_if_valid in Hrec.
    destruct (is_file fs p); simpl in Hrec; [|done].
    rewrite Hdata, Hix in Hrec. simpl in Hrec. rewrite Herr in Hrec.
    unfold Novel.build in Hrec.
    destruct (Novel.story_files fs (parent p)); simpl in Hrec; [|done].
    destruct (Novel.load_stories rt fs _ _ []) as [[e l]|]; simpl in Hrec; [|done].
    destruct (Novel.duplicate_errors rt l); simpl in Hrec; [|done].
    destruct (Novel.chapter_errors rt _ _ l); simpl in Hrec; [|done].
    destruct (_ ++ _) in Hrec; [|done]. injection Hrec as <-. simpl.
    by rewrite Eg. }
  split; [done|]. split.
  { unfold status_rank.
    destruct Hin as [<-|[<-|[<-|[]]]]; vm_compute; split; discriminate. }
  split; [rewrite Htitle, Et; apply Hval; by left|].
  apply has_char_false in H10, H13.
  split; [rewrite Htitle, Et; intros H; by apply H10, strip_In|].
  split; [rewrite Htitle, Et; intros H; by apply H13, strip_In|].
  split; [rewrite Etags; apply Hval; right; by left|].
  split; [rewrite Eout; apply Hval; right; right; right; by left|].
  split; [done|]. split; [done|].
  rewrite Enum, Etot. etrans; [|apply fold_add_lengths]; [lia|].
  intros s Hs. rewrite Hst in Hs. apply sorted_In in Hs.
  destruct (load_stories_inv _ _ _ _ _ _ _ Hload) as (_ & added & -> & Hadd).
  destruct (Hadd s Hs) as (f & _ & Hf).
  by apply (valid_story_length_pos rt fs f s Hrt Hf).
Qed.

Lemma valid_novel_fields_witness :
  exists n,
    Novel.load_if_valid sample_runtime chaptered_valid [py "n1"; py "index.md"]
    = Return (inr n)
    /\ Novel.num_stories n = 3 /\ Novel.total_length n = 17
    /\ 0 <= status_rank n <= 2.
Proof.
  eexists. split; [lazy; reflexivity|]. split; [reflexivity|]. split; [reflexivity|].
  match goal with
  | |- 0 <= status_rank ?n <= 2 =>
    destruct (valid_novel_fields sample_runtime chaptered_valid
                [py "n1"; py "index.md"] n sample_runtime_faithful)
      as (_ & Hrank & _); [lazy; reflexivity | exact Hrank]
  end.
Defined.

(** ** Where the stories of a novel come from *)

(** A loop over the story files that ends without an error has read one
    story from each file, in order. *)
Lemma load_stories_all (rt : runtime) (fs : node) (files : list Path) :
  forall stories loaded,
  Novel.load_stories rt fs files [] stories = Return ([], loaded) ->
  exists added,
    loaded = stories ++ added
    /\ Forall2 (fun f s => Story.load_if_valid rt fs f = Return (inr s)) files added.
Proof.
  induction files as [|sf files IH]; intros stories loaded; simpl.
  - intros [= <-]. exists []. by rewrite app_nil_r.
  - destruct (Story.load_if_valid rt fs sf) as [[msgs|s]|] eqn:Hsf; simpl; [| |done].
    + intros H. apply load_stories_inv in H as [[more Hmore] _].
      simpl in Hmore. symmetry in Hmore. apply app_eq_nil in Hmore as [Hm _].
      apply map_nil_inv in Hm. subst. by apply story_errors_nonempty in Hsf.
    + intros H. apply IH in H as (added & -> & Hall). exists (s :: added).
      split; [by rewrite <- app_assoc | by constructor].
Qed.

Lemma parent_child (dir : Path) (c : str) : parent (dir ++ [c]) = dir.
Proof. unfold parent. apply removelast_last. Qed.

(** X11. The stories of a Novel returned by the validator are exactly the
    story documents of the directory of its index document: one story for
    each file of that directory named [*.md], other than [index.md] and
    than the names that begin with an underscore, and no other; each story
    keeps the path of its file, which lies directly in that directory. *)
Theorem valid_novel_story_files (rt : runtime) (fs : node) (p : Path) (n : Novel.t) :
  Novel.load_if_valid rt fs p = Return (inr n) ->
  exists entries,
    iterdir fs (parent p) = Return entries
    /\ Permutation (map Story.path (Novel.stories n))
         (List.filter (story_document fs) entries)
    /\ forall s, In s (Novel.stories n) ->
         Story.load_if_valid rt fs (Story.path s) = Return (inr s)
         /\ parent (Story.path s) = parent p.
Proof.
  intros Hn.
  destruct (novel_valid_inv _ _ _ _ Hn)
    as (_ & data & ix & files & loaded & _ & _ & _ & Hfiles & Hload & _ & _
        & _ & Hst & _).
  unfold Novel.story_files in Hfiles.
  destruct (iterdir fs (parent p)) as [entries|] eqn:Hdir; simpl in Hfiles; [|done].
  injection Hfiles as <-. exists entries. split; [done|].
  apply load_stories_all in Hload as (added & -> & Hall). simpl in *.
  set (files := sorted path_ltb (List.filter _ entries)) in Hall.
  assert (map Story.path added = files) as Hpaths.
  { clear -Hall. induction Hall as [|f s fs' ss Hf _ IH]; [done|]. simpl.
    apply story_valid_path in Hf as [_ ->]. by rewrite IH. }
  split.
  - rewrite Hst. unfold sorted_by_key.
    rewrite (Permutation_map Story.path (sorted_perm _ added)), Hpaths.
    apply sorted_perm.
  - intros s Hs. rewrite Hst in Hs. apply sorted_In in Hs.
    assert (exists f, In f files /\ Story.load_if_valid rt fs f = Return (inr s))
      as (f & Hf & Hload).
    { clear -Hall Hs. induction Hall as [|f s' fs' ss Hf _ IH]; [done|].
      destruct Hs as [<-|Hs]; [exists f; split; [by left | done]|].
      destruct (IH Hs) as (f' & ? & ?). exists f'. split; [by right | done]. }
    pose proof (story_valid_path _ _ _ _ Hload) as [_ Hp]. rewrite Hp.
    split; [done|].
    apply sorted_In, filter_In in Hf as [Hf _].
    unfold iterdir in Hdir. destruct (resolve fs (parent p)) as [[|es]|]; try done.
    injection Hdir as <-. apply in_map_iff in Hf as (e & <- & _).
    apply parent_child.
Qed.

Lemma valid_novel_story_files_witness :
  exists n,
    Novel.load_if_valid sample_runtime chaptered_valid [py "n1"; py "index.md"]
    = Return (inr n)
    /\ map Story.path (Novel.stories n)
       = [[py "n1"; py "c.md"]; [py "n1"; py "b.md"]; [py "n1"; py "a.md"]]
    /\ exists entries,
         iterdir chaptered_valid (parent [py "n1"; py "index.md"]) = Return entries
         /\ Permutation (map Story.path (Novel.stories n))
              (List.filter (story_document chaptered_valid) entries)
         /\ forall s, In s (Novel.stories n) ->
              Story.load_if_valid sample_runtime chaptered_valid (Story.path s)
              = Return (inr s)
              /\ parent (Story.path s) = parent [py "n1"; py "index.md"].
Proof.
  eexists. split; [lazy; reflexivity|]. split; [reflexivity|].
  apply (valid_novel_story_files sample_runtime chaptered_valid
           [py "n1"; py "index.md"]).
  lazy. reflexivity.
Defined.

(** ** The novels of the top page *)

(** A scan of the directories that adds no error has accepted the novel
    of every novel directory, in order. *)
Lemma scan_all (rt : runtime) (fs : node) (children : list Path) :
  forall errors dirs novels errors' dirs' novels',
  TopPage.scan rt fs children errors dirs novels = Return (errors', dirs', novels') ->
  exists more,
    errors' = errors ++ more
    /\ (more = [] ->
        exists added,
          dirs' = dirs ++ List.filter (novel_directory fs) children
          /\ novels' = novels ++ added
          /\ Forall2
               (fun d n => Novel.load_if_valid rt fs (child_path d (py "index.md"))
                           = Return (inr n))
               (List.filter (novel_directory fs) children) added).
Proof.
  induction children as [|child children IH];
    intros errors dirs novels errors' dirs' novels'.
  - simpl. intros [= <- <- <-]. exists []. rewrite !app_nil_r. split; [done|].
    intros _. exists []. by rewrite app_nil_r.
  - change (List.filter (novel_directory fs) (child :: children))
      with (if novel_directory fs child
            then child :: List.filter (novel_directory fs) children
            else List.filter (novel_directory fs) children).
    cbn [TopPage.scan].
    destruct (novel_directory fs child) eqn:Hnd; unfold novel_directory in Hnd.
    + apply andb_prop in Hnd as [-> ->]. cbn [negb].
      destruct (Novel.load_if_valid rt fs _) as [[msgs|n]|] eqn:Hn; [| |done].
      * cbn [mbind outcome_bind]. intros H. apply IH in H as (more & -> & _).
        eexists. rewrite <- app_assoc. split; [done|].
        intros [Hm _]%app_eq_nil. apply map_nil_inv in Hm. subst.
        by apply novel_errors_nonempty in Hn.
      * cbn [mbind outcome_bind]. intros H.
        apply IH in H as (more & -> & Hall). exists more. split; [done|].
        intros Hm. destruct (Hall Hm) as (added & -> & -> & HF).
        exists (n :: added). rewrite <- !app_assoc. split; [done|]. split; [done|].
        by constructor.
    + destruct (is_dir fs child); cbn [negb]; [|apply IH].
      simpl in Hnd. rewrite Hnd. cbn [negb]. apply IH.
Qed.

Lemma insert_stable_fst {A B} (ltb : A -> A -> bool) (x : A * B) (l : list (A * B)) :
  map fst (insert_stable (fun a b => ltb (fst a) (fst b)) x l)
  = insert_stable ltb (fst x) (map fst l).
Proof.
  induction l as [|y l IH]; [done|]. simpl.
  destruct (ltb (fst y) (fst x)); simpl; by rewrite ?IH.
Qed.

(** Sorting pairs by their first components sorts the first components. *)
Lemma sorted_fst {A B} (ltb : A -> A -> bool) (l : list (A * B)) :
  map fst (sorted (fun a b => ltb (fst a) (fst b)) l) = sorted ltb (map fst l).
Proof.
  induction l as [|x l IH]; [done|]. simpl. by rewrite insert_stable_fst, IH.
Qed.

Lemma Forall2_zip_In {A B} (R : A -> B -> Prop) (l : list A) (k : list B) :
  Forall2 R l k -> forall pr, In pr (zip l k) -> R (fst pr) (snd pr).
Proof.
  induction 1 as [|a b l k Hab _ IH]; [done|]. simpl.
  intros pr [<-|Hin]; [done | by apply IH].
Qed.

Lemma Forall2_pairs {A B} (R : A -> B -> Prop) (l : list (A * B)) :
  (forall pr, In pr l -> R (fst pr) (snd pr)) ->
  Forall2 R (map fst l) (map snd l).
Proof.
  induction l as [|pr l IH]; intros H; simpl; [constructor|].
  constructor; [apply H; by left | apply IH; intros; apply H; by right].
Qed.

(** X12. A TopPage is returned only when every novel directory next to the
    about document (every subdirectory that holds an [index.md]) has a
    valid Novel: the directories of the TopPage are exactly those
    directories, and [novels] and [novel_directories] are parallel, the
    novel at each position being the one validated from the [index.md] of
    the directory at that position. *)
Theorem toppage_directories_parallel (rt : runtime) (fs : node) (p : Path)
    (tp : TopPage.t) :
  TopPage.load_if_valid rt fs p = Return (inr tp) ->
  exists children,
    iterdir fs (parent p) = Return children
    /\ Permutation (TopPage.novel_directories tp)
         (List.filter (novel_directory fs) children)
    /\ Forall2
         (fun n d =>
            Novel.load_if_valid rt fs (child_path d (py "index.md")) = Return (inr n)
            /\ Novel.path n = child_path d (py "index.md")
            /\ parent (Novel.path n) = d)
         (TopPage.novels tp) (TopPage.novel_directories tp).
Proof.
  unfold TopPage.load_if_valid. destruct (is_file fs p); simpl; [|done].
  destruct (read_text fs p) as [raw|[]]; try done.
  destruct (bool_decide (strip raw = [])); simpl; [done|].
  destruct (iterdir fs (parent p)) as [children|]; simpl; [|done].
  destruct (TopPage.scan rt fs _ [] [] []) as [[[errors dirs] accepted]|] eqn:Hscan;
    simpl; [|done].
  destruct errors; [|done]. intros [= <-]. simpl.
  exists children. split; [done|].
  apply scan_all in Hscan as (more & Hmore & Hall). simpl in Hmore. subst more.
  destruct (Hall eq_refl) as (added & -> & -> & HF). simpl in *.
  set (dirs := List.filter (novel_directory fs) (sorted path_ltb children)) in *.
  assert (Forall2
            (fun n d =>
               Novel.load_if_valid rt fs (child_path d (py "index.md")) = Return (inr n)
               /\ Novel.path n = child_path d (py "index.md")
               /\ parent (Novel.path n) = d) added dirs) as HR.
  { clear -HF. induction HF as [|d n ds ns Hd _ IH]; constructor; [|done].
    split; [done|].
    destruct (novel_valid_inv _ _ _ _ Hd) as (_ & _ & _ & _ & _ & _ & _ & _ & _ & _
                                             & _ & _ & Hp & _).
    split; [done|]. rewrite Hp. apply parent_child. }
  assert (List.length added = List.length dirs) as Hlen by by eapply Forall2_length.
  set (pairs := sorted_by_key TopPage.key_ltb
                  (fun pair => TopPage.sort_key fs (fst pair)) (zip added dirs)).
  assert (Permutation pairs (zip added dirs)) as Hperm by apply sorted_perm.
  assert (map fst pairs = sorted_by_key TopPage.key_ltb (TopPage.sort_key fs) added)
    as Hfst.
  { unfold pairs, sorted_by_key.
    rewrite (sorted_fst (fun a b => TopPage.key_ltb (TopPage.sort_key fs a)
                                      (TopPage.sort_key fs b))).
    f_equal. apply fst_zip. lia. }
  split.
  - rewrite (Permutation_map snd Hperm).
    replace (map snd (zip added dirs)) with dirs by (symmetry; apply snd_zip; lia).
    unfold dirs.
    assert (forall l k : list Path, Permutation l k ->
              Permutation (List.filter (novel_directory fs) l)
                (List.filter (novel_directory fs) k)) as Hf.
    { induction 1; simpl; try done.
      - destruct (novel_directory fs x); by rewrite ?IHPermutation.
      - destruct (novel_directory fs x), (novel_directory fs y); try done.
        apply perm_swap.
      - etrans; done. }
    apply Hf, sorted_perm.
  - rewrite <- Hfst. apply Forall2_pairs. intros pr Hin.
    apply (Forall2_zip_In _ _ _ HR). by apply (Permutation_in _ Hperm).
Qed.

Lemma toppage_directories_parallel_witness :
  exists tp,
    TopPage.load_if_valid sample_runtime sample_site [py "self_intro.md"]
    = Return (inr tp)
    /\ TopPage.novel_directories tp = [[py "x"]; [py "z"]; [py "y"]]
    /\ Forall2
         (fun n d =>
            Novel.load_if_valid sample_runtime sample_site
              (child_path d (py "index.md")) = Return (inr n)
            /\ Novel.path n = child_path d (py "index.md")
            /\ parent (Novel.path n) = d)
         (TopPage.novels tp) (TopPage.novel_directories tp).
Proof.
  eexists. split; [lazy; reflexivity|]. split; [reflexivity|].
  edestruct (toppage_directories_parallel sample_runtime sample_site
               [py "self_intro.md"]) as (children & _ & _ & H);
    [lazy; reflexivity | exact H].
Defined.

(** ** The update history over a run *)

Lemma update_other (rt : runtime) (history : History)
    (key : Path) (h now k : str) :
  k <> history_key rt key ->
  snd (update_history_entry rt history key h now) !! k = history !! k.
Proof.
  intros Hk. unfold update_history_entry. fold (history_key rt key).
  destruct (history !! history_key rt key) as [[h0 ts0]|];
    [destruct (negb (str_eqb h0 h))|]; simpl; try done;
    by rewrite lookup_insert_ne.
Qed.

(** X13. [update_history_entry] touches one record only: every other key
    of the history keeps its record (or stays absent), and the keys after
    the call are the keys before it and the normalised key. *)
Theorem update_history_entry_frame (rt : runtime) (history : History)
    (key : Path) (h now k : str) :
  k <> history_key rt key ->
  snd (update_history_entry rt history key h now) !! k = history !! k
  /\ dom (snd (update_history_entry rt history key h now))
     = dom history ∪ {[history_key rt key]}.
Proof.
  intros Hk. split; [by apply update_other|].
  apply set_eq. intros k'. rewrite elem_of_union, elem_of_singleton.
  rewrite !elem_of_dom.
  destruct (decide (k' = history_key rt key)) as [->|Hne].
  - rewrite update_lookup. split; [by right | by eexists].
  - rewrite update_other by done. split; [by left | by intros [|]].
Qed.

Lemma update_history_entry_frame_witness :
  let history : History := {[ py "n1/1.md" := (py "cd34", py "2024-12-31T00:00:00+00:00") ]} in
  let after := snd (update_history_entry sample_runtime history [py "n1"; py "index.md"]
                      (py "ab12") (py "2025-01-01T00:00:00+00:00")) in
  after !! py "n1/1.md" = history !! py "n1/1.md"
  /\ dom after = dom history ∪ {[history_key sample_runtime [py "n1"; py "index.md"]]}.
Proof.
  apply (update_history_entry_frame sample_runtime _ [py "n1"; py "index.md"]).
  vm_compute. discriminate.
Defined.

Lemma record_all_cons (rt : runtime) (c : Path * str * str)
    (calls : list (Path * str * str)) (history : History) :
  record_all rt (c :: calls) history
  = record_all rt calls
      (snd (update_history_entry rt history (fst (fst c)) (snd (fst c)) (snd c))).
Proof. reflexivity. Qed.

Lemma record_all_other (rt : runtime) (calls : list (Path * str * str)) (k : str) :
  forall history : History,
  ~ In k (call_keys rt calls) ->
  record_all rt calls history !! k = history !! k.
Proof.
  induction calls as [|c calls IH]; intros history Hk; [done|].
  simpl in Hk. rewrite record_all_cons, IH by tauto. apply update_other. intros ->. tauto.
Qed.

(** After a run over distinct keys, each key holds the hash of its call
    and the timestamp its call returned. *)
Lemma record_all_lookup (rt : runtime) (calls : list (Path * str * str)) :
  forall history : History,
  NoDup (call_keys rt calls) ->
  Forall2
    (fun c ts =>
       record_all rt calls history !! history_key rt (fst (fst c))
       = Some (snd (fst c), ts))
    calls (stamps rt calls history).
Proof.
  induction calls as [|c calls IH]; intros history Hnd; [constructor|].
  simpl in Hnd. apply NoDup_cons in Hnd as [Hc Hnd]. simpl. constructor.
  - rewrite record_all_other by (by rewrite <- list_elem_of_In).
    apply update_lookup.
  - by apply IH.
Qed.

(** A run whose hashes are all recorded changes nothing and returns the
    recorded timestamps. *)
Lemma record_all_recorded (rt : runtime) (history : History)
    (calls : list (Path * str * str)) (tss : list str) :
  Forall2
    (fun c ts => history !! history_key rt (fst (fst c)) = Some (snd (fst c), ts))
    calls tss ->
  record_all rt calls history = history /\ stamps rt calls history = tss.
Proof.
  induction 1 as [|c ts calls tss Hc _ IH]; [done|].
  rewrite record_all_cons. simpl.
  rewrite (update_same _ _ _ _ _ _ Hc). simpl. destruct IH as [-> ->]. done.
Qed.

(** X14. A second run over the same paths with the same hashes changes
    nothing: when the normalised keys of the calls of a run are distinct,
    running the calls again on the history the run left, at any later
    times, leaves the history as it is and returns the timestamps of the
    first run. *)
Theorem unchanged_run_keeps_history (rt : runtime) (history : History)
    (calls calls' : list (Path * str * str)) :
  NoDup (call_keys rt calls) ->
  same_hashes calls calls' ->
  record_all rt calls' (record_all rt calls history) = record_all rt calls history
  /\ stamps rt calls' (record_all rt calls history) = stamps rt calls history.
Proof.
  intros Hnd Hsame. apply record_all_recorded.
  pose proof (record_all_lookup rt calls history Hnd) as HF.
  revert HF. generalize (record_all rt calls history) (stamps rt calls history).
  clear Hnd. induction Hsame as [|c c' calls calls' Hc _ IH]; intros history1 tss HF.
  - inversion HF. constructor.
  - inversion HF as [|? ts ? tss' Hk HF']; subst. constructor; [|by apply IH].
    by rewrite <- Hc.
Qed.

Lemma unchanged_run_keeps_history_witness :
  let calls := [([py "self_intro.md"], py "ab12", py "2025-01-01T00:00:00+00:00");
                ([py "n1"; py "index.md"], py "cd34", py "2025-01-01T00:00:00+00:00")] in
  let calls' := [([py "self_intro.md"], py "ab12", py "2025-02-01T00:00:00+00:00");
                 ([py "n1"; py "index.md"], py "cd34", py "2025-02-01T00:00:00+00:00")] in
  record_all sample_runtime calls' (record_all sample_runtime calls ∅)
  = record_all sample_runtime calls ∅
  /\ stamps sample_runtime calls' (record_all sample_runtime calls ∅)
     = stamps sample_runtime calls ∅.
Proof.
  apply unchanged_run_keeps_history.
  - vm_compute. repeat constructor; rewrite ?list_elem_of_In; simpl; intuition discriminate.
  - repeat constructor.
Defined.

(** ** Ruby annotations *)

Lemma span_spec (p : Z -> bool) (s : str) :
  forall run rest, span p s = (run, rest) ->
  s = run ++ rest /\ Forall (fun c => p c = true) run
  /\ match rest with [] => True | c :: _ => p c = false end.
Proof.
  induction s as [|c s IH]; intros run rest; simpl.
  - intros [= <- <-]. by repeat split.
  - destruct (p c) eqn:Hc.
    + destruct (span p s) as [run' rest']. intros [= <- <-].
      destruct (IH _ _ eq_refl) as (-> & Hrun & Hrest).
      split; [done|]. split; [by constructor | done].
    + intros [= <- <-]. split; [done|]. split; [constructor | done].
Qed.

Lemma span_app (p : Z -> bool) (run : str) (c : Z) (rest : str) :
  Forall (fun c => p c = true) run -> p c = false ->
  span p (run ++ c :: rest) = (run, c :: rest).
Proof.
  induction 1 as [|d run Hd _ IH]; intros Hc; simpl.
  - by rewrite Hc.
  - by rewrite Hd, IH.
Qed.

(** What a match is. *)
Lemma ruby_match_spec (s base_text annotation rest : str) :
  ruby_match s = Some (base_text, annotation, rest) <->
  s = [124] ++ base_text ++ [60] ++ annotation ++ [62] ++ rest
  /\ base_text <> [] /\ annotation <> []
  /\ ~ In 60 base_text /\ ~ In 124 base_text /\ ~ In 62 annotation.
Proof.
  split.
  - unfold ruby_match. destruct s as [|c s1]; [done|].
    destruct (Z.eqb_spec c 124) as [->|]; [|done].
    destruct (span _ s1) as [b s2] eqn:Hb.
    destruct b as [|b0 b]; [done|]. destruct s2 as [|c2 s3]; [done|].
    destruct (Z.eqb_spec c2 60) as [->|]; [|done].
    destruct (span _ s3) as [a s4] eqn:Ha.
    destruct a as [|a0 a]; [done|]. destruct s4 as [|c4 s5]; [done|].
    destruct (Z.eqb_spec c4 62) as [->|]; [|done].
    intros [= <- <- <-].
    apply span_spec in Hb as (-> & Hb & _).
    apply span_spec in Ha as (-> & Ha & _).
    split; [done|]. split; [done|]. split; [done|].
    rewrite Forall_forall in Hb, Ha.
    repeat split; intros Hin%list_elem_of_In;
      [apply Hb in Hin | apply Hb in Hin | apply Ha in Hin]; done.
  - intros (-> & Hb & Ha & Hb1 & Hb2 & Ha1). simpl.
    rewrite (span_app _ base_text 60).
    + destruct base_text; [done|]. simpl.
      rewrite (span_app _ annotation 62).
      * by destruct annotation.
      * apply Forall_forall. intros c Hc%list_elem_of_In.
        destruct (Z.eqb_spec c 62) as [->|]; done.
      * done.
    + apply Forall_forall. intros c Hc%list_elem_of_In.
      destruct (Z.eqb_spec c 60) as [->|]; [done|].
      destruct (Z.eqb_spec c 124) as [->|]; done.
    + done.
Qed.

Lemma ruby_match_shorter (s base_text annotation rest : str) :
  ruby_match s = Some (base_text, annotation, rest) ->
  (List.length rest < List.length s)%nat.
Proof.
  intros (-> & _)%ruby_match_spec. rewrite !length_app. simpl. lia.
Qed.

(** The result does not depend on the fuel, once there is enough. *)
Lemma ruby_sub_fuel (f1 : nat) : forall (f2 : nat) (s : str),
  (List.length s <= f1)%nat -> (List.length s <= f2)%nat ->
  ruby_sub f1 s = ruby_sub f2 s.
Proof.
  induction f1 as [|f1 IH]; intros f2 s H1 H2.
  - destruct s; [|simpl in H1; lia]. by destruct f2.
  - destruct f2 as [|f2].
    + destruct s; [done | simpl in H2; lia].
    + cbn [ruby_sub]. destruct (ruby_match s) as [[[b a] rest]|] eqn:Hm.
      * apply ruby_match_shorter in Hm. f_equal. apply IH; lia.
      * destruct s as [|c s]; [done|]. simpl in H1, H2. f_equal. apply IH; lia.
Qed.

(** [to_html_ruby] one step at a time. *)
Lemma to_html_ruby_step (s : str) :
  to_html_ruby s
  = match ruby_match s with
    | Some (base_text, annotation, rest) =>
      replace_ruby base_text annotation ++ to_html_ruby rest
    | None =>
      match s with
      | [] => []
      | c :: s' => c :: to_html_ruby s'
      end
    end.
Proof.
  unfold to_html_ruby. destruct s as [|c s]; [done|].
  change (List.length (c :: s)) with (S (List.length s)).
  cbn [ruby_sub].
  destruct (ruby_match (c :: s)) as [[[b a] rest]|] eqn:Hm; [|done].
  apply ruby_match_shorter in Hm. simpl in Hm. f_equal. apply ruby_sub_fuel; lia.
Qed.

(** Text before the first vertical bar is copied. *)
Lemma to_html_ruby_prefix (pre s : str) :
  ~ In 124 pre -> to_html_ruby (pre ++ s) = pre ++ to_html_ruby s.
Proof.
  induction pre as [|c pre IH]; intros Hpre; [done|].
  simpl in Hpre. rewrite <- app_comm_cons, to_html_ruby_step.
  destruct (ruby_match (c :: pre ++ s)) as [[[b a] rest]|] eqn:Hm.
  - apply ruby_match_spec in Hm as ([= -> _] & _). tauto.
  - simpl. f_equal. apply IH. tauto.
Qed.

(** X15. [to_html_ruby] returns as it is a content that lacks a vertical
    bar, or lacks a [<], or lacks a [>]: without the three of them no
    annotation is recognised, and nothing else is rewritten. *)
Theorem to_html_ruby_plain (content : str) :
  ~ In 124 content \/ ~ In 60 content \/ ~ In 62 content ->
  to_html_ruby content = content.
Proof.
  intros H. induction content as [|c content IH]; [done|].
  rewrite to_html_ruby_step.
  destruct (ruby_match (c :: content)) as [[[b a] rest]|] eqn:Hm.
  - exfalso. apply ruby_match_spec in Hm as (Hs & _). rewrite Hs in H.
    destruct H as [H|[H|H]]; apply H; rewrite !in_app_iff; simpl; tauto.
  - f_equal. apply IH. simpl in H. tauto.
Qed.

Lemma to_html_ruby_plain_witness :
  to_html_ruby (py "This is a test without ruby.") = py "This is a test without ruby.".
Proof.
  apply to_html_ruby_plain. left. vm_compute. intuition discriminate.
Defined.

(** X16. The leftmost annotation: in a content
    [pre|base<annotation>post] where [pre] has no vertical bar, [base] is
    not empty and has neither [<] nor a vertical bar, and [annotation] is
    not empty and has no [>], [to_html_ruby] copies [pre], writes
    [<ruby>base<rt>annotation</rt></ruby>] with both texts verbatim, and
    goes on with [post]. The annotation may hold [<] and vertical bars:
    it runs to the first [>]. *)
Theorem to_html_ruby_annotation (pre base_text annotation post : str) :
  ~ In 124 pre ->
  base_text <> [] -> ~ In 60 base_text -> ~ In 124 base_text ->
  annotation <> [] -> ~ In 62 annotation ->
  to_html_ruby (pre ++ [124] ++ base_text ++ [60] ++ annotation ++ [62] ++ post)
  = pre ++ py "<ruby>" ++ base_text ++ py "<rt>" ++ annotation ++ py "</rt></ruby>"
    ++ to_html_ruby post.
Proof.
  intros Hpre Hb Hb1 Hb2 Ha Ha1.
  rewrite to_html_ruby_prefix by done. f_equal.
  rewrite to_html_ruby_step.
  assert (ruby_match ([124] ++ base_text ++ [60] ++ annotation ++ [62] ++ post)
          = Some (base_text, annotation, post)) as -> by by apply ruby_match_spec.
  unfold replace_ruby. by rewrite <- !app_assoc.
Qed.

Lemma to_html_ruby_annotation_witness :
  to_html_ruby (py "a |b<c|<d> e|f<g>.")
  = py "a <ruby>b<rt>c|<d</rt></ruby> e<ruby>f<rt>g</rt></ruby>.".
Proof.
  etrans;
    [apply (to_html_ruby_annotation (py "a ") (py "b") (py "c|<d") (py " e|f<g>."));
     vm_compute; intuition discriminate|].
  vm_compute. reflexivity.
Defined.

(** ** Escaping, tags and badges *)

Lemma replace_with_In (x : Z) (rep s : str) (c : Z) :
  In c (replace_with x rep s) -> In c rep \/ (In c s /\ c <> x).
Proof.
  unfold replace_with. intros (d & Hd & Hc)%in_flat_map.
  destruct (Z.eqb_spec d x) as [->|Hne]; [by left|].
  right. destruct Hc as [<-|[]]. done.
Qed.

(** X17. What [html_escape] returns holds none of the characters [<],
    [>], the double quote and the single quote, whatever the text. *)
Theorem html_escape_no_markup (s : str) (c : Z) :
  In c markup_chars -> ~ In c (html_escape s).
Proof.
  unfold html_escape. cbv zeta. intros Hc Hin.
  apply replace_with_In in Hin as [Hin|[Hin H39]];
    [vm_compute in Hin, Hc; intuition congruence|].
  apply replace_with_In in Hin as [Hin|[Hin H34]];
    [vm_compute in Hin, Hc; intuition congruence|].
  apply replace_with_In in Hin as [Hin|[Hin H62]];
    [vm_compute in Hin, Hc; intuition congruence|].
  apply replace_with_In in Hin as [Hin|[Hin H60]];
    [vm_compute in Hin, Hc; intuition congruence|].
  vm_compute in Hc. intuition congruence.
Qed.

Lemma html_escape_no_markup_witness :
  html_escape (py "<a href='x'>R&D</a>")
  = py "&lt;a href=&#x27;x&#x27;&gt;R&amp;D&lt;/a&gt;"
  /\ ~ In 60 (html_escape (py "<a href='x'>R&D</a>")).
Proof.
  split; [by vm_compute|].
  apply html_escape_no_markup. vm_compute. tauto.
Defined.

(** *** Lines and stripping *)

Lemma lstrip_app_spaces (w s : str) :
  forallb isspace w = true -> lstrip (w ++ s) = lstrip s.
Proof.
  induction w as [|c w IH]; [done|]. simpl.
  intros [Hc Hw]%andb_true_iff. rewrite Hc. auto.
Qed.

Lemma rstrip_app_spaces (s w : str) :
  forallb isspace w = true -> rstrip (s ++ w) = rstrip s.
Proof.
  intros Hw. unfold rstrip. rewrite rev_app_distr, lstrip_app_spaces; [done|].
  by rewrite forallb_rev.
Qed.

Lemma strip_app_spaces_l (w s : str) :
  forallb isspace w = true -> strip (w ++ s) = strip s.
Proof. intros Hw. unfold strip. by rewrite lstrip_app_spaces. Qed.

Lemma lstrip_app_r (s w : str) :
  lstrip s <> [] -> lstrip (s ++ w) = lstrip s ++ w.
Proof.
  induction s as [|c s IH]; [done|]. simpl.
  destruct (isspace c); [apply IH | done].
Qed.

Lemma strip_app_spaces_r (s w : str) :
  forallb isspace w = true -> strip (s ++ w) = strip s.
Proof.
  intros Hw. unfold strip.
  destruct (lstrip s) as [|c t] eqn:E.
  - assert (forallb isspace s = true) as Hs.
    { clear -E. induction s as [|c s IH]; [done|]. simpl in *.
      destruct (isspace c); [auto | done]. }
    rewrite lstrip_app_spaces by done. by rewrite lstrip_spaces.
  - rewrite lstrip_app_r by (by rewrite E). rewrite E.
    by apply rstrip_app_spaces.
Qed.

Lemma lstrip_split (s : str) :
  exists w, forallb isspace w = true /\ s = w ++ lstrip s.
Proof.
  induction s as [|x s (w & Hw & IH)]; [by exists []|]. simpl.
  destruct (isspace x) eqn:E; [|by exists []].
  exists (x :: w). simpl. rewrite E, Hw. split; [done|]. by rewrite <- IH.
Qed.

Lemma rstrip_split (s : str) :
  exists w, forallb isspace w = true /\ s = rstrip s ++ w.
Proof.
  unfold rstrip. destruct (lstrip_split (rev s)) as (w & Hw & E).
  exists (rev w). split; [by rewrite forallb_rev|].
  rewrite <- rev_app_distr, <- E. by rewrite rev_involutive.
Qed.

Lemma splitlines_from_cr (cur s : str) :
  splitlines_from cur (13 :: s) = cur :: splitlines_from [] (after_cr s).
Proof.
  simpl. destruct s as [|d s]; [done|]. simpl.
  destruct (Z.eqb_spec d 10) as [->|Hd]; [done|].
  destruct d as [|p|p]; try done.
  do 4 (destruct p as [p|p|]; try done).
Qed.

Lemma splitlines_from_break (cur s : str) (c : Z) :
  c <> 13 -> is_linebreak c = true ->
  splitlines_from cur (c :: s) = cur :: splitlines_from [] s.
Proof.
  intros Hc Hb. simpl. destruct (Z.eqb_spec c 13); [done|]. by rewrite Hb.
Qed.

Lemma splitlines_from_char (cur s : str) (c : Z) :
  c <> 13 -> is_linebreak c = false ->
  splitlines_from cur (c :: s) = splitlines_from (cur ++ [c]) s.
Proof.
  intros Hc Hb. simpl. destruct (Z.eqb_spec c 13); [done|]. by rewrite Hb.
Qed.

Lemma kept_cons_spaces (w : str) (lines : list str) :
  forallb isspace w = true -> kept (w :: lines) = kept lines.
Proof. intros Hw. unfold kept. simpl. by rewrite strip_spaces. Qed.

(** Whitespace ahead of the text of the current line changes nothing. *)
Lemma kept_cur_spaces (s : str) : forall cur w,
  forallb isspace w = true ->
  kept (splitlines_from (w ++ cur) s) = kept (splitlines_from cur s).
Proof.
  induction s as [|c s IH]; intros cur w Hw.
  - simpl. destruct cur as [|x cur].
    + rewrite app_nil_r. destruct w; [done|]. by rewrite kept_cons_spaces.
    + destruct (w ++ x :: cur) eqn:E; [by destruct w|]. rewrite <- E.
      unfold kept. simpl. by rewrite strip_app_spaces_l.
  - destruct (Z.eq_dec c 13) as [->|Hc].
    + rewrite !splitlines_from_cr. unfold kept. simpl.
      by rewrite strip_app_spaces_l.
    + destruct (is_linebreak c) eqn:Hb.
      * rewrite !splitlines_from_break by done. unfold kept. simpl.
        by rewrite strip_app_spaces_l.
      * rewrite !splitlines_from_char by done. rewrite <- app_assoc. by apply IH.
Qed.

Lemma kept_after_cr (s : str) :
  kept (splitlines_from [] (after_cr s)) = kept (splitlines_from [] s).
Proof.
  destruct s as [|d s]; [done|]. simpl after_cr.
  destruct (Z.eqb_spec d 10) as [->|]; [|done].
  rewrite splitlines_from_break by done. by rewrite kept_cons_spaces.
Qed.

(** Whitespace before the text changes nothing. *)
Lemma kept_lstrip (s : str) :
  kept (splitlines (lstrip s)) = kept (splitlines s).
Proof.
  unfold splitlines. induction s as [|c s IH]; [done|]. simpl lstrip.
  destruct (isspace c) eqn:Hs; [|done]. rewrite IH.
  destruct (Z.eq_dec c 13) as [->|Hc].
  - rewrite splitlines_from_cr, kept_cons_spaces by done. by rewrite kept_after_cr.
  - destruct (is_linebreak c) eqn:Hb.
    + rewrite splitlines_from_break by done. by rewrite kept_cons_spaces.
    + rewrite splitlines_from_char by done. simpl.
      rewrite <- (app_nil_r [c]). rewrite kept_cur_spaces; [done|].
      simpl. by rewrite Hs.
Qed.

(** A text of whitespace has one line at most, and it is blank. *)
Lemma kept_spaces (w : str) : forall cur,
  forallb isspace w = true ->
  kept (splitlines_from cur w) = kept [cur].
Proof.
  induction w as [|c w IH]; intros cur Hw.
  - simpl. by destruct cur.
  - simpl in Hw. apply andb_true_iff in Hw as [Hc Hw].
    assert (kept (splitlines_from [] w) = []) as Hnil by (by rewrite IH).
    destruct (Z.eq_dec c 13) as [->|Hc13].
    + rewrite splitlines_from_cr. unfold kept in *. simpl.
      fold (kept (splitlines_from [] (after_cr w))).
      rewrite kept_after_cr. unfold kept. by rewrite Hnil.
    + destruct (is_linebreak c) eqn:Hb.
      * rewrite splitlines_from_break by done. unfold kept in *. simpl.
        by rewrite Hnil.
      * rewrite splitlines_from_char by done. rewrite IH by done.
        unfold kept. simpl. rewrite strip_app_spaces_r; [done|].
        simpl. by rewrite Hc.
Qed.

Lemma after_cr_app (s w : str) :
  s <> [] -> after_cr (s ++ w) = after_cr s ++ w.
Proof. destruct s as [|d s]; [done|]. intros _. simpl. by destruct (d =? 10). Qed.

(** Whitespace after the text changes nothing. *)
Lemma kept_app_spaces (s w : str) : forall cur,
  forallb isspace w = true ->
  kept (splitlines_from cur (s ++ w)) = kept (splitlines_from cur s).
Proof.
  induction s as [|c s IH]; intros cur Hw.
  - simpl app. rewrite kept_spaces by done. simpl. by destruct cur.
  - rewrite <- app_comm_cons. destruct (Z.eq_dec c 13) as [->|Hc].
    + rewrite !splitlines_from_cr.
      assert (kept (splitlines_from [] (after_cr (s ++ w)))
              = kept (splitlines_from [] (after_cr s))) as E.
      { destruct s as [|d s].
        - simpl app. rewrite kept_after_cr. by rewrite kept_spaces.
        - rewrite !kept_after_cr. by apply IH. }
      unfold kept in *. simpl. by rewrite E.
    + destruct (is_linebreak c) eqn:Hb.
      * rewrite !splitlines_from_break by done.
        specialize (IH [] Hw). unfold kept in *. simpl. by rewrite IH.
      * rewrite !splitlines_from_char by done. by apply IH.
Qed.

(** The lines the validator looks at are those of the text as it is: the
    strip before the split changes none of them. *)
Lemma stripped_lines_raw (v : str) :
  Novel.stripped_lines v = kept (splitlines v).
Proof.
  unfold Novel.stripped_lines. fold not_blank. fold (kept (splitlines (strip v))).
  rewrite <- (kept_lstrip v). unfold strip.
  destruct (rstrip_split (lstrip v)) as (w & Hw & E).
  rewrite E at 2. unfold splitlines. by rewrite kept_app_spaces.
Qed.

Lemma lstrip_keeps (s : str) (z : Z) :
  In z s -> isspace z = false -> In z (lstrip s).
Proof.
  induction s as [|c s IH]; [done|]. simpl. intros [->|Hin] Hz.
  - rewrite Hz. by left.
  - destruct (isspace c); [by apply IH | by right].
Qed.

Lemma strip_keeps (s : str) (z : Z) :
  In z s -> isspace z = false -> In z (strip s).
Proof.
  intros Hin Hz. unfold strip, rstrip. apply in_rev.
  rewrite rev_involutive. apply lstrip_keeps; [|done].
  apply -> in_rev. by apply lstrip_keeps.
Qed.

(** The text after the dash of a stripped item is not blank. *)
Lemma item_not_blank (line : str) :
  startswith (strip line) (py "- ") = true -> strip (skipn 2 (strip line)) <> [].
Proof.
  intros Hs. destruct (strip_ends line) as [_ Hend].
  change (py "- ") with [45; 32] in Hs.
  destruct (strip line) as [|a [|b rest]] eqn:E; simpl in Hs;
    [done | by rewrite andb_false_r in Hs |].
  apply andb_true_iff in Hs as [Ha Hb]. apply andb_true_iff in Hb as [Hb _].
  apply Z.eqb_eq in Ha, Hb. subst. change (strip rest <> []).
  destruct (exists_last (l := 45 :: 32 :: rest) ltac:(done)) as (front & z & Hz).
  specialize (Hend z front Hz).
  assert (In z rest) as Hin.
  { destruct front as [|f1 [|f2 front]].
    - done.
    - simpl in Hz. injection Hz as _ Hz _. subst z. vm_compute in Hend. discriminate.
    - simpl in Hz. injection Hz as _ _ Hz. rewrite Hz. apply in_app_iff. right. by left. }
  intros Hnil. pose proof (strip_keeps _ _ Hin Hend) as H. by rewrite Hnil in H.
Qed.

(** On lines whose items all begin with a dash and a space, the loop of
    [parse_tags] gives one tag for each line that is not blank. *)
Lemma tags_scan_items (lines : list str) :
  (forall l, In l (kept lines) -> startswith l (py "- ") = true) ->
  tags_scan lines = map (fun l => strip (skipn 2 l)) (kept lines)
  /\ Forall (fun tag => tag <> []) (tags_scan lines).
Proof.
  induction lines as [|line lines IH]; intros Hall; [by split|].
  unfold kept in *. simpl in *.
  destruct (not_blank (strip line)) eqn:Hnb.
  - assert (startswith (strip line) (py "- ") = true) as Hs by (apply Hall; by left).
    rewrite Hs. pose proof (item_not_blank line Hs) as Hne.
    rewrite bool_decide_eq_false_2 by done. simpl.
    destruct IH as [-> HF]; [intros l Hl; apply Hall; by right|].
    split; [done|]. by constructor.
  - unfold not_blank in Hnb. apply negb_false_iff, bool_decide_eq_true in Hnb.
    rewrite Hnb. simpl. by apply IH.
Qed.

(** What a valid novel keeps of its index document. *)
Lemma valid_novel_index (rt : runtime) (fs : node) (p : Path) (n : Novel.t) :
  Novel.load_if_valid rt fs p = Return (inr n) ->
  exists data,
    Novel.field_errors rt data = []
    /\ Novel.status n = strip (dict_get_default (py "status") [] data)
    /\ Novel.tags n = dict_get_default (py "tags") [] data.
Proof.
  intros Hn. pose proof Hn as Hrec.
  destruct (novel_valid_inv _ _ _ _ Hn)
    as (_ & data & ix & files & loaded & Hdata & Hix & Herr & _ & Hload & _ & _
        & _ & Hst & _ & _ & Hstatus & Htitle).
  destruct (check_index_fields _ _ _ Hix) as (Et & Eg & Es & more & Em).
  rewrite Herr in Em. symmetry in Em. apply app_eq_nil in Em as [Hfe _].
  exists data. split; [done|]. split; [by rewrite Hstatus, Es|].
  unfold Novel.load_if_valid in Hrec.
  destruct (is_file fs p); simpl in Hrec; [|done].
  rewrite Hdata, Hix in Hrec. simpl in Hrec. rewrite Herr in Hrec.
  unfold Novel.build in Hrec.
  destruct (Novel.story_files fs (parent p)); simpl in Hrec; [|done].
  destruct (Novel.load_stories rt fs _ _ []) as [[e l]|]; simpl in Hrec; [|done].
  destruct (Novel.duplicate_errors rt l); simpl in Hrec; [|done].
  destruct (Novel.chapter_errors rt _ _ l); simpl in Hrec; [|done].
  destruct (_ ++ _) in Hrec; [|done]. injection Hrec as <-. simpl.
  by rewrite Eg.
Qed.

(** No field error means that the tags are a list of items. *)
Lemma field_errors_tags (rt : runtime) (data : dict str) :
  set_iter_faithful rt ->
  Novel.field_errors rt data = [] ->
  Novel.stripped_lines (dict_get_default (py "tags") [] data) <> []
  /\ forall l, In l (Novel.stripped_lines (dict_get_default (py "tags") [] data)) ->
               startswith l (py "- ") = true.
Proof.
  intros Hrt H.
  destruct (field_errors_nil_inv rt data Hrt H) as (Hreq & _).
  unfold Novel.field_errors in H. cbv zeta in H.
  apply if_if_app_nil in H as [H _].
  apply if_if_app_nil in H as [_ Htags].
  specialize (Htags (Hreq (py "tags") ltac:(right; by left))).
  apply orb_false_iff in Htags as [Hne Hall].
  apply bool_decide_eq_false in Hne. split; [done|].
  intros l Hl. rewrite <- not_true_iff_false, existsb_exists in Hall.
  destruct (startswith l (py "- ")) eqn:E; [done|].
  exfalso. apply Hall. exists l. by rewrite E.
Qed.

Lemma join_not_empty (sep : str) (parts : list str) :
  parts <> [] -> Forall (fun part => part <> []) parts -> join sep parts <> [].
Proof.
  destruct parts as [|part parts]; [done|]. intros _ HF.
  apply Forall_cons in HF as [Hp _]. simpl.
  destruct parts; [done|]. by destruct part.
Qed.

(** X18. The tags of a valid novel, as the pages show them: under an
    interpreter that iterates a set as a permutation, [parse_tags] on the
    [tags] of a Novel the validator returned finds one tag for each line
    of the section that is not blank, namely the stripped text after the
    dash of the line; there is one tag at least, no tag is empty, and the
    string [parse_tags] returns is not empty. *)
Theorem valid_novel_tags (rt : runtime) (fs : node) (p : Path) (n : Novel.t) :
  set_iter_faithful rt ->
  Novel.load_if_valid rt fs p = Return (inr n) ->
  tags_scan (splitlines (Novel.tags n))
  = map (fun l => strip (skipn 2 l)) (Novel.stripped_lines (Novel.tags n))
  /\ tags_scan (splitlines (Novel.tags n)) <> []
  /\ Forall (fun tag => tag <> []) (tags_scan (splitlines (Novel.tags n)))
  /\ parse_tags (Novel.tags n) <> [].
Proof.
  intros Hrt Hn.
  destruct (valid_novel_index rt fs p n Hn) as (data & Hfe & _ & ->).
  destruct (field_errors_tags rt data Hrt Hfe) as [Hne Hall].
  rewrite stripped_lines_raw in *.
  destruct (tags_scan_items _ Hall) as [E HF].
  assert (tags_scan (splitlines (dict_get_default (py "tags") [] data)) <> [])
    as Hsome.
  { rewrite E. intros Hnil. by apply map_nil_inv in Hnil. }
  split; [done|]. split; [done|]. split; [done|].
  by apply join_not_empty.
Qed.

Lemma valid_novel_tags_witness :
  exists n,
    Novel.load_if_valid sample_runtime chaptered_valid [py "n1"; py "index.md"]
    = Return (inr n)
    /\ parse_tags (Novel.tags n) <> [].
Proof.
  eexists. split; [lazy; reflexivity|].
  match goal with
  | |- parse_tags (Novel.tags ?n) <> [] =>
    destruct (valid_novel_tags sample_runtime chaptered_valid
                [py "n1"; py "index.md"] n sample_runtime_faithful)
      as (_ & _ & _ & H); [lazy; reflexivity | exact H]
  end.
Defined.

(** X19. The badge of a valid novel: under an interpreter that iterates a
    set as a permutation, [render_status_badge] on the [status] of a
    Novel the validator returned gives the class of that status
    ([status-ongoing], [status-complete] or [status-paused], never
    [status-other]) and shows the status as it is, nothing in it being
    escaped. *)
Theorem valid_novel_badge (rt : runtime) (fs : node) (p : Path) (n : Novel.t) :
  set_iter_faithful rt ->
  Novel.load_if_valid rt fs p = Return (inr n) ->
  exists cls,
    In (Novel.status n, cls) badge_classes
    /\ render_status_badge (Novel.status n)
       = py "<span class=" ++ [34] ++ py "status-badge " ++ cls ++ [34] ++ py ">"
         ++ Novel.status n ++ py "</span>".
Proof.
  intros Hrt Hn.
  destruct (valid_novel_index rt fs p n Hn) as (data & Hfe & Hs & _).
  destruct (field_errors_nil_inv rt data Hrt Hfe) as (_ & _ & _ & _ & Hvalid).
  rewrite <- Hs in Hvalid.
  destruct Hvalid as [<-|[<-|[<-|[]]]].
  - exists (py "status-ongoing"). split; [by left | by vm_compute].
  - exists (py "status-complete"). split; [right; by left | by vm_compute].
  - exists (py "status-paused"). split; [right; right; by left | by vm_compute].
Qed.

Lemma valid_novel_badge_witness :
  exists n,
    Novel.load_if_valid sample_runtime chaptered_valid [py "n1"; py "index.md"]
    = Return (inr n)
    /\ exists cls,
         In (Novel.status n, cls) badge_classes
         /\ render_status_badge (Novel.status n)
            = py "<span class=" ++ [34] ++ py "status-badge " ++ cls ++ [34] ++ py ">"
              ++ Novel.status n ++ py "</span>".
Proof.
  eexists. split; [lazy; reflexivity|].
  match goal with
  | |- exists cls, In (Novel.status ?n, cls) _ /\ _ =>
    apply (valid_novel_badge sample_runtime chaptered_valid
             [py "n1"; py "index.md"] n sample_runtime_faithful)
  end.
  lazy; reflexivity.
Defined.

(** ** The errors of the top page *)

Lemma scan_errors (rt : runtime) (fs : node) (children : list Path) :
  forall errors dirs novels errors' dirs' novels',
  TopPage.scan rt fs children errors dirs novels = Return (errors', dirs', novels') ->
  errors' = errors ++ flat_map (novel_report rt fs) children.
Proof.
  induction children as [|child children IH];
    intros errors dirs novels errors' dirs' novels'.
  - simpl. intros [= <- _ _]. by rewrite app_nil_r.
  - cbn [TopPage.scan flat_map]. unfold novel_report at 1.
    destruct (novel_directory fs child) eqn:Hnd; unfold novel_directory in Hnd.
    + apply andb_prop in Hnd as [-> ->]. cbn [negb]. cbv zeta.
      destruct (Novel.load_if_valid rt fs _) as [[msgs|n]|]; [| |done].
      * cbn [mbind outcome_bind]. intros H. apply IH in H. by rewrite <- app_assoc in H.
      * cbn [mbind outcome_bind]. intros H. by apply IH in H.
    + destruct (is_dir fs child); cbn [negb]; [|apply IH].
      simpl in Hnd. rewrite Hnd. cbn [negb]. apply IH.
Qed.

(** X20. When the about document is there, is UTF-8 and is not blank, the
    errors [TopPage.load_if_valid] returns are the messages of every
    novel directory whose novel is not valid, in the sorted order of the
    directories, each message after the path of the [index.md] it is
    about; the scan goes on after the first novel that is not valid, and a
    valid novel adds nothing. *)
Theorem toppage_errors_all (rt : runtime) (fs : node) (p : Path)
    (raw : str) (errors : list str) :
  is_file fs p = true ->
  read_text fs p = Return raw ->
  strip raw <> [] ->
  TopPage.load_if_valid rt fs p = Return (inl errors) ->
  exists children,
    iterdir fs (parent p) = Return children
    /\ errors = flat_map (novel_report rt fs) (sorted path_ltb children)
    /\ errors <> [].
Proof.
  intros Hfile Hraw Hnb. unfold TopPage.load_if_valid.
  rewrite Hfile, Hraw. simpl. rewrite bool_decide_eq_false_2 by done. simpl.
  destruct (iterdir fs (parent p)) as [children|]; simpl; [|done].
  destruct (TopPage.scan rt fs _ [] [] []) as [[[errs dirs] accepted]|] eqn:Hscan;
    simpl; [|done].
  apply scan_errors in Hscan. simpl in Hscan.
  destruct errs as [|e errs]; [done|]. intros [= <-].
  exists children. by rewrite <- Hscan.
Qed.

Lemma toppage_errors_all_witness :
  TopPage.load_if_valid sample_runtime broken_site [py "self_intro.md"]
  = Return (inl [py "n1/index.md: Duplicate story number found: 1"])
  /\ exists children,
       iterdir broken_site (parent [py "self_intro.md"]) = Return children
       /\ [py "n1/index.md: Duplicate story number found: 1"]
          = flat_map (novel_report sample_runtime broken_site)
              (sorted path_ltb children)
       /\ [py "n1/index.md: Duplicate story number found: 1"] <> [].
Proof.
  split; [lazy; reflexivity|].
  apply (toppage_errors_all sample_runtime broken_site [py "self_intro.md"]
           (py "Hello.")).
  - lazy; reflexivity.
  - lazy; reflexivity.
  - vm_compute. discriminate.
  - lazy; reflexivity.
Defined.

(** ** The exceptions of the story validator *)

Lemma md_scan_raises (lines : list str) :
  forall result current_key buffer e,
  md_scan lines result current_key buffer = Raise e ->
  exists msg, e = JsonKeyDuplicateError msg.
Proof.
  induction lines as [|raw_line lines IH]; intros result ck buffer e; simpl.
  - by destruct ck.
  - destruct (startswith _ _).
    + destruct ck as [k|].
      * destruct (dict_mem _ _); [intros [= <-]; by eexists | apply IH].
      * destruct (dict_mem _ _); [intros [= <-]; by eexists | apply IH].
    + destruct ck; apply IH.
Qed.

(** X21. The exceptions [Story.load_if_valid] lets out on a file that is
    read. When the bytes of the file are obtained (the file exists, and
    opening and reading it succeed), the validator raises in two
    situations only: the bytes are not UTF-8 ([UnicodeDecodeError]), or
    the bytes are UTF-8, the document is parsed, the stripped [number]
    section passes the integer check and [int] rejects it ([ValueError]:
    a digit that is not decimal, or more digits than the conversion
    limit). A repeated header and every other defect of the document give
    a list of errors. A file that cannot be read is not covered: the file
    tree has no permissions, and an error of [open] is outside the
    statement. *)
Theorem story_exceptions (rt : runtime) (fs : node) (p : Path)
    (contents : bytes) (e : exn) :
  read_bytes fs p = Return contents ->
  Story.load_if_valid rt fs p = Raise e ->
  (e = UnicodeDecodeError /\ utf8_decode contents = None)
  \/ (e = ValueError
      /\ exists text data,
           utf8_decode contents = Some text
           /\ md_to_json fs p = Return data
           /\ Story._is_int_string rt (number_text data) = true
           /\ py_int rt (number_text data) = Raise ValueError).
Proof.
  intros Hread. unfold Story.load_if_valid.
  assert (is_file fs p = true) as ->.
  { unfold read_bytes in Hread. unfold is_file.
    by destruct (resolve fs p) as [[]|]. }
  simpl. unfold md_to_json, read_text. rewrite Hread. simpl.
  destruct (utf8_decode contents) as [text|] eqn:Hdec; simpl.
  - destruct (md_to_json_text (translate_newlines text)) as [data|e'] eqn:Hmd.
    + intros H. right. unfold Story.validate, Story.parse_number in H.
      fold (number_text data) in H.
      destruct (dict_mem _ data && negb _) in H;
        [|simpl in H; by destruct (Story.header_errors rt data)].
      destruct (Story._is_int_string rt (number_text data)) eqn:Hint;
        [|simpl in H; by destruct (_ ++ _)].
      destruct (py_int rt (number_text data)) as [v|e''] eqn:Hv;
        [simpl in H; by destruct (Story.header_errors rt data)|].
      simpl in H. injection H as <-.
      pose proof (py_int_raises _ _ _ Hv) as ->.
      split; [done|]. by exists text, data.
    + apply md_scan_raises in Hmd as [msg ->]. done.
  - intros [= <-]. by left.
Qed.

Lemma story_exceptions_witness :
  (ValueError = UnicodeDecodeError
   /\ utf8_decode (octets (story_doc "T" "²" "C")) = None)
  \/ (ValueError = ValueError
      /\ exists text data,
           utf8_decode (octets (story_doc "T" "²" "C")) = Some text
           /\ md_to_json (Dir [(py "1.md", text_file 0 (story_doc "T" "²" "C"))])
                [py "1.md"] = Return data
           /\ Story._is_int_string sample_runtime (number_text data) = true
           /\ py_int sample_runtime (number_text data) = Raise ValueError).
Proof.
  apply (story_exceptions sample_runtime
           (Dir [(py "1.md", text_file 0 (story_doc "T" "²" "C"))]) [py "1.md"]);
    reflexivity.
Defined.
